(** * Ketamine software directory: the reconciliation pipeline

    A shallow embedding of the review aggregator
    ([scripts/aggregate-reviews.mjs]), of the validator of its output
    ([scripts/validation/validate-aggregated-reviews.mjs]), of the
    evidence collector ([scripts/agents/acquire/verify.mjs]), of the
    classifier ([scripts/agents/acquire/classify.mjs]) and of the
    acquisition orchestrator ([scripts/agents/acquire/index.mjs]),
    followed by the properties the specification states about them and by
    further properties of the code.

    JavaScript numbers are IEEE 754 binary64 values: they are embedded as
    Rocq's primitive floats, whose operations are the same ones.  Strings
    are embedded as [string] (the ASCII fragment of JavaScript strings). *)

From Stdlib Require Import ZArith List String Ascii Bool Lia Permutation Sorted.
From Stdlib Require Import Floats Uint63 DecimalString.
Import ListNotations.

#[local] Set Warnings "-inexact-float".
#[local] Open Scope bool_scope.
#[local] Open Scope string_scope.
#[local] Open Scope list_scope.

(** ** JavaScript primitives used by the scripts *)

Module Js.

(** [x === y] on numbers: IEEE equality ([NaN] differs from itself, the
    two zeros are equal). *)
Definition strictEq (x y : float) : bool := (x =? y)%float.

Definition isNaN (x : float) : bool := negb (x =? x)%float.

(** Truthiness of a number: everything but [0], [-0] and [NaN]. *)
Definition truthy (x : float) : bool := negb (isNaN x || (x =? 0)%float).

(** [x || 0] on a number. *)
Definition orZero (x : float) : float := if truthy x then x else 0%float.

(** [Number.isFinite(x)] for a value already known to be a number. *)
Definition Number_isFinite (x : float) : bool := (abs x <? infinity)%float.

(** The integer [n], with [|n| <= 2^53], as a number. *)
Definition ofZ (n : Z) : float :=
  match n with
  | Z0 => 0%float
  | Zpos _ => of_uint63 (Uint63.of_Z n)
  | Zneg _ => (- of_uint63 (Uint63.of_Z (- n)))%float
  end.

(** [Math.round(x)]: the integral number closest to [x], a tie going to
    the larger one; [NaN], the infinities and integral values are
    returned unchanged, and a negative [x] that rounds to zero gives
    [-0].  For a finite [x = (-1)^s * m * 2^e] with [e < 0] the result is
    [floor (x + 1/2)], computed exactly. *)
Definition Math_round (x : float) : float :=
  match Prim2SF x with
  | S754_finite s m e =>
      if (0 <=? e)%Z then x
      else
        let v := if s then Z.neg m else Z.pos m in
        let n := Z.shiftr (v + 2 ^ (- e - 1)) (- e) in
        if (n =? 0)%Z then (if s then (-0)%float else 0%float) else ofZ n
  | _ => x
  end.

(** Truthiness of a string, and [a || b] on strings. *)
Definition strTruthy (s : string) : bool := negb (s =? "").

Definition orStr (a b : string) : string := if strTruthy a then a else b.

(** A property that may be absent: [undefined] reads as a falsy value. *)
Definition optStr (o : option string) : string :=
  match o with Some s => s | None => "" end.

Definition isUpper (c : ascii) : bool := (("A" <=? c) && (c <=? "Z"))%char.
Definition isLower (c : ascii) : bool := (("a" <=? c) && (c <=? "z"))%char.
Definition isDigit (c : ascii) : bool := (("0" <=? c) && (c <=? "9"))%char.

Definition lowerChar (c : ascii) : ascii :=
  if isUpper c then ascii_of_nat (nat_of_ascii c + 32) else c.

(** [s.toLowerCase()]. *)
Fixpoint toLowerCase (s : string) : string :=
  match s with
  | EmptyString => EmptyString
  | String c t => String (lowerChar c) (toLowerCase t)
  end.

(** [s.includes(sub)]. *)
Fixpoint includes (s sub : string) : bool :=
  prefix sub s
  || match s with
     | EmptyString => false
     | String _ t => includes t sub
     end.

(** The rest of [s] after the literal [p], when [s] starts with [p]. *)
Fixpoint dropPrefix (p s : string) : option string :=
  match p, s with
  | EmptyString, _ => Some s
  | String a p', String b s' => if (a =? b)%char then dropPrefix p' s' else None
  | String _ _, EmptyString => None
  end.

Fixpoint filterChars (f : ascii -> bool) (s : string) : string :=
  match s with
  | EmptyString => EmptyString
  | String c t => if f c then String c (filterChars f t) else filterChars f t
  end.

Fixpoint takeWhile (f : ascii -> bool) (s : string) : string :=
  match s with
  | EmptyString => EmptyString
  | String c t => if f c then String c (takeWhile f t) else EmptyString
  end.

Fixpoint dropWhile (f : ascii -> bool) (s : string) : string :=
  match s with
  | EmptyString => EmptyString
  | String c t => if f c then dropWhile f t else s
  end.

(** Values a JSON document can hold in a field that the scripts read as a
    number: [JObject] stands for any object or array. *)
Inductive JsValue :=
| JUndefined
| JNull
| JBool (b : bool)
| JNumber (x : float)
| JString (s : string)
| JObject.

(** [a ?? b]. *)
Definition coalesce (a b : JsValue) : JsValue :=
  match a with
  | JUndefined | JNull => b
  | _ => a
  end.

End Js.

(** ** The review aggregator: [scripts/aggregate-reviews.mjs] *)

Module Reviews.
Import Js.

Record ReviewSource := mkSource {
  source : string;
  score : float;
  count : float;
  url : string;
  lastUpdated : string
}.

Record AggregatedReview := mkReview {
  aggregateScore : option float;
  totalCount : float;
  sources : list ReviewSource;
  lastAggregated : string
}.

(** The object [result] of a run, and the previous output as a run reads
    it when every score and count in the file is a number: an object keyed
    by vendor slug, as the list of its entries in enumeration order. *)
Definition Snapshot := list (string * AggregatedReview).

Record PlatformMapping := mkPlatform {
  pm_slug : string;
  pm_url : string
}.

(** One entry of [vendor-mappings.json]; [None] is a [null] mapping. *)
Record VendorMapping := mkMapping {
  g2 : option PlatformMapping;
  capterra : option PlatformMapping
}.

(** [mappings.vendors], as the list of its entries in the order in which
    [Object.keys] and [Object.entries] enumerate them: keys that are array
    indices first, in ascending order, then the other keys in the order of
    the file. *)
Definition Mappings := list (string * VendorMapping).

(** The two platforms, the property names ['g2'] and ['capterra'] of a
    mapping. *)
Inductive Platform := G2 | Capterra.

(** [mapping?.[source]]. *)
Definition platformMapping (m : VendorMapping) (p : Platform) : option PlatformMapping :=
  match p with G2 => g2 m | Capterra => capterra m end.

(** One record of a raw Apify dump.  The two URL properties are strings
    when present; the numeric properties are whatever the dump holds. *)
Record RawItem := mkItem {
  item_productUrl : option string;
  item_url : option string;
  item_rating : JsValue;
  item_overallRating : JsValue;
  item_reviewCount : JsValue;
  item_totalReviews : JsValue
}.

(** [obj[key]] on an object given by its entries. *)
Fixpoint lookup {A : Type} (obj : list (string * A)) (key : string) : option A :=
  match obj with
  | [] => None
  | (k, v) :: rest => if k =? key then Some v else lookup rest key
  end.

Definition notSlash (c : ascii) : bool := negb (c =? "/")%char.

(** [url.match(/g2\.com\/products\/([^/]+)/)]: the leftmost place where
    the literal is followed by at least one character other than [/]. *)
Fixpoint extractG2Slug (url : string) : option string :=
  let here :=
    match dropPrefix "g2.com/products/" url with
    | Some rest =>
        let m := takeWhile notSlash rest in
        if strTruthy m then Some m else None
    | None => None
    end in
  match here with
  | Some m => Some m
  | None =>
      match url with
      | EmptyString => None
      | String _ t => extractG2Slug t
      end
  end.

(** [url.match(/capterra\.com\/p\/\d+\/([^/]+)/)], lower-cased. *)
Fixpoint extractCapterraSlug (url : string) : option string :=
  let here :=
    match dropPrefix "capterra.com/p/" url with
    | Some rest =>
        if strTruthy (takeWhile isDigit rest) then
          match dropPrefix "/" (dropWhile isDigit rest) with
          | Some rest' =>
              let m := takeWhile notSlash rest' in
              if strTruthy m then Some (toLowerCase m) else None
          | None => None
          end
        else None
    | None => None
    end in
  match here with
  | Some m => Some m
  | None =>
      match url with
      | EmptyString => None
      | String _ t => extractCapterraSlug t
      end
  end.

Fixpoint mapToVendorSlug (platformSlug : string) (p : Platform)
    (vendors : Mappings) : option string :=
  match vendors with
  | [] => None
  | (vendorSlug, mapping) :: rest =>
      match platformMapping mapping p with
      | Some pm =>
          if strTruthy (pm_slug pm)
             && (toLowerCase (pm_slug pm) =? toLowerCase platformSlug)
          then Some vendorSlug
          else mapToVendorSlug platformSlug p rest
      | None => mapToVendorSlug platformSlug p rest
      end
  end.

Definition calculateAggregate (sources : list ReviewSource) : option float :=
  match sources with
  | [] => None
  | _ =>
      let totalCount :=
        fold_left (fun sum s => (sum + orZero (count s))%float) sources 0%float in
      if strictEq totalCount 0 then None
      else
        let weightedSum :=
          fold_left (fun sum s => (sum + orZero (score s) * orZero (count s))%float)
                    sources 0%float in
        Some (Math_round ((weightedSum / totalCount) * 10) / 10)%float
  end.

Section Run.
(** What one run reads at its start: the mappings, the previous output
    (the empty object when there is none) and the run date. *)
Variable mappings : Mappings.
Variable previous : Snapshot.
Variable today : string.

Definition getMappedUrl (vendorSlug : string) (p : Platform) : string :=
  match lookup mappings vendorSlug with
  | Some m =>
      match platformMapping m p with
      | Some pm => pm_url pm
      | None => ""
      end
  | None => ""
  end.

Definition getPreviousSource (vendorSlug source : string) : option ReviewSource :=
  match lookup previous vendorSlug with
  | Some prev => find (fun s => Reviews.source s =? source) (sources prev)
  | None => None
  end.

Definition makeSource (vendorSlug source : string) (score count : float)
    (url : string) : ReviewSource :=
  let prev := getPreviousSource vendorSlug source in
  let roundedScore := (Math_round (score * 10) / 10)%float in
  let unchanged :=
    match prev with
    | Some p =>
        strictEq (Reviews.score p) roundedScore
        && strictEq (Reviews.count p) count
        && (Reviews.url p =? url)
    | None => false
    end in
  {| source := source;
     score := roundedScore;
     count := count;
     url := url;
     lastUpdated :=
       match prev with
       | Some p => if unchanged then lastUpdated p else today
       | None => today
       end |}.

(** The entry [result[slug]] starts from: no source yet, and
    [prev?.lastAggregated || today]. *)
Definition initEntry (slug : string) : AggregatedReview :=
  {| aggregateScore := None;
     totalCount := 0%float;
     sources := [];
     lastAggregated :=
       match lookup previous slug with
       | Some prev => orStr (lastAggregated prev) today
       | None => today
       end |}.

(** The initial [result]: every mapped vendor. *)
Definition initResult : Snapshot :=
  map (fun '(slug, _) => (slug, initEntry slug)) mappings.

(** [result[vendorSlug].sources.push(src)]. *)
Definition pushSource (result : Snapshot) (vendorSlug : string)
    (src : ReviewSource) : Snapshot :=
  map (fun '(slug, data) =>
         if slug =? vendorSlug
         then (slug, {| aggregateScore := aggregateScore data;
                        totalCount := totalCount data;
                        sources := sources data ++ [src];
                        lastAggregated := lastAggregated data |})
         else (slug, data))
      result.

(** The guard of both loops:
    [typeof score === 'number' && Number.isFinite(score) &&
     typeof count === 'number' && count > 0]. *)
Definition accepted (score count : JsValue) : option (float * float) :=
  match score, count with
  | JNumber sc, JNumber ct =>
      if Number_isFinite sc && (0 <? ct)%float then Some (sc, ct) else None
  | _, _ => None
  end.

(** The body of the G2 loop: the vendor and source it pushes, if any. *)
Definition processG2 (item : RawItem) : option (string * ReviewSource) :=
  let url := orStr (optStr (item_productUrl item)) (orStr (optStr (item_url item)) "") in
  match extractG2Slug url with
  | None => None
  | Some g2Slug =>
      match mapToVendorSlug g2Slug G2 mappings with
      | None => None
      | Some vendorSlug =>
          if negb (strTruthy vendorSlug) then None
          else
            let score := coalesce (item_rating item) (item_overallRating item) in
            let count :=
              coalesce (coalesce (item_reviewCount item) (item_totalReviews item))
                       (JNumber 0) in
            match accepted score count with
            | Some (sc, ct) =>
                let reviewUrl :=
                  orStr (getMappedUrl vendorSlug G2)
                        ("https://www.g2.com/products/" ++ g2Slug ++ "/reviews") in
                Some (vendorSlug, makeSource vendorSlug "g2" sc ct reviewUrl)
            | None => None
            end
      end
  end.

(** The body of the Capterra loop. *)
Definition processCapterra (item : RawItem) : option (string * ReviewSource) :=
  let url := orStr (optStr (item_url item)) (orStr (optStr (item_productUrl item)) "") in
  match extractCapterraSlug url with
  | None => None
  | Some capterraSlug =>
      match mapToVendorSlug capterraSlug Capterra mappings with
      | None => None
      | Some vendorSlug =>
          if negb (strTruthy vendorSlug) then None
          else
            let score := coalesce (item_overallRating item) (item_rating item) in
            let count :=
              coalesce (coalesce (item_reviewCount item) (item_totalReviews item))
                       (JNumber 0) in
            match accepted score count with
            | Some (sc, ct) =>
                let reviewUrl := orStr (getMappedUrl vendorSlug Capterra) url in
                Some (vendorSlug, makeSource vendorSlug "capterra" sc ct reviewUrl)
            | None => None
            end
      end
  end.

(** One of the two loops over a raw dump ([None]: the file is missing
    or is not an array, and the loop is skipped). *)
Definition processDump (process : RawItem -> option (string * ReviewSource))
    (raw : option (list RawItem)) (result : Snapshot) : Snapshot :=
  match raw with
  | Some items =>
      fold_left (fun res item =>
                   match process item with
                   | Some (vendorSlug, src) => pushSource res vendorSlug src
                   | None => res
                   end)
                items result
  | None => result
  end.

(** [a.source.localeCompare(b.source) < 0].  The aggregator only sorts
    the names it emits, ["capterra"] and ["g2"], on which collation
    order is code-unit order. *)
Definition sourceBefore (a b : ReviewSource) : bool := (source a <? source b).

(** [Array.prototype.sort] is stable: an element is inserted before the
    first one of the sorted rest that does not come before it. *)
Fixpoint insertSource (x : ReviewSource) (l : list ReviewSource) : list ReviewSource :=
  match l with
  | [] => [x]
  | y :: t => if sourceBefore y x then y :: insertSource x t else x :: y :: t
  end.

Definition sortSources (l : list ReviewSource) : list ReviewSource :=
  fold_right insertSource [] l.

(** [new Map(list.map((s) => [s.source, s])).get(name)]: the last entry
    of that name. *)
Definition bySource (l : list ReviewSource) (name : string) : option ReviewSource :=
  find (fun s => source s =? name) (rev l).

(** The keys of the two maps, as the [Set] iterates them. *)
Definition allSources (prevSources currSources : list ReviewSource) : list string :=
  nodup string_dec (map source prevSources ++ map source currSources).

Definition sourceChanged (prevSources currSources : list ReviewSource)
    (name : string) : bool :=
  match bySource prevSources name, bySource currSources name with
  | None, Some _ => true
  | Some _, None => true
  | Some p, Some c =>
      negb (strictEq (score p) (score c)) || negb (strictEq (count p) (count c))
  | None, None => false
  end.

Definition changed (prevSources currSources : list ReviewSource) : bool :=
  existsb (sourceChanged prevSources currSources)
          (allSources prevSources currSources).

(** The body of the last loop, for the entry [data] of [result[slug]]. *)
Definition finalize (slug : string) (data : AggregatedReview) : AggregatedReview :=
  let sorted := sortSources (sources data) in
  let total := fold_left (fun sum s => (sum + count s)%float) sorted 0%float in
  let prev := lookup previous slug in
  let prevSources := match prev with Some p => sources p | None => [] end in
  {| aggregateScore := calculateAggregate sorted;
     totalCount := total;
     sources := sorted;
     lastAggregated :=
       if changed prevSources sorted then today
       else match prev with
            | Some p => orStr (lastAggregated p) (lastAggregated data)
            | None => lastAggregated data
            end |}.

(** [aggregate()]: the object [result] that [JSON.stringify] then writes
    to [aggregated-reviews.json]. *)
Definition aggregate (g2Raw capterraRaw : option (list RawItem)) : Snapshot :=
  let result := initResult in
  let result := processDump processG2 g2Raw result in
  let result := processDump processCapterra capterraRaw result in
  map (fun '(slug, data) => (slug, finalize slug data)) result.

End Run.

End Reviews.

(** ** The validator of the aggregator's output:
    [scripts/validation/validate-aggregated-reviews.mjs] *)

Module Validate.
Import Js Reviews.

(** The errors the validator pushes for one record, without their text;
    [i] is the index of the source. *)
Inductive Problem :=
| AggregateNotNumber
| AggregateOutOfRange
| TotalCountInvalid
| SourceNameInvalid (i : nat)
| SourceScoreInvalid (i : nat)
| SourceCountInvalid (i : nat)
| SourceUrlInvalid (i : nat)
| SourceDateInvalid (i : nat)
| TotalMismatch
| LastAggregatedInvalid.

(** A number after [JSON.stringify] and [JSON.parse]: [NaN] and the
    infinities are written as [null] (here [None]), and [-0] as [0]. *)
Definition jsonNumber (x : float) : option float :=
  if Number_isFinite x then Some (if (x =? 0)%float then 0%float else x) else None.

(** A record as the validator reads it from [aggregated-reviews.json]. *)
Record StoredSource := mkStoredSource {
  st_source : string;
  st_score : option float;
  st_count : option float;
  st_url : string;
  st_lastUpdated : string
}.

Record StoredReview := mkStoredReview {
  st_aggregateScore : option float;
  st_totalCount : option float;
  st_sources : list StoredSource;
  st_lastAggregated : string
}.

(** What the aggregator's [JSON.stringify(result, null, 2)] leaves of a
    record for the validator's [JSON.parse]. *)
Definition storeSource (s : ReviewSource) : StoredSource :=
  {| st_source := source s;
     st_score := jsonNumber (score s);
     st_count := jsonNumber (count s);
     st_url := url s;
     st_lastUpdated := lastUpdated s |}.

Definition store (r : AggregatedReview) : StoredReview :=
  {| st_aggregateScore :=
       match aggregateScore r with Some x => jsonNumber x | None => None end;
     st_totalCount := jsonNumber (totalCount r);
     st_sources := map storeSource (sources r);
     st_lastAggregated := lastAggregated r |}.

(** [/^\d{4}-\d{2}-\d{2}$/.test(value)]. *)
Definition isIsoDate (value : string) : bool :=
  match list_ascii_of_string value with
  | [y1; y2; y3; y4; s1; m1; m2; s2; d1; d2] =>
      isDigit y1 && isDigit y2 && isDigit y3 && isDigit y4 && (s1 =? "-")%char
      && isDigit m1 && isDigit m2 && (s2 =? "-")%char && isDigit d1 && isDigit d2
  | _ => false
  end.

(** [validSources.includes(name)]. *)
Definition validSource (name : string) : bool := (name =? "g2") || (name =? "capterra").

(** [typeof x !== 'number' || x < 0 || x > 5]. *)
Definition outOfRange (x : option float) : bool :=
  match x with
  | Some v => (v <? 0)%float || (5 <? v)%float
  | None => true
  end.

(** [typeof x !== 'number' || x < 0]. *)
Definition notCount (x : option float) : bool :=
  match x with
  | Some v => (v <? 0)%float
  | None => true
  end.

(** The loop over [data.sources.entries()], from index [i] on: the
    errors and the running [sourceTotal]. *)
Fixpoint checkSources (i : nat) (l : list StoredSource) (errors : list Problem)
    (sourceTotal : float) : list Problem * float :=
  match l with
  | [] => (errors, sourceTotal)
  | src :: rest =>
      let errors :=
        if negb (validSource (st_source src)) then errors ++ [SourceNameInvalid i]
        else errors in
      let errors :=
        if outOfRange (st_score src) then errors ++ [SourceScoreInvalid i] else errors in
      let '(errors, sourceTotal) :=
        match st_count src with
        | Some c =>
            if (c <? 0)%float then (errors ++ [SourceCountInvalid i], sourceTotal)
            else (errors, (sourceTotal + c)%float)
        | None => (errors ++ [SourceCountInvalid i], sourceTotal)
        end in
      let errors :=
        if negb (strTruthy (st_url src)) then errors ++ [SourceUrlInvalid i]
        else errors in
      let errors :=
        if negb (isIsoDate (st_lastUpdated src)) then errors ++ [SourceDateInvalid i]
        else errors in
      checkSources (S i) rest errors sourceTotal
  end.

(** The body of the loop over the records: the errors pushed for one
    record of the shape the aggregator writes. *)
Definition validateRecord (data : StoredReview) : list Problem :=
  let errors :=
    match st_aggregateScore data with
    | None => []
    | Some x =>
        if negb (Number_isFinite x) then [AggregateNotNumber]
        else if (x <? 0)%float || (5 <? x)%float then [AggregateOutOfRange]
        else []
    end in
  let errors :=
    if notCount (st_totalCount data) then errors ++ [TotalCountInvalid] else errors in
  let '(errors, sourceTotal) := checkSources 0 (st_sources data) errors 0%float in
  let errors :=
    match st_totalCount data with
    | Some t =>
        if negb (strictEq t sourceTotal) then errors ++ [TotalMismatch] else errors
    | None => errors ++ [TotalMismatch]
    end in
  if negb (isIsoDate (st_lastAggregated data)) then errors ++ [LastAggregatedInvalid]
  else errors.

End Validate.

(** ** The output file read back as the previous snapshot *)

Module Stored.
Import Js Reviews Validate.

(** A source and a record of the file as the next run reads them, when
    their scores and counts are numbers ([JSON.stringify] has written no
    [null] for them). *)
Definition loadSource (s : StoredSource) : option ReviewSource :=
  match st_score s, st_count s with
  | Some sc, Some ct =>
      Some {| source := st_source s; score := sc; count := ct;
              url := st_url s; lastUpdated := st_lastUpdated s |}
  | _, _ => None
  end.

Fixpoint loadSources (l : list StoredSource) : option (list ReviewSource) :=
  match l with
  | [] => Some []
  | s :: rest =>
      match loadSource s, loadSources rest with
      | Some x, Some xs => Some (x :: xs)
      | _, _ => None
      end
  end.

Definition loadReview (r : StoredReview) : option AggregatedReview :=
  match st_totalCount r, loadSources (st_sources r) with
  | Some total, Some l =>
      Some {| aggregateScore := st_aggregateScore r; totalCount := total;
              sources := l; lastAggregated := st_lastAggregated r |}
  | _, _ => None
  end.

(** [loadJson(OUTPUT_PATH)] after a run whose result was [out]. *)
Fixpoint reread (out : Snapshot) : option Snapshot :=
  match out with
  | [] => Some []
  | (slug, r) :: rest =>
      match loadReview (store r), reread rest with
      | Some r', Some rest' => Some ((slug, r') :: rest')
      | _, _ => None
      end
  end.

(** A number of the file that was written for [x]: [-0] comes back as
    [0]. *)
Definition canon (x : float) : float := if (x =? 0)%float then 0%float else x.

Definition canonSource (s : ReviewSource) : ReviewSource :=
  {| source := source s; score := canon (score s); count := canon (count s);
     url := url s; lastUpdated := lastUpdated s |}.

Definition canonReview (r : AggregatedReview) : AggregatedReview :=
  {| aggregateScore :=
       match aggregateScore r with Some x => jsonNumber x | None => None end;
     totalCount := canon (totalCount r);
     sources := map canonSource (sources r);
     lastAggregated := lastAggregated r |}.

Definition canonSnapshot (out : Snapshot) : Snapshot :=
  map (fun '(slug, r) => (slug, canonReview r)) out.

End Stored.


(** ** The evidence collector: [scripts/agents/acquire/verify.mjs] *)

Module Verify.
Import Js.

Definition KETAMINE_KEYWORDS : list string :=
  ["ketamine"; "spravato"; "esketamine"; "iv infusion"; "im injection";
   "intramuscular"; "infusion clinic"; "infusion therapy"; "treatment series";
   "rems"].

Definition PSYCHIATRY_KEYWORDS : list string :=
  ["psychiatry"; "psychiatric"; "behavioral health"; "mental health";
   "outcome tracking"; "phq-9"; "gad-7"; "rating scales"; "outcome measures"].

Definition PAGES_TO_CHECK : list string :=
  [""; "/pricing"; "/features"; "/psychiatry"; "/solutions"; "/about"].

Record KeywordMatch := mkMatch {
  keyword : string;
  match_count : Z
}.

Record Evidence := mkEvidence {
  count : Z;
  matches : list KeywordMatch
}.

Inductive Status := verified | unverified | needs_review.

(** The verification report; [pricing_found] is left out, nothing below
    reads it. *)
Record VerificationReport := mkReport {
  vendor : option string;
  name : string;
  website_live : bool;
  website_error : option string;
  pages_checked : list string;
  ketamine_evidence : option Evidence;
  psychiatry_evidence : option Evidence;
  verification_date : string;
  status : Status
}.

(** What the existence probe ([fetch] with method [HEAD]) comes back
    with: an exception (network error, abort after ten seconds) or a
    response with its HTTP status. *)
Inductive FetchOutcome :=
| FetchError (message : string)
| Response (http_status : Z).

Record WebsiteStatus := mkStatus {
  ok : bool;
  http_code : Z;
  error : string
}.

(** [response.ok]: the status is in the range 200-299. *)
Definition response_ok (code : Z) : bool := ((200 <=? code) && (code <=? 299))%Z.

Definition checkWebsite (outcome : FetchOutcome) : WebsiteStatus :=
  match outcome with
  | Response code => {| ok := response_ok code; http_code := code; error := "" |}
  | FetchError message => {| ok := false; http_code := 0; error := message |}
  end.

(** Case-insensitive test that [p] occurs at the start of [s]. *)
Fixpoint prefixCI (p s : string) : bool :=
  match p, s with
  | EmptyString, _ => true
  | String a p', String b s' => (lowerChar a =? lowerChar b)%char && prefixCI p' s'
  | String _ _, EmptyString => false
  end.

(** The number of matches of [new RegExp(keyword, 'gi')] in [content],
    for a keyword that is not empty and has no regular-expression
    operator, as every keyword of the script: occurrences are
    taken from the left and do not overlap ([skip] characters of the
    last match are still to be passed). *)
Fixpoint countMatches (keyword : string) (skip : nat) (content : string) : nat :=
  match content with
  | EmptyString => 0
  | String _ t =>
      match skip with
      | S k => countMatches keyword k t
      | O =>
          if prefixCI keyword content
          then S (countMatches keyword (String.length keyword - 1) t)
          else countMatches keyword 0 t
      end
  end.

Definition searchKeywords (content : string) (keywords : list string) : Evidence :=
  if negb (strTruthy content) then {| count := 0; matches := [] |}
  else
    fold_left
      (fun ev keyword =>
         let n := Z.of_nat (countMatches keyword 0 content) in
         if (0 <? n)%Z
         then {| count := (count ev + n)%Z;
                 matches := matches ev ++ [{| keyword := keyword; match_count := n |}] |}
         else ev)
      keywords {| count := 0; matches := [] |}.

Definition decimal (n : Z) : string := NilZero.string_of_int (Z.to_int n).

(** A vendor as the acquisition scripts read it, from the content
    directory or from a discovery feed; an absent [website] or
    [description] is the empty string, an absent [slug] is [None]. *)
Record Vendor := mkVendor {
  v_name : string;
  v_website : string;
  v_slug : option string;
  v_description : string;
  v_source : string
}.

Section Network.
(** The network: what the [HEAD] probe of a URL comes back with, and
    the text [fetchPageContent] extracts from a page of a site
    ([None] for a failed fetch or a non-success status). *)
Variable probe : string -> FetchOutcome.
Variable fetchPageContent : string -> string -> option string.
Variable today : string.

(** The loop over [PAGES_TO_CHECK]: the concatenated text and the pages
    that contributed to it. *)
Definition fetchPages (website : string) : string * list string :=
  fold_left
    (fun '(allContent, pagesChecked) pagePath =>
       match fetchPageContent website pagePath with
       | Some content =>
           if strTruthy content
           then ((allContent ++ " " ++ content)%string,
                 pagesChecked ++ [orStr pagePath "/"])
           else (allContent, pagesChecked)
       | None => (allContent, pagesChecked)
       end)
    PAGES_TO_CHECK ("", []).

Definition verifyVendor (v : Vendor) : VerificationReport :=
  let websiteStatus := checkWebsite (probe (v_website v)) in
  if negb (ok websiteStatus) then
    {| vendor := v_slug v;
       name := v_name v;
       website_live := false;
       website_error :=
         Some (orStr (error websiteStatus) ("HTTP " ++ decimal (http_code websiteStatus)));
       pages_checked := [];
       ketamine_evidence := None;
       psychiatry_evidence := None;
       verification_date := today;
       status := unverified |}
  else
    let '(allContent, pagesChecked) := fetchPages (v_website v) in
    let ketamineEvidence := searchKeywords allContent KETAMINE_KEYWORDS in
    let psychiatryEvidence := searchKeywords allContent PSYCHIATRY_KEYWORDS in
    let status :=
      if (5 <=? count ketamineEvidence)%Z then verified
      else if (3 <=? count psychiatryEvidence)%Z then verified
      else needs_review in
    {| vendor := v_slug v;
       name := v_name v;
       website_live := true;
       website_error := None;
       pages_checked := pagesChecked;
       ketamine_evidence := Some ketamineEvidence;
       psychiatry_evidence := Some psychiatryEvidence;
       verification_date := today;
       status := status |}.

End Network.

End Verify.

(** ** The classifier: [scripts/agents/acquire/classify.mjs] *)

Module Classify.
Import Js Verify.

Inductive Category := ketamine_specific | ketamine_compatible | general_ehr | unknown.

Inductive Confidence := high | medium | low.

Record KetamineFeatures := mkFeatures {
  iv_protocols : bool;
  im_protocols : bool;
  spravato_workflows : bool;
  outcome_tracking : bool;
  patient_rating_scales : bool;
  ketamine_consent_forms : bool;
  treatment_series_tracking : bool
}.

Record ClassificationEvidence := mkClassEvidence {
  ketamine_mentions : Z;
  psychiatry_mentions : Z;
  keywords : option (list KeywordMatch)
}.

(** The result of [classifyVendor]; [inferred_features] is the property
    that [classifyAllVendors] adds and [classifyVendor] does not set. *)
Record Classification := mkClassification {
  classification : Category;
  reason : string;
  confidence : Confidence;
  evidence : option ClassificationEvidence;
  inferred_features : option KetamineFeatures
}.

Definition THRESHOLDS_specific_ketamine_mentions : Z := 5.
Definition THRESHOLDS_compatible_ketamine_mentions : Z := 1.
Definition THRESHOLDS_compatible_psychiatry_mentions : Z := 3.

(** [evidence?.count || 0]. *)
Definition countOrZero (e : option Evidence) : Z :=
  match e with
  | Some ev => if (count ev =? 0)%Z then 0%Z else count ev
  | None => 0%Z
  end.

(** [evidence?.matches || []]. *)
Definition matchesOrEmpty (e : option Evidence) : list KeywordMatch :=
  match e with Some ev => matches ev | None => [] end.

(** [evidence?.matches?.some(f)], read as a condition. *)
Definition someMatch (f : KeywordMatch -> bool) (e : option Evidence) : bool :=
  match e with Some ev => existsb f (matches ev) | None => false end.

Definition isKetamineKeyword (m : KeywordMatch) : bool :=
  (keyword m =? "ketamine") || (keyword m =? "spravato") || (keyword m =? "esketamine").

(** Computed by [classifyVendor] and not used by its decision. *)
Definition isInfusionKeyword (m : KeywordMatch) : bool :=
  includes (keyword m) "infusion" || includes (keyword m) "iv "
  || includes (keyword m) "im ".

Definition classifyVendor (r : VerificationReport) : Classification :=
  if negb (website_live r) then
    {| classification := unknown;
       reason := "Website unavailable for verification";
       confidence := low;
       evidence := None;
       inferred_features := None |}
  else
    let ketamineCount := countOrZero (ketamine_evidence r) in
    let psychiatryCount := countOrZero (psychiatry_evidence r) in
    let hasKetamineKeyword := someMatch isKetamineKeyword (ketamine_evidence r) in
    if (THRESHOLDS_specific_ketamine_mentions <=? ketamineCount)%Z && hasKetamineKeyword then
      {| classification := ketamine_specific;
         reason := "Found " ++ decimal ketamineCount
                   ++ " ketamine-related mentions with specific keywords";
         confidence := high;
         evidence := Some {| ketamine_mentions := ketamineCount;
                             psychiatry_mentions := psychiatryCount;
                             keywords := Some (matchesOrEmpty (ketamine_evidence r)) |};
         inferred_features := None |}
    else if (THRESHOLDS_compatible_ketamine_mentions <=? ketamineCount)%Z
            || (THRESHOLDS_compatible_psychiatry_mentions <=? psychiatryCount)%Z then
      {| classification := ketamine_compatible;
         reason :=
           if (0 <? ketamineCount)%Z
           then "Found " ++ decimal ketamineCount
                ++ " ketamine mention(s) - may support ketamine workflows"
           else "Found " ++ decimal psychiatryCount
                ++ " psychiatry/behavioral health mentions - compatible with mental health practices";
         confidence := if (0 <? ketamineCount)%Z then medium else low;
         evidence := Some {| ketamine_mentions := ketamineCount;
                             psychiatry_mentions := psychiatryCount;
                             keywords := Some (matchesOrEmpty (ketamine_evidence r)
                                               ++ matchesOrEmpty (psychiatry_evidence r)) |};
         inferred_features := None |}
    else
      {| classification := general_ehr;
         reason := "No ketamine or psychiatry-specific evidence found";
         confidence := high;
         evidence := Some {| ketamine_mentions := ketamineCount;
                             psychiatry_mentions := psychiatryCount;
                             keywords := None |};
         inferred_features := None |}.

(** [matches.some((m) => keywords.some((k) => m.keyword.toLowerCase().includes(k)))]. *)
Definition hasKeyword (ms : list KeywordMatch) (ks : list string) : bool :=
  existsb (fun m => existsb (fun k => includes (toLowerCase (keyword m)) k) ks) ms.

Definition inferKetamineFeatures (r : VerificationReport) : KetamineFeatures :=
  let ms := matchesOrEmpty (ketamine_evidence r) in
  {| iv_protocols := hasKeyword ms ["iv infusion"; "infusion protocol"; "infusion clinic"];
     im_protocols := hasKeyword ms ["im injection"; "intramuscular"];
     spravato_workflows := hasKeyword ms ["spravato"; "rems"; "esketamine"];
     outcome_tracking :=
       hasKeyword ms ["outcome tracking"; "outcome measure"; "phq-9"; "gad-7"];
     patient_rating_scales := hasKeyword ms ["rating scale"; "phq"; "gad"; "questionnaire"];
     ketamine_consent_forms := hasKeyword ms ["consent form"; "informed consent"];
     treatment_series_tracking :=
       hasKeyword ms ["treatment series"; "session tracking"; "infusion series"] |}.

(** One element of the list [classifyAllVendors] builds: the
    classification with the inferred features attached. *)
Definition classifyReport (r : VerificationReport) : Classification :=
  let c := classifyVendor r in
  {| classification := classification c;
     reason := reason c;
     confidence := confidence c;
     evidence := evidence c;
     inferred_features := Some (inferKetamineFeatures r) |}.

Definition classifyAllVendors (verificationResults : list VerificationReport)
    : list Classification :=
  map classifyReport verificationResults.

End Classify.

(** ** The acquisition orchestrator: [scripts/agents/acquire/index.mjs] *)

Module Acquire.
Import Js Verify Classify.

Definition isAlnumLower (c : ascii) : bool := isLower c || isDigit c.

(** The ASCII white space that [trim] removes. *)
Definition isSpace (c : ascii) : bool :=
  (c =? " ")%char || ((9 <=? nat_of_ascii c) && (nat_of_ascii c <=? 13))%nat.

Fixpoint trimEnd (s : string) : string :=
  match s with
  | EmptyString => EmptyString
  | String c t =>
      let t' := trimEnd t in
      if isSpace c && (t' =? "") then EmptyString else String c t'
  end.

Definition trim (s : string) : string := trimEnd (dropWhile isSpace s).

(** [name.toLowerCase().replace(/[^a-z0-9]/g, '').trim()]. *)
Definition normalizeName (name : string) : string :=
  trim (filterChars isAlnumLower (toLowerCase name)).

(** [h.replace(/^www\./, '')]. *)
Definition stripWww (h : string) : string :=
  match dropPrefix "www." h with
  | Some rest => rest
  | None => h
  end.

Inductive MatchReason := name_match | domain_match.

(** [{ exists: true, reason, existing }], or [None] for [{ exists: false }]. *)
Definition ExistsCheck := option (MatchReason * option string).

Inductive LogLine :=
| SkippingNoWebsite (name : string)
| SkippingExisting (name : string) (reason : MatchReason) (existing : option string)
| SkippingDuplicate (name : string).

(** A generated entry; the properties that are the same constant in every
    entry (pricing, features lists, pros, cons, ideal_for) are left out. *)
Record SoftwareEntry := mkEntry {
  e_name : string;
  e_slug : string;
  e_website : string;
  e_logo : string;
  software_type : Category;
  e_description : string;
  verification_status : Status;
  verification_notes : string;
  ketamine_features : KetamineFeatures;
  last_verified : string;
  data_source : string
}.

(** [s.replace(/[^a-z0-9]+/g, '-')]: [inRun] holds inside a run of other
    characters, which has already given its dash. *)
Fixpoint dashRuns (inRun : bool) (s : string) : string :=
  match s with
  | EmptyString => EmptyString
  | String c t =>
      if isAlnumLower c then String c (dashRuns false t)
      else if inRun then dashRuns true t
      else String "-" (dashRuns true t)
  end.

Fixpoint dropLastDash (s : string) : string :=
  match s with
  | EmptyString => EmptyString
  | String c t =>
      if t =? "" then (if (c =? "-")%char then EmptyString else s)
      else String c (dropLastDash t)
  end.

(** [s.replace(/^-|-$/g, '')]. *)
Definition stripEdgeDashes (s : string) : string :=
  dropLastDash (match dropPrefix "-" s with Some rest => rest | None => s end).

Definition generateSlug (name : string) : string :=
  stripEdgeDashes (dashRuns false (toLowerCase name)).

Definition noFeatures : KetamineFeatures :=
  {| iv_protocols := false;
     im_protocols := false;
     spravato_workflows := false;
     outcome_tracking := false;
     patient_rating_scales := false;
     ketamine_consent_forms := false;
     treatment_series_tracking := false |}.

Section Platform.
(** [new URL(url).hostname], a service of the platform: [None] when the
    constructor throws.  The parser lower-cases the host name. *)
Variable hostname : string -> option string.

Definition extractDomain (url : string) : option string :=
  match hostname url with
  | Some h => Some (stripWww h)
  | None => None
  end.

(** The loop of [vendorExists], with the two values computed before
    it. *)
Fixpoint findExisting (normalizedNew : string) (newDomain : option string)
    (existingVendors : list Vendor) : ExistsCheck :=
  match existingVendors with
  | [] => None
  | existing :: rest =>
      if normalizeName (v_name existing) =? normalizedNew
      then Some (name_match, v_slug existing)
      else
        match newDomain, extractDomain (v_website existing) with
        | Some d, Some d' =>
            if strTruthy d && strTruthy d' && (d =? d')
            then Some (domain_match, v_slug existing)
            else findExisting normalizedNew newDomain rest
        | _, _ => findExisting normalizedNew newDomain rest
        end
  end.

Definition vendorExists (newVendor : Vendor) (existingVendors : list Vendor)
    : ExistsCheck :=
  findExisting (normalizeName (v_name newVendor))
               (extractDomain (v_website newVendor)) existingVendors.

(** The body of the loop that filters the discovered vendors: the new
    [newVendors] and the line it logs, if any. *)
Definition filterStep (existingVendors : list Vendor)
    (state : list Vendor * list LogLine) (vendor : Vendor)
    : list Vendor * list LogLine :=
  let '(newVendors, log) := state in
  if negb (strTruthy (v_website vendor))
  then (newVendors, log ++ [SkippingNoWebsite (v_name vendor)])
  else
    match vendorExists vendor existingVendors with
    | Some (reason, existing) =>
        (newVendors, log ++ [SkippingExisting (v_name vendor) reason existing])
    | None =>
        match vendorExists vendor newVendors with
        | Some _ => (newVendors, log ++ [SkippingDuplicate (v_name vendor)])
        | None => (newVendors ++ [vendor], log)
        end
    end.

Definition filterDiscovered (existingVendors allDiscovered : list Vendor)
    : list Vendor * list LogLine :=
  fold_left (filterStep existingVendors) allDiscovered ([], []).

Variable probe : string -> FetchOutcome.
Variable fetchPageContent : string -> string -> option string.
Variable today : string.

Definition generateSoftwareEntry (vendor : Vendor) (verificationReport : VerificationReport)
    (c : Classification) : SoftwareEntry :=
  let slug := generateSlug (v_name vendor) in
  {| e_name := v_name vendor;
     e_slug := slug;
     e_website := v_website vendor;
     e_logo := "/images/software/" ++ slug ++ "-logo.png";
     software_type := classification c;
     e_description :=
       orStr (v_description vendor) (v_name vendor ++ " - awaiting verification");
     verification_status := needs_review;
     verification_notes := "Auto-discovered. " ++ reason c;
     ketamine_features :=
       match inferred_features c with
       | Some f => f
       | None => noFeatures
       end;
     last_verified := today;
     data_source := orStr (v_source vendor) "G2/Capterra discovery" |}.

(** The body of the loop over [newVendors]: verify, classify, generate. *)
Definition processVendor (vendor : Vendor) : SoftwareEntry :=
  let verificationReport := verifyVendor probe fetchPageContent today vendor in
  let c := classifyVendor verificationReport in
  generateSoftwareEntry vendor verificationReport c.

(** [runAcquisition()] without [verifyOnly]: the entries written to
    [new-vendors.json] (none, and no file, when no vendor is new). *)
Definition runAcquisition (existingVendors g2Vendors capterraVendors : list Vendor)
    : list SoftwareEntry :=
  let allDiscovered := g2Vendors ++ capterraVendors in
  let newVendors := fst (filterDiscovered existingVendors allDiscovered) in
  map processVendor newVendors.

End Platform.

(** A host-name reader for URLs of the shape [scheme://host], optionally
    followed by a port, a path, a query or a fragment, and without user
    information: on these it returns what the platform's parser returns.
    It serves the examples. *)
Definition hostEnd (c : ascii) : bool :=
  negb ((c =? "/")%char || (c =? ":")%char || (c =? "?")%char || (c =? "#")%char).

Fixpoint afterScheme (url : string) : option string :=
  match dropPrefix "://" url with
  | Some rest => Some rest
  | None =>
      match url with
      | EmptyString => None
      | String c t => if hostEnd c then afterScheme t else None
      end
  end.

Definition simpleHostname (url : string) : option string :=
  match afterScheme url with
  | Some rest =>
      let h := toLowerCase (takeWhile hostEnd rest) in
      if strTruthy h then Some h else None
  | None => None
  end.

End Acquire.

(** ** Notions the statements below are written with *)

Module ReviewsSpec.
Import Js Reviews.

(** A sum as [reduce] accumulates it: from the left, starting at [0], in
    double-precision arithmetic. *)
Definition jsSum (l : list float) : float := fold_left PrimFloat.add l 0%float.

(** The sum of score times count over the sources; a score that is [NaN]
    counts as [0], as [s.score || 0] has it. *)
Definition weightedSum (l : list ReviewSource) : float :=
  jsSum (map (fun s => (orZero (score s) * count s)%float) l).

(** The count-weighted mean, rounded to one decimal place. *)
Definition roundedMean (l : list ReviewSource) : float :=
  (Math_round ((weightedSum l / jsSum (map count l)) * 10) / 10)%float.

(** The pairs of vendor and source that a loop over a raw dump pushes, in
    the order of the dump. *)
Definition emitted (process : RawItem -> option (string * ReviewSource))
    (raw : option (list RawItem)) : list (string * ReviewSource) :=
  match raw with
  | Some items =>
      flat_map (fun item => match process item with Some e => [e] | None => [] end) items
  | None => []
  end.

Definition sourcesFor (slug : string) (es : list (string * ReviewSource))
    : list ReviewSource :=
  map snd (filter (fun e => slug =? fst e) es).

(** An entry of [result] after more sources were pushed onto it. *)
Definition addSources (data : AggregatedReview) (l : list ReviewSource)
    : AggregatedReview :=
  {| aggregateScore := aggregateScore data;
     totalCount := totalCount data;
     sources := sources data ++ l;
     lastAggregated := lastAggregated data |}.

Section Run.
Variable mappings : Mappings.
Variable previous : Snapshot.
Variable today : string.
Variables g2Raw capterraRaw : option (list RawItem).

(** The sources pushed for a vendor during a run: the G2 ones, then the
    Capterra ones. *)
Definition collected (slug : string) : list ReviewSource :=
  sourcesFor slug (emitted (processG2 mappings previous today) g2Raw)
  ++ sourcesFor slug (emitted (processCapterra mappings previous today) capterraRaw).

(** The record of a vendor in the output of a run. *)
Definition vendorRecord (slug : string) : AggregatedReview :=
  finalize previous today slug
    {| aggregateScore := None;
       totalCount := 0%float;
       sources := collected slug;
       lastAggregated := lastAggregated (initEntry previous today slug) |}.
End Run.

(** A source built by [makeSource] for a vendor, from a count that passed
    the guard. *)
Definition made (previous : Snapshot) (today slug : string) (src : ReviewSource) : Prop :=
  exists name sc ct u,
    src = makeSource previous today slug name sc ct u /\ (0 <? ct)%float = true.

(** The sources of the previous output for a vendor, none when it has no
    record. *)
Definition previousSources (previous : Snapshot) (slug : string) : list ReviewSource :=
  match lookup previous slug with
  | Some p => sources p
  | None => []
  end.

(** The date a vendor's record carries over: the previous
    [lastAggregated], when there is a previous record and it has one. *)
Definition carriedDate (previous : Snapshot) (today slug : string) : string :=
  match lookup previous slug with
  | Some p => orStr (lastAggregated p) today
  | None => today
  end.

(** A source was added, a source was removed, or the score or the count
    of a source differs, each source name standing for its last entry in
    the list. *)
Definition sourcesDiffer (prevSources currSources : list ReviewSource) : Prop :=
  exists name,
    (bySource prevSources name = None /\ bySource currSources name <> None)
    \/ (bySource prevSources name <> None /\ bySource currSources name = None)
    \/ (exists p c,
          bySource prevSources name = Some p
          /\ bySource currSources name = Some c
          /\ (strictEq (score p) (score c) = false
              \/ strictEq (count p) (count c) = false)).

(** The vendor a raw item resolves to, whatever its numbers are. *)
Definition resolve (mappings : Mappings) (p : Platform) (item : RawItem) : option string :=
  let url :=
    match p with
    | G2 => orStr (optStr (item_productUrl item)) (orStr (optStr (item_url item)) "")
    | Capterra => orStr (optStr (item_url item)) (orStr (optStr (item_productUrl item)) "")
    end in
  match (match p with G2 => extractG2Slug url | Capterra => extractCapterraSlug url end) with
  | Some platformSlug =>
      match mapToVendorSlug platformSlug p mappings with
      | Some vendorSlug => if strTruthy vendorSlug then Some vendorSlug else None
      | None => None
      end
  | None => None
  end.

(** The items of a dump that resolve to a vendor, in the order of the
    dump. *)
Definition itemsOf (mappings : Mappings) (p : Platform) (slug : string)
    (raw : option (list RawItem)) : list RawItem :=
  match raw with
  | Some items =>
      filter (fun item =>
                match resolve mappings p item with
                | Some v => slug =? v
                | None => false
                end) items
  | None => []
  end.

End ReviewsSpec.

(** ** Concrete runs the statements are tried on *)

Module Scenarios.
Import Js Reviews ReviewsSpec.
#[local] Open Scope float_scope.

Definition g2Url : string := "https://www.g2.com/products/osmind/reviews".
Definition capterraUrl : string := "https://www.capterra.com/p/12345/Osmind/".

(** One vendor, mapped on both platforms. *)
Definition osmindMappings : Mappings :=
  [("osmind",
    {| g2 := Some {| pm_slug := "osmind"; pm_url := g2Url |};
       capterra := Some {| pm_slug := "osmind"; pm_url := "" |} |})].

(** Two vendors; the second has no mapping on either platform. *)
Definition twoMappings : Mappings :=
  osmindMappings ++ [("valant", {| g2 := None; capterra := None |})].

Definition g2Item (rating reviewCount : float) : RawItem :=
  {| item_productUrl := Some g2Url;
     item_url := None;
     item_rating := JNumber rating;
     item_overallRating := JUndefined;
     item_reviewCount := JNumber reviewCount;
     item_totalReviews := JUndefined |}.

Definition capterraItem (overallRating reviewCount : float) : RawItem :=
  {| item_productUrl := None;
     item_url := Some capterraUrl;
     item_rating := JUndefined;
     item_overallRating := JNumber overallRating;
     item_reviewCount := JNumber reviewCount;
     item_totalReviews := JUndefined |}.

Definition day1 : string := "2026-01-24".
Definition day2 : string := "2026-01-31".

(** The end-to-end scenario of the specification: no previous output, one
    record from each platform, counts 10 and 20, scores 4.0 and 4.5. *)
Definition endToEnd : Snapshot :=
  aggregate osmindMappings [] day1 (Some [g2Item 4.0 10]) (Some [capterraItem 4.5 20]).

(** Three records for one vendor: one from Capterra, two from G2. *)
Definition threeSources : Snapshot :=
  aggregate osmindMappings [] day1
            (Some [g2Item 3.4 3; g2Item 4.6 3]) (Some [capterraItem 3.0 2]).

(** The same records, the two G2 ones in the other order. *)
Definition threeSourcesSwapped : Snapshot :=
  aggregate osmindMappings [] day1
            (Some [g2Item 4.6 3; g2Item 3.4 3]) (Some [capterraItem 3.0 2]).

(** One G2 record with a rating that is finite and whose tenfold is not. *)
Definition hugeRating : Snapshot :=
  aggregate osmindMappings [] day1 (Some [g2Item 1e308 10]) None.

Definition recordOf (out : Snapshot) (slug : string) : AggregatedReview :=
  match lookup out slug with
  | Some r => r
  | None => {| aggregateScore := None; totalCount := 0; sources := []; lastAggregated := "" |}
  end.

(** Two G2 records for the same product, with different counts. *)
Definition duplicateDump : option (list RawItem) := Some [g2Item 4.5 10; g2Item 4.5 12].

Definition firstRun : Snapshot := aggregate osmindMappings [] day1 duplicateDump None.

(** The second run: same dump, the first run's output as the previous
    snapshot, a later date. *)
Definition secondRun : Snapshot := aggregate osmindMappings firstRun day2 duplicateDump None.

(** A later run over the output of [endToEnd]: the Capterra count went
    from 20 to 25, the G2 record is the same. *)
Definition changedRun : Snapshot :=
  aggregate osmindMappings endToEnd day2 (Some [g2Item 4.0 10]) (Some [capterraItem 4.5 25]).

(** A first run over two vendors, the second of which has no review. *)
Definition firstRunTwoVendors : Snapshot :=
  aggregate twoMappings [] day1 (Some [g2Item 4.0 10]) (Some [capterraItem 4.5 20]).

(** A G2 record with a negative rating. *)
Definition negativeItem : RawItem := g2Item (-1) 10.

(** A run after [firstRun], on a dump in which the count of the first of
    the two G2 records went from 10 to 11. *)
Definition countChangedRun : Snapshot :=
  aggregate osmindMappings firstRun day2 (Some [g2Item 4.5 11; g2Item 4.5 12]) None.

(** Two runs on the same dumps, a week apart: two G2 records and one
    Capterra record for the vendor. *)
Definition firstRunBoth : Snapshot :=
  aggregate osmindMappings [] day1 duplicateDump (Some [capterraItem 4.5 20]).

Definition secondRunBoth : Snapshot :=
  aggregate osmindMappings firstRunBoth day2 duplicateDump (Some [capterraItem 4.5 20]).

End Scenarios.

Module ClassifySpec.
Import Js Verify Classify.

(** The keyword counts of a report; an absent evidence counts as none. *)
Definition ketamineCount (r : VerificationReport) : Z :=
  match ketamine_evidence r with Some e => count e | None => 0%Z end.

Definition psychiatryCount (r : VerificationReport) : Z :=
  match psychiatry_evidence r with Some e => count e | None => 0%Z end.

(** The strong-signal keywords. *)
Definition strongSignals : list string := ["ketamine"; "spravato"; "esketamine"].

(** At least one match of a strong-signal keyword. *)
Definition hasStrongSignal (r : VerificationReport) : bool :=
  existsb (fun m => existsb (String.eqb (keyword m)) strongSignals)
          (matchesOrEmpty (ketamine_evidence r)).

(** A decision rule: when it applies, and the category and confidence it
    yields. *)
Record Rule := mkRule {
  applies : VerificationReport -> bool;
  category : Category;
  confidenceFor : VerificationReport -> Confidence
}.

(** The ordered list of rules of the specification. *)
Definition decisionRules : list Rule :=
  [ {| applies := fun r => negb (website_live r);
       category := unknown;
       confidenceFor := fun _ => low |};
    {| applies := fun r => (5 <=? ketamineCount r)%Z && hasStrongSignal r;
       category := ketamine_specific;
       confidenceFor := fun _ => high |};
    {| applies := fun r => (1 <=? ketamineCount r)%Z || (3 <=? psychiatryCount r)%Z;
       category := ketamine_compatible;
       confidenceFor := fun r => if (0 <? ketamineCount r)%Z then medium else low |};
    {| applies := fun _ => true;
       category := general_ehr;
       confidenceFor := fun _ => high |} ].

(** The result of the first rule that applies. *)
Definition firstMatch (r : VerificationReport) : option (Category * Confidence) :=
  match find (fun rule => applies rule r) decisionRules with
  | Some rule => Some (category rule, confidenceFor rule r)
  | None => None
  end.

(** A report with the given liveness, counts and ketamine matches. *)
Definition reportWith (live : bool) (ketamine psychiatry : Z) (ms : list KeywordMatch)
    : VerificationReport :=
  {| vendor := None;
     name := "";
     website_live := live;
     website_error := None;
     pages_checked := [];
     ketamine_evidence := Some {| count := ketamine; matches := ms |};
     psychiatry_evidence := Some {| count := psychiatry; matches := [] |};
     verification_date := "";
     status := needs_review |}.

End ClassifySpec.

Module AcquireSpec.
Import Js Verify Classify Acquire.

Section Platform.
Variable hostname : string -> option string.

(** The two identity signals between a candidate and a known vendor. *)
Definition nameMatches (c e : Vendor) : Prop :=
  normalizeName (v_name e) = normalizeName (v_name c).

Definition domainMatches (c e : Vendor) : Prop :=
  exists d,
    extractDomain hostname (v_website c) = Some d
    /\ extractDomain hostname (v_website e) = Some d
    /\ d <> "".

Definition duplicates (c e : Vendor) : Prop := nameMatches c e \/ domainMatches c e.

(** The two tests of the loop of [vendorExists], for a candidate [c] and
    a vendor [e] of the list. *)
Definition nameCheck (c e : Vendor) : bool :=
  normalizeName (v_name e) =? normalizeName (v_name c).

Definition domainCheck (c e : Vendor) : bool :=
  match extractDomain hostname (v_website c), extractDomain hostname (v_website e) with
  | Some d, Some d' => strTruthy d && strTruthy d' && (d =? d')
  | _, _ => false
  end.

(** [e] is the first vendor of [l] that the candidate duplicates, with the
    reason recorded for it: the name is tried before the domain. *)
Definition firstDuplicate (c : Vendor) (l : list Vendor) (reason : MatchReason)
    (slug : option string) : Prop :=
  exists l1 e l2,
    l = l1 ++ e :: l2
    /\ (forall x, In x l1 -> ~ duplicates c x)
    /\ slug = v_slug e
    /\ ((reason = name_match /\ nameMatches c e)
        \/ (reason = domain_match /\ ~ nameMatches c e /\ domainMatches c e)).

End Platform.

(** The examples of the specification. *)
Definition acme : Vendor :=
  {| v_name := "acme health"; v_website := "https://acme.io";
     v_slug := Some "acme-health"; v_description := ""; v_source := "" |}.

Definition candidate (name website : string) : Vendor :=
  {| v_name := name; v_website := website;
     v_slug := None; v_description := ""; v_source := "" |}.

(** A site that answers, and whose home page mentions Spravato. *)
Definition liveProbe (url : string) : FetchOutcome := Response 200.

Definition spravatoPages (website pagePath : string) : option string :=
  if pagePath =? "" then Some "spravato rems support for your clinic" else None.

(** A site that answers and has no text on any page. *)
Definition emptyPages (website pagePath : string) : option string := None.

End AcquireSpec.


(** ** Notions for the further properties *)

Module Text.
Import Js.

(** Every character of a string passes a test. *)
Fixpoint allChars (f : ascii -> bool) (s : string) : bool :=
  match s with
  | EmptyString => true
  | String c t => f c && allChars f t
  end.

(** A character that [toLowerCase] leaves alone. *)
Definition notUpper (c : ascii) : bool := negb (isUpper c).

(** A character of the ASCII range. *)
Definition isAscii (c : ascii) : bool := (nat_of_ascii c <? 128)%nat.

(** A text of ASCII characters. *)
Definition asciiText (s : string) : bool := allChars isAscii s.

(** A string without its first [n] characters. *)
Fixpoint dropChars (n : nat) (s : string) : string :=
  match n, s with
  | O, _ => s
  | S j, String _ t => dropChars j t
  | S _, EmptyString => EmptyString
  end.

(** The last character of a string, if it has one. *)
Fixpoint lastChar (s : string) : option ascii :=
  match s with
  | EmptyString => None
  | String c EmptyString => Some c
  | String _ t => lastChar t
  end.

End Text.

Module ReviewsMore.
Import Js Reviews ReviewsSpec.

(** The score and count of a raw item as a loop reads them, when they pass
    the guard. *)
Definition itemNumbers (p : Platform) (item : RawItem) : option (float * float) :=
  let count :=
    coalesce (coalesce (item_reviewCount item) (item_totalReviews item)) (JNumber 0) in
  match p with
  | G2 => accepted (coalesce (item_rating item) (item_overallRating item)) count
  | Capterra => accepted (coalesce (item_overallRating item) (item_rating item)) count
  end.

(** What the two loops read of a raw item: its URL
    ([item?.productUrl || item?.url || ''] for G2, the other way round for
    Capterra), its rating ([item?.rating ?? item?.overallRating] for G2,
    the other way round for Capterra) and its count
    ([item?.reviewCount ?? item?.totalReviews ?? 0]). *)
Definition itemUrl (p : Platform) (item : RawItem) : string :=
  match p with
  | G2 => orStr (optStr (item_productUrl item)) (orStr (optStr (item_url item)) "")
  | Capterra => orStr (optStr (item_url item)) (orStr (optStr (item_productUrl item)) "")
  end.

Definition ratingOf (p : Platform) (item : RawItem) : JsValue :=
  match p with
  | G2 => coalesce (item_rating item) (item_overallRating item)
  | Capterra => coalesce (item_overallRating item) (item_rating item)
  end.

Definition countOf (item : RawItem) : JsValue :=
  coalesce (coalesce (item_reviewCount item) (item_totalReviews item)) (JNumber 0).

Definition platformName (p : Platform) : string :=
  match p with G2 => "g2" | Capterra => "capterra" end.

(** The dump of a platform. *)
Definition dumpOf (p : Platform) (g2Raw capterraRaw : option (list RawItem))
    : option (list RawItem) :=
  match p with G2 => g2Raw | Capterra => capterraRaw end.

(** The review URL of a source when the mappings give none. *)
Definition fallbackUrl (p : Platform) (item : RawItem) (found : string) : Prop :=
  match p with
  | G2 =>
      exists g2Slug,
        extractG2Slug (itemUrl G2 item) = Some g2Slug
        /\ found = ("https://www.g2.com/products/" ++ g2Slug ++ "/reviews")%string
  | Capterra => found = itemUrl Capterra item
  end.

(** The items of a dump that resolve to a vendor and pass the guard. *)
Definition keptItems (mappings : Mappings) (p : Platform) (slug : string)
    (raw : option (list RawItem)) : list RawItem :=
  filter (fun item => match itemNumbers p item with Some _ => true | None => false end)
         (itemsOf mappings p slug raw).

(** [x >= 0] on a number: it fails for [NaN]. *)
Definition nonNegative (x : float) : bool := (0 <=? x)%float.

(** The same on the decoded form of a number: a zero, a positive finite
    value or plus infinity. *)
Definition nonNegativeSF (x : spec_float) : bool :=
  match x with
  | S754_zero _ => true
  | S754_infinity s => negb s
  | S754_finite s _ _ => negb s
  | S754_nan => false
  end.

(** A positive finite value or plus infinity. *)
Definition positiveSF (x : spec_float) : bool :=
  match x with
  | S754_infinity s => negb s
  | S754_finite s _ _ => negb s
  | _ => false
  end.

End ReviewsMore.

Module VerifyMore.
Import Js Verify.

(** The sum of the counts of a list of matches. *)
Definition totalMatches (ms : list KeywordMatch) : Z :=
  fold_right Z.add 0%Z (map match_count ms).

(** The number of matches of a keyword in a text. *)
Definition occurrences (content keyword : string) : Z :=
  Z.of_nat (countMatches keyword 0 content).

(** The keyword occurs in the text. *)
Definition mentions (content keyword : string) : bool :=
  (0 <? occurrences content keyword)%Z.

(** The matches of the keywords that occur in a text, in the order of
    the keywords. *)
Definition foundMatches (content : string) (ks : list string) : list KeywordMatch :=
  map (fun k => {| keyword := k; match_count := occurrences content k |})
      (filter (mentions content) ks).

(** The characters with a meaning of their own in a regular expression,
    and a keyword that [new RegExp(keyword, 'gi')] reads as plain text: a
    keyword that is not empty, of ASCII characters, none of which is one
    of them. *)
Definition regexOperator (c : ascii) : bool :=
  existsb (Ascii.eqb c)
          ["\"; "^"; "$"; "."; "|"; "?"; "*"; "+"; "("; ")"; "["; "]"; "{"; "}"]%char.

Definition plainKeyword (k : string) : bool :=
  strTruthy k
  && Text.allChars (fun c => Text.isAscii c && negb (regexOperator c)) k.

(** The keyword is a substring of the text, letter case apart. *)
Definition occursIn (content keyword : string) : bool :=
  includes (toLowerCase content) (toLowerCase keyword).

(** The text starts with the keyword, letter case apart. *)
Definition startsWith (content keyword : string) : bool :=
  prefix (toLowerCase keyword) (toLowerCase content).

(** [disjointOccurrences k content n]: the text has [n] occurrences of the
    keyword, letter case apart, no two of which overlap.  Going through
    the text from the left, a character is passed, or an occurrence that
    starts here is taken and the text goes on after it. *)
Inductive disjointOccurrences (k : string) : string -> nat -> Prop :=
| occ_none (content : string) : disjointOccurrences k content 0
| occ_pass (c : ascii) (content : string) (n : nat) :
    disjointOccurrences k content n ->
    disjointOccurrences k (String c content) n
| occ_take (content : string) (n : nat) :
    startsWith content k = true ->
    disjointOccurrences k (Text.dropChars (String.length k) content) n ->
    disjointOccurrences k content (S n).

(** A page of a site that [fetchPageContent] reads some text from, and
    that text. *)
Definition readable (fetchPageContent : string -> string -> option string)
    (website pagePath : string) : bool :=
  match fetchPageContent website pagePath with
  | Some content => strTruthy content
  | None => false
  end.

Definition pageText (fetchPageContent : string -> string -> option string)
    (website pagePath : string) : string :=
  match fetchPageContent website pagePath with
  | Some content => content
  | None => ""
  end.

End VerifyMore.

Module ValidateMore.
Import Js Reviews Validate.

(** The errors that depend on the ratings and the dates a run is given. *)
Definition aboutRatingOrDate (p : Problem) : bool :=
  match p with
  | AggregateNotNumber | AggregateOutOfRange | SourceScoreInvalid _
  | SourceDateInvalid _ | LastAggregatedInvalid => true
  | _ => false
  end.

Definition aboutRating (p : Problem) : bool :=
  match p with
  | AggregateNotNumber | AggregateOutOfRange | SourceScoreInvalid _ => true
  | _ => false
  end.

(** A source with a valid name, a positive finite count and a URL. *)
Definition wellFormed (s : ReviewSource) : Prop :=
  validSource (source s) = true
  /\ (0 <? count s)%float = true
  /\ Number_isFinite (count s) = true
  /\ url s <> "".

(** A zero or a finite value. *)
Definition finiteSF (x : spec_float) : bool :=
  match x with
  | S754_zero _ | S754_finite _ _ _ => true
  | _ => false
  end.

(** The dates of a record are all in the [YYYY-MM-DD] format. *)
Definition isoDated (r : AggregatedReview) : Prop :=
  isIsoDate (lastAggregated r) = true
  /\ Forall (fun s => isIsoDate (lastUpdated s) = true) (sources r).

End ValidateMore.

Module AcquireMore.
Import Js Verify Classify Acquire.

(** The characters of a slug: lower-case letters, digits and the dash. *)
Definition isSlugChar (c : ascii) : bool := isAlnumLower c || (c =? "-")%char.

(** No dash follows a dash; [prevDash] tells that a dash stands right
    before the string. *)
Fixpoint noDoubleDash (prevDash : bool) (s : string) : bool :=
  match s with
  | EmptyString => true
  | String c t =>
      if (c =? "-")%char then negb prevDash && noDoubleDash true t
      else noDoubleDash false t
  end.

(** The number of discovered vendors that come without a website. *)
Definition withoutWebsite (l : list Vendor) : list Vendor :=
  filter (fun v => negb (strTruthy (v_website v))) l.

Definition isNoWebsiteLine (line : LogLine) : bool :=
  match line with SkippingNoWebsite _ => true | _ => false end.

End AcquireMore.
(** * Properties *)

(** ** Double-precision arithmetic *)

Section NumberFacts.
Import Js.
#[local] Open Scope float_scope.

Lemma Math_round_half_up :
  map Math_round [2.5; -2.5; 43.499999999999996; 0.49999999999999994; 41.5; -0.3]
  = [3; -2; 43; 0; 42; -0].
Proof. vm_compute. reflexivity. Qed.

(** Two numbers that [===] tells apart are different values. *)
Lemma float_neq (x y : float) : (x =? y) = false -> (y =? y) = true -> x <> y.
Proof. intros H1 H2 E. subst x. congruence. Qed.

Lemma Some_float_neq (x y : float) :
  (x =? y) = false -> (y =? y) = true -> Some x <> Some y.
Proof.
  intros H1 H2 E. apply (float_neq x y H1 H2).
  exact (f_equal (fun o => match o with Some z => z | None => x end) E).
Qed.

Lemma SFadd_comm (x y : spec_float) : SF64add x y = SF64add y x.
Proof.
  unfold SF64add, SFadd.
  destruct x as [sx|sx| |sx mx ex], y as [sy|sy| |sy my ey];
    try reflexivity; try (destruct sx, sy; reflexivity).
  rewrite (Z.min_comm ex ey). f_equal. apply Z.add_comm.
Qed.

Lemma float_add_comm (x y : float) : x + y = y + x.
Proof. apply Prim2SF_inj. rewrite !FloatAxioms.add_spec. apply SFadd_comm. Qed.

Lemma SFadd_zero_swap (x y : spec_float) :
  SF64add (SF64add (S754_zero false) x) y = SF64add (SF64add (S754_zero false) y) x.
Proof.
  destruct x as [sx|sx| |sx mx ex], y as [sy|sy| |sy my ey];
    try reflexivity;
    try (destruct sx; reflexivity); try (destruct sy; reflexivity);
    try (destruct sx, sy; reflexivity).
  change (SF64add (S754_zero false) (S754_finite sx mx ex)) with (S754_finite sx mx ex).
  change (SF64add (S754_zero false) (S754_finite sy my ey)) with (S754_finite sy my ey).
  apply SFadd_comm.
Qed.

(** A [reduce] that starts at [0] gives the same sum over two values in
    either order. *)
Lemma zero_add_swap (x y : float) : (0 + x) + y = (0 + y) + x.
Proof.
  apply Prim2SF_inj. rewrite !FloatAxioms.add_spec.
  change (Prim2SF 0) with (S754_zero false). apply SFadd_zero_swap.
Qed.

(** [c > 0] makes [c || 0] the value [c] itself. *)
Lemma orZero_positive (c : float) : (0 <? c) = true -> orZero c = c.
Proof.
  unfold orZero, truthy, isNaN. rewrite !FloatAxioms.eqb_spec, FloatAxioms.ltb_spec.
  change (Prim2SF 0) with (S754_zero false).
  destruct (Prim2SF c) as [s|s| |s m e]; try destruct s; try discriminate;
    unfold SFeqb, SFltb, SFcompare; intros _.
  - reflexivity.
  - now rewrite Z.compare_refl, Pos.compare_cont_refl.
Qed.

Lemma strictEq_zero : strictEq 0 0 = true.
Proof. reflexivity. Qed.

End NumberFacts.

(** ** The shape of the aggregator's output *)

Section AggregateShape.
Import Js Reviews ReviewsSpec.

Lemma addSources_nil (data : AggregatedReview) : addSources data [] = data.
Proof. destruct data. unfold addSources. simpl. now rewrite app_nil_r. Qed.

Lemma addSources_app (data : AggregatedReview) (l1 l2 : list ReviewSource) :
  addSources (addSources data l1) l2 = addSources data (l1 ++ l2).
Proof. unfold addSources. simpl. now rewrite app_assoc. Qed.

Lemma sourcesFor_cons (slug : string) (e : string * ReviewSource) es :
  sourcesFor slug (e :: es)
  = if slug =? fst e then snd e :: sourcesFor slug es else sourcesFor slug es.
Proof. unfold sourcesFor. simpl. now destruct (slug =? fst e). Qed.

Lemma pushSource_addSources (result : Snapshot) (v : string) (src : ReviewSource) :
  pushSource result v src
  = map (fun '(slug, data) => (slug, addSources data (sourcesFor slug [(v, src)]))) result.
Proof.
  unfold pushSource. apply map_ext. intros [slug data].
  rewrite sourcesFor_cons. simpl. destruct (slug =? v).
  - reflexivity.
  - now rewrite addSources_nil.
Qed.

(** A loop over a dump appends to every entry the sources the dump gives
    for its vendor, in the order of the dump. *)
Lemma processDump_spec process (raw : option (list RawItem)) (result : Snapshot) :
  processDump process raw result
  = map (fun '(slug, data) =>
           (slug, addSources data (sourcesFor slug (emitted process raw)))) result.
Proof.
  destruct raw as [items|]; simpl.
  - revert result. induction items as [|item items IH]; intros result; simpl.
    + rewrite <- (map_id result) at 1. apply map_ext. intros [slug data].
      now rewrite addSources_nil.
    + rewrite IH. destruct (process item) as [[v src]|]; simpl.
      * rewrite pushSource_addSources, map_map. apply map_ext. intros [slug data].
        rewrite addSources_app. do 2 f_equal.
        rewrite !sourcesFor_cons. simpl. now destruct (slug =? v).
      * reflexivity.
  - rewrite <- (map_id result) at 1. apply map_ext. intros [slug data].
    now rewrite addSources_nil.
Qed.

Variable mappings : Mappings.
Variable previous : Snapshot.
Variable today : string.
Variables g2Raw capterraRaw : option (list RawItem).

(** The output has one record per mapped vendor, in the order of the
    mappings, and the record of a vendor is made from its own sources. *)
Lemma aggregate_spec :
  aggregate mappings previous today g2Raw capterraRaw
  = map (fun '(slug, _) =>
           (slug, vendorRecord mappings previous today g2Raw capterraRaw slug))
        mappings.
Proof.
  unfold aggregate. rewrite !processDump_spec. unfold initResult.
  rewrite !map_map. apply map_ext. intros [slug m].
  rewrite addSources_app. reflexivity.
Qed.


Lemma aggregate_In (slug : string) (rec : AggregatedReview) :
  In (slug, rec) (aggregate mappings previous today g2Raw capterraRaw) ->
  rec = vendorRecord mappings previous today g2Raw capterraRaw slug.
Proof.
  rewrite aggregate_spec. intros H. apply in_map_iff in H.
  destruct H as [[s m] [E _]]. now inversion E.
Qed.

Lemma aggregate_lookup (slug : string) :
  lookup (aggregate mappings previous today g2Raw capterraRaw) slug
  = match lookup mappings slug with
    | Some _ => Some (vendorRecord mappings previous today g2Raw capterraRaw slug)
    | None => None
    end.
Proof.
  rewrite aggregate_spec.
  generalize (vendorRecord mappings previous today g2Raw capterraRaw) as f.
  intros f. induction mappings as [|[s m] ms IH]; simpl.
  - reflexivity.
  - destruct (s =? slug) eqn:E.
    + apply String.eqb_eq in E. now subst.
    + apply IH.
Qed.

End AggregateShape.

(** ** What the aggregator emits *)

Section Emitted.
Import Js Reviews ReviewsSpec.

Variable mappings : Mappings.
Variable previous : Snapshot.
Variable today : string.

Lemma accepted_inv (score count : JsValue) (sc ct : float) :
  accepted score count = Some (sc, ct) ->
  score = JNumber sc /\ count = JNumber ct
  /\ Number_isFinite sc = true /\ (0 <? ct)%float = true.
Proof.
  unfold accepted. destruct score; try discriminate. destruct count; try discriminate.
  destruct (Number_isFinite x) eqn:F; simpl; try discriminate.
  destruct (0 <? x0)%float eqn:P; try discriminate.
  intros H. inversion H. subst. auto.
Qed.

Lemma processG2_inv (item : RawItem) (v : string) (src : ReviewSource) :
  processG2 mappings previous today item = Some (v, src) ->
  made previous today v src /\ source src = "g2" /\ resolve mappings G2 item = Some v.
Proof.
  unfold processG2, resolve.
  destruct (extractG2Slug _) as [g2Slug|]; try discriminate.
  destruct (mapToVendorSlug g2Slug G2 mappings) as [vendorSlug|]; try discriminate.
  destruct (strTruthy vendorSlug); simpl; try discriminate.
  destruct (accepted _ _) as [[sc ct]|] eqn:A; try discriminate.
  intros H. inversion H. subst. apply accepted_inv in A.
  destruct A as (_ & _ & _ & P). repeat split; trivial.
  now eexists _, _, _, _.
Qed.

Lemma processCapterra_inv (item : RawItem) (v : string) (src : ReviewSource) :
  processCapterra mappings previous today item = Some (v, src) ->
  made previous today v src /\ source src = "capterra" /\ resolve mappings Capterra item = Some v.
Proof.
  unfold processCapterra, resolve.
  destruct (extractCapterraSlug _) as [capterraSlug|]; try discriminate.
  destruct (mapToVendorSlug capterraSlug Capterra mappings) as [vendorSlug|];
    try discriminate.
  destruct (strTruthy vendorSlug); simpl; try discriminate.
  destruct (accepted _ _) as [[sc ct]|] eqn:A; try discriminate.
  intros H. inversion H. subst. apply accepted_inv in A.
  destruct A as (_ & _ & _ & P). repeat split; trivial.
  now eexists _, _, _, _.
Qed.

Lemma emitted_In process (raw : option (list RawItem)) (e : string * ReviewSource) :
  In e (emitted process raw) ->
  exists items item, raw = Some items /\ In item items /\ process item = Some e.
Proof.
  destruct raw as [items|]; simpl; [|contradiction].
  intros H. apply in_flat_map in H. destruct H as [item [Hi He]].
  exists items, item. repeat split; trivial.
  destruct (process item) as [e'|]; simpl in He; [|contradiction].
  destruct He as [->|[]]. reflexivity.
Qed.

Lemma sourcesFor_In (slug : string) es (src : ReviewSource) :
  In src (sourcesFor slug es) <-> In (slug, src) es.
Proof.
  unfold sourcesFor. rewrite in_map_iff. split.
  - intros [[v s] [E H]]. simpl in E. subst s. apply filter_In in H.
    destruct H as [H Q]. simpl in Q. apply String.eqb_eq in Q. now subst.
  - intros H. exists (slug, src). split; trivial. apply filter_In. split; trivial.
    simpl. apply String.eqb_refl.
Qed.

Variables g2Raw capterraRaw : option (list RawItem).

Lemma collected_made (slug : string) (src : ReviewSource) :
  In src (collected mappings previous today g2Raw capterraRaw slug) -> made previous today slug src.
Proof.
  unfold collected. rewrite in_app_iff, !sourcesFor_In.
  intros [H|H]; apply emitted_In in H; destruct H as (items & item & _ & _ & H).
  - now apply processG2_inv in H.
  - now apply processCapterra_inv in H.
Qed.

Lemma insertSource_perm (x : ReviewSource) (l : list ReviewSource) :
  Permutation (insertSource x l) (x :: l).
Proof.
  induction l as [|y t IH]; simpl.
  - reflexivity.
  - destruct (sourceBefore y x).
    + rewrite IH. apply perm_swap.
    + reflexivity.
Qed.

(** Sorting keeps the sources and only reorders them. *)
Lemma sortSources_perm (l : list ReviewSource) : Permutation (sortSources l) l.
Proof.
  induction l as [|x t IH]; simpl.
  - reflexivity.
  - rewrite insertSource_perm. now apply perm_skip.
Qed.

Lemma vendorRecord_sources (slug : string) :
  sources (vendorRecord mappings previous today g2Raw capterraRaw slug)
  = sortSources (collected mappings previous today g2Raw capterraRaw slug).
Proof. reflexivity. Qed.

Lemma vendorRecord_made (slug : string) (src : ReviewSource) :
  In src (sources (vendorRecord mappings previous today g2Raw capterraRaw slug)) ->
  made previous today slug src.
Proof.
  rewrite vendorRecord_sources. intros H. apply collected_made.
  eapply Permutation_in; [apply sortSources_perm | exact H].
Qed.

Lemma vendorRecord_counts_positive (slug : string) :
  Forall (fun s => (0 <? count s)%float = true)
         (sources (vendorRecord mappings previous today g2Raw capterraRaw slug)).
Proof.
  apply Forall_forall. intros src H. apply vendorRecord_made in H.
  destruct H as (name & sc & ct & u & -> & P). exact P.
Qed.

End Emitted.

(** ** The aggregate of a list of sources *)

Section AggregateValue.
Import Js Reviews ReviewsSpec.
#[local] Open Scope float_scope.

Lemma fold_left_map_add {A : Type} (g : A -> float) (l : list A) (a : float) :
  fold_left (fun sum s => sum + g s) l a = fold_left PrimFloat.add (map g l) a.
Proof. revert a. induction l as [|x t IH]; intros a; simpl; [reflexivity | apply IH]. Qed.

Lemma fold_left_ext_Forall {A B : Type} (P : B -> Prop) (f g : A -> B -> A)
    (l : list B) (a : A) :
  Forall P l -> (forall a s, P s -> f a s = g a s) ->
  fold_left f l a = fold_left g l a.
Proof.
  intros H E. revert a. induction H as [|x t Px _ IH]; intros a; simpl.
  - reflexivity.
  - rewrite (E a x Px). apply IH.
Qed.

(** On sources with a positive count, [calculateAggregate] is the
    rounded mean, and [null] when the counts sum to [0]. *)
Lemma calculateAggregate_spec (l : list ReviewSource) :
  Forall (fun s => (0 <? count s) = true) l ->
  calculateAggregate l
  = if strictEq (jsSum (map count l)) 0 then None else Some (roundedMean l).
Proof.
  intros H. destruct l as [|x t]; [reflexivity|].
  unfold calculateAggregate, roundedMean, weightedSum, jsSum.
  set (l := x :: t) in *.
  rewrite (fold_left_ext_Forall _ (fun sum s => sum + orZero (count s))
             (fun sum s => sum + count s) l 0 H)
    by (intros a s P; now rewrite (orZero_positive _ P)).
  rewrite (fold_left_ext_Forall _
             (fun sum s => sum + orZero (score s) * orZero (count s))
             (fun sum s => sum + orZero (score s) * count s) l 0 H)
    by (intros a s P; now rewrite (orZero_positive _ P)).
  rewrite (fold_left_map_add count), (fold_left_map_add (fun s => orZero (score s) * count s)).
  reflexivity.
Qed.

(** Two sources give the same aggregate in either order. *)
Lemma calculateAggregate_swap (a b : ReviewSource) :
  calculateAggregate [a; b] = calculateAggregate [b; a].
Proof.
  unfold calculateAggregate. simpl.
  rewrite (zero_add_swap (orZero (count a)) (orZero (count b))).
  rewrite (zero_add_swap (orZero (score a) * orZero (count a))
                         (orZero (score b) * orZero (count b))).
  reflexivity.
Qed.

Lemma calculateAggregate_perm_short (l l' : list ReviewSource) :
  (List.length l <= 2)%nat -> Permutation l l' ->
  calculateAggregate l' = calculateAggregate l.
Proof.
  intros L P. destruct l as [|a [|b [|c t]]]; simpl in L; try lia.
  - apply Permutation_nil in P. now subst.
  - apply Permutation_length_1_inv in P. now subst.
  - apply Permutation_length_2_inv in P. destruct P as [->| ->].
    + reflexivity.
    + symmetry. apply calculateAggregate_swap.
Qed.

End AggregateValue.

(** ** Totals and aggregate score of a record (C1) *)

Section ReviewClaims.
Import Js Reviews ReviewsSpec.

(** The end-to-end scenario of the specification: [totalCount] 30,
    [aggregateScore] 4.3, two sources sorted by name, [lastAggregated] the
    run date. *)
Lemma endToEnd_record :
  Scenarios.endToEnd
  = [("osmind",
      {| aggregateScore := Some 4.3%float;
         totalCount := 30%float;
         sources :=
           [ {| source := "capterra"; score := 4.5%float; count := 20%float;
                url := Scenarios.capterraUrl; lastUpdated := Scenarios.day1 |};
             {| source := "g2"; score := 4%float; count := 10%float;
                url := Scenarios.g2Url; lastUpdated := Scenarios.day1 |} ];
         lastAggregated := Scenarios.day1 |})].
Proof. vm_compute. reflexivity. Qed.

(** A rating of 1e308 passes [Number.isFinite]; its rounded score is
    infinite, and so is the aggregate: the file has [null] for both, next
    to a [totalCount] of 10. *)
Lemma hugeRating_stored :
  let rec := Scenarios.recordOf Scenarios.hugeRating "osmind" in
  Scenarios.hugeRating = [("osmind", rec)]
  /\ map Validate.st_score (Validate.st_sources (Validate.store rec)) = [None]
  /\ Validate.st_aggregateScore (Validate.store rec) = None
  /\ Validate.st_totalCount (Validate.store rec) = Some 10%float.
Proof. cbv zeta. repeat split; vm_compute; reflexivity. Qed.

(** C1 fails on three sources.  Two G2 items and one Capterra item resolve
    to the same vendor, so its record has three sources (scores 3.0, 3.4
    and 4.6 with counts 2, 3 and 3: the weighted mean is 3.75).  With the
    G2 items in one order the file has [aggregateScore] 3.8; with the same
    two items in the other order the sources are the same up to their
    order and the file has 3.7.  The total is 8 both times. *)
Theorem C1_order_changes_score :
  let rec := Scenarios.recordOf Scenarios.threeSources "osmind" in
  let rec' := Scenarios.recordOf Scenarios.threeSourcesSwapped "osmind" in
  Scenarios.threeSources = [("osmind", rec)]
  /\ Scenarios.threeSourcesSwapped = [("osmind", rec')]
  /\ map (fun s => (source s, score s, count s)) (sources rec)
     = [("capterra", 3.0, 2); ("g2", 3.4, 3); ("g2", 4.6, 3)]%float
  /\ map (fun s => (source s, score s, count s)) (sources rec')
     = [("capterra", 3.0, 2); ("g2", 4.6, 3); ("g2", 3.4, 3)]%float
  /\ Permutation (sources rec) (sources rec')
  /\ Validate.st_totalCount (Validate.store rec) = Some 8%float
  /\ Validate.st_totalCount (Validate.store rec') = Some 8%float
  /\ Validate.st_aggregateScore (Validate.store rec) = Some 3.8%float
  /\ Validate.st_aggregateScore (Validate.store rec') = Some 3.7%float
  /\ aggregateScore rec' <> aggregateScore rec.
Proof.
  assert (A : aggregateScore (Scenarios.recordOf Scenarios.threeSources "osmind")
              = Some 3.8%float) by (vm_compute; reflexivity).
  assert (B : aggregateScore (Scenarios.recordOf Scenarios.threeSourcesSwapped "osmind")
              = Some 3.7%float) by (vm_compute; reflexivity).
  cbv zeta. repeat match goal with |- _ /\ _ => split end;
    try (vm_compute; reflexivity).
  - assert (S : exists a b c,
               sources (Scenarios.recordOf Scenarios.threeSources "osmind") = [a; b; c]
               /\ sources (Scenarios.recordOf Scenarios.threeSourcesSwapped "osmind")
                  = [a; c; b]).
    { eexists _, _, _. split; vm_compute; reflexivity. }
    destruct S as (a & b & c & -> & ->). apply perm_skip, perm_swap.
  - rewrite A, B. intros H.
    apply (float_neq 3.7 3.8); [reflexivity | reflexivity |].
    exact (f_equal (fun o => match o with Some x => x | None => 0%float end) H).
Qed.

(** ** Change detection (C3) *)

Section ChangeDetection.

Lemma bySource_Some (l : list ReviewSource) (name : string) (s : ReviewSource) :
  bySource l name = Some s -> In name (map source l).
Proof.
  unfold bySource. intros H. apply find_some in H. destruct H as [H E].
  apply String.eqb_eq in E. subst name. apply in_map. now apply in_rev.
Qed.

Lemma sourceChanged_iff (prevSources currSources : list ReviewSource) (name : string) :
  sourceChanged prevSources currSources name = true <->
  (bySource prevSources name = None /\ bySource currSources name <> None)
  \/ (bySource prevSources name <> None /\ bySource currSources name = None)
  \/ (exists p c,
        bySource prevSources name = Some p
        /\ bySource currSources name = Some c
        /\ (strictEq (score p) (score c) = false
            \/ strictEq (count p) (count c) = false)).
Proof.
  unfold sourceChanged.
  destruct (bySource prevSources name) as [p|], (bySource currSources name) as [c|].
  - rewrite orb_true_iff, !negb_true_iff. split.
    + intros H. right. right. now exists p, c.
    + intros [[H _]|[[_ H]|(p' & c' & Hp & Hc & H)]]; try discriminate.
      now inversion Hp; inversion Hc; subst.
  - split; [intros _; right; left; split; [discriminate | reflexivity]|reflexivity].
  - split; [intros _; left; split; [reflexivity | discriminate]|reflexivity].
  - split; [discriminate|].
    intros [[_ H]|[[H _]|(p' & c' & Hp & _)]]; try discriminate; now elim H.
Qed.

(** The loop over the union of the two key sets finds a change exactly
    when the two lists differ. *)
Lemma changed_iff (prevSources currSources : list ReviewSource) :
  changed prevSources currSources = true <-> sourcesDiffer prevSources currSources.
Proof.
  unfold changed, sourcesDiffer. rewrite existsb_exists. split.
  - intros (name & _ & H). exists name. now apply sourceChanged_iff.
  - intros (name & H). exists name. split; [|now apply sourceChanged_iff].
    unfold allSources. apply nodup_In, in_app_iff.
    destruct H as [[_ H]|[[H _]|(p & c & H & _)]].
    + right. destruct (bySource currSources name) as [c|] eqn:E; [|now elim H].
      eapply bySource_Some, E.
    + left. destruct (bySource prevSources name) as [p|] eqn:E; [|now elim H].
      eapply bySource_Some, E.
    + left. eapply bySource_Some, H.
Qed.

Lemma orStr_idem (a b : string) : orStr a (orStr a b) = orStr a b.
Proof. unfold orStr. now destruct (strTruthy a). Qed.

Variable mappings : Mappings.
Variable today : string.

Lemma vendorRecord_lastAggregated previous g2Raw capterraRaw (slug : string) :
  let rec := vendorRecord mappings previous today g2Raw capterraRaw slug in
  lastAggregated rec
  = if changed (previousSources previous slug) (sources rec) then today
    else carriedDate previous today slug.
Proof.
  unfold vendorRecord, finalize, previousSources, carriedDate, initEntry. simpl.
  destruct (lookup previous slug) as [p|]; simpl.
  - now rewrite orStr_idem.
  - reflexivity.
Qed.

(** The record of a vendor, field by field. *)
Lemma vendorRecord_fields previous g2Raw capterraRaw (slug : string) :
  let sorted := sortSources (collected mappings previous today g2Raw capterraRaw slug) in
  vendorRecord mappings previous today g2Raw capterraRaw slug
  = {| aggregateScore := calculateAggregate sorted;
       totalCount := fold_left (fun sum s => (sum + count s)%float) sorted 0%float;
       sources := sorted;
       lastAggregated :=
         if changed (previousSources previous slug) sorted then today
         else carriedDate previous today slug |}.
Proof.
  unfold vendorRecord, finalize, previousSources, carriedDate, initEntry. simpl.
  destruct (lookup previous slug) as [p|]; simpl.
  - now rewrite orStr_idem.
  - reflexivity.
Qed.

(** The sources pushed for a vendor come from the items that resolve to
    it, whatever else the dump holds. *)
Lemma sourcesFor_itemsOf (p : Platform) process (slug : string)
    (raw : option (list RawItem)) :
  (forall item v s, process item = Some (v, s) -> resolve mappings p item = Some v) ->
  sourcesFor slug (emitted process raw)
  = flat_map (fun item => match process item with Some (_, s) => [s] | None => [] end)
             (itemsOf mappings p slug raw).
Proof.
  intros R. destruct raw as [items|]; [|reflexivity]. simpl.
  induction items as [|item items IH]; simpl; [reflexivity|].
  unfold sourcesFor in *. rewrite filter_app, map_app, IH. clear IH.
  destruct (process item) as [[v s]|] eqn:E; simpl.
  - rewrite (R _ _ _ E). destruct (slug =? v); simpl; now rewrite ?E.
  - destruct (resolve mappings p item) as [v|]; [destruct (slug =? v)|]; simpl;
      now rewrite ?E.
Qed.

Lemma itemsOf_resolve (p : Platform) (slug : string) (raw : option (list RawItem))
    (item : RawItem) :
  In item (itemsOf mappings p slug raw) -> resolve mappings p item = Some slug.
Proof.
  destruct raw as [items|]; simpl; [|contradiction].
  intros H. apply filter_In in H. destruct H as [_ H].
  destruct (resolve mappings p item) as [v|]; [|discriminate].
  apply String.eqb_eq in H. now subst.
Qed.

Lemma makeSource_previous previous previous' (slug name : string) (sc ct : float)
    (u : string) :
  lookup previous' slug = lookup previous slug ->
  makeSource previous' today slug name sc ct u = makeSource previous today slug name sc ct u.
Proof. intros H. unfold makeSource, getPreviousSource. now rewrite H. Qed.

Lemma processG2_previous previous previous' (slug : string) (item : RawItem) :
  lookup previous' slug = lookup previous slug ->
  resolve mappings G2 item = Some slug ->
  processG2 mappings previous' today item = processG2 mappings previous today item.
Proof.
  intros H. unfold resolve, processG2.
  destruct (extractG2Slug _) as [g2Slug|]; [|reflexivity].
  destruct (mapToVendorSlug g2Slug G2 mappings) as [v|]; [|reflexivity].
  destruct (strTruthy v); simpl; [|reflexivity].
  intros E. inversion E. subst v.
  destruct (accepted _ _) as [[sc ct]|]; [|reflexivity].
  now rewrite (makeSource_previous previous previous' slug "g2" sc ct _ H).
Qed.

Lemma processCapterra_previous previous previous' (slug : string) (item : RawItem) :
  lookup previous' slug = lookup previous slug ->
  resolve mappings Capterra item = Some slug ->
  processCapterra mappings previous' today item = processCapterra mappings previous today item.
Proof.
  intros H. unfold resolve, processCapterra.
  destruct (extractCapterraSlug _) as [capterraSlug|]; [|reflexivity].
  destruct (mapToVendorSlug capterraSlug Capterra mappings) as [v|]; [|reflexivity].
  destruct (strTruthy v); simpl; [|reflexivity].
  intros E. inversion E. subst v.
  destruct (accepted _ _) as [[sc ct]|]; [|reflexivity].
  now rewrite (makeSource_previous previous previous' slug "capterra" sc ct _ H).
Qed.

Lemma flat_map_ext_In {A B : Type} (f g : A -> list B) (l : list A) :
  (forall x, In x l -> f x = g x) -> flat_map f l = flat_map g l.
Proof.
  induction l as [|x t IH]; intros H; simpl; [reflexivity|].
  rewrite (H x (or_introl eq_refl)), IH; [reflexivity|].
  intros y Hy. apply H. now right.
Qed.

(** The record of a vendor is made from its own previous record and from
    the items that resolve to it. *)
Lemma vendorRecord_frame previous previous' g2Raw g2Raw' capterraRaw capterraRaw'
    (slug : string) :
  lookup previous' slug = lookup previous slug ->
  itemsOf mappings G2 slug g2Raw' = itemsOf mappings G2 slug g2Raw ->
  itemsOf mappings Capterra slug capterraRaw' = itemsOf mappings Capterra slug capterraRaw ->
  vendorRecord mappings previous' today g2Raw' capterraRaw' slug
  = vendorRecord mappings previous today g2Raw capterraRaw slug.
Proof.
  intros H HG HC.
  assert (E : collected mappings previous' today g2Raw' capterraRaw' slug
              = collected mappings previous today g2Raw capterraRaw slug).
  { unfold collected.
    rewrite (sourcesFor_itemsOf G2 (processG2 mappings previous' today)),
            (sourcesFor_itemsOf G2 (processG2 mappings previous today))
      by (intros item v s Q; now apply processG2_inv in Q).
    rewrite (sourcesFor_itemsOf Capterra (processCapterra mappings previous' today)),
            (sourcesFor_itemsOf Capterra (processCapterra mappings previous today))
      by (intros item v s Q; now apply processCapterra_inv in Q).
    rewrite HG, HC. f_equal; apply flat_map_ext_In; intros item Hi;
      apply itemsOf_resolve in Hi.
    - now rewrite (processG2_previous previous previous' slug item H Hi).
    - now rewrite (processCapterra_previous previous previous' slug item H Hi). }
  unfold vendorRecord, finalize, initEntry. rewrite E, H. reflexivity.
Qed.

End ChangeDetection.

Lemma changedRun_record :
  Scenarios.changedRun
  = [("osmind",
      {| aggregateScore := Some 4.4%float;
         totalCount := 35%float;
         sources :=
           [ {| source := "capterra"; score := 4.5%float; count := 25%float;
                url := Scenarios.capterraUrl; lastUpdated := Scenarios.day2 |};
             {| source := "g2"; score := 4%float; count := 10%float;
                url := Scenarios.g2Url; lastUpdated := Scenarios.day1 |} ];
         lastAggregated := Scenarios.day2 |})].
Proof. vm_compute. reflexivity. Qed.

(** C3 fails when a vendor has two sources of one name.  The previous
    output has two [g2] sources with counts 10 and 12, and is read back
    from its file as it is; in the next dump the first count is 11.  The record of the run has the counts 11 and 12 and
    the total 23 instead of 22, both sources get the run date as
    [lastUpdated], and [lastAggregated] is still the date of the previous
    run: the two maps keyed by source name hold the last [g2] entry only,
    which did not change. *)
Theorem C3_change_not_detected :
  let prev := Scenarios.recordOf Scenarios.firstRun "osmind" in
  let rec := Scenarios.recordOf Scenarios.countChangedRun "osmind" in
  Scenarios.firstRun = [("osmind", prev)]
  /\ Stored.reread Scenarios.firstRun = Some Scenarios.firstRun
  /\ Scenarios.countChangedRun = [("osmind", rec)]
  /\ map (fun s => (source s, score s, count s)) (sources prev)
     = [("g2", 4.5, 10); ("g2", 4.5, 12)]%float
  /\ map (fun s => (source s, score s, count s)) (sources rec)
     = [("g2", 4.5, 11); ("g2", 4.5, 12)]%float
  /\ totalCount prev = 22%float
  /\ totalCount rec = 23%float
  /\ map lastUpdated (sources rec) = [Scenarios.day2; Scenarios.day2]
  /\ lastAggregated prev = Scenarios.day1
  /\ lastAggregated rec = Scenarios.day1
  /\ lastAggregated rec <> Scenarios.day2.
Proof.
  cbv zeta. repeat match goal with |- _ /\ _ => split end;
    try (vm_compute; reflexivity).
  assert (E : lastAggregated (Scenarios.recordOf Scenarios.countChangedRun "osmind")
              = Scenarios.day1) by (vm_compute; reflexivity).
  rewrite E. discriminate.
Qed.

(** ** Carrying [lastUpdated] forward (C4) *)

(** C4 fails when a vendor has two sources of one name.  Two runs a week
    apart read the same dumps: two G2 items (counts 10 and 12) and one
    Capterra item; the second run reads the output of the first from its
    file as it is.  In the second run every source has the score, the
    count and the URL it has in the previous output.  The Capterra source
    and the first [g2] source keep their [lastUpdated]; the second [g2]
    source gets the run date, because it is compared with the first [g2]
    entry of the previous output, which [find] returns. *)
Theorem C4_identical_entry_redated :
  let prev := Scenarios.recordOf Scenarios.firstRunBoth "osmind" in
  let rec := Scenarios.recordOf Scenarios.secondRunBoth "osmind" in
  Scenarios.firstRunBoth = [("osmind", prev)]
  /\ Stored.reread Scenarios.firstRunBoth = Some Scenarios.firstRunBoth
  /\ Scenarios.secondRunBoth = [("osmind", rec)]
  /\ map (fun s => (source s, score s, count s, url s)) (sources prev)
     = [("capterra", 4.5, 20, Scenarios.capterraUrl);
        ("g2", 4.5, 10, Scenarios.g2Url);
        ("g2", 4.5, 12, Scenarios.g2Url)]%float
  /\ map (fun s => (source s, score s, count s, url s)) (sources rec)
     = map (fun s => (source s, score s, count s, url s)) (sources prev)
  /\ map lastUpdated (sources prev)
     = [Scenarios.day1; Scenarios.day1; Scenarios.day1]
  /\ map lastUpdated (sources rec)
     = [Scenarios.day1; Scenarios.day1; Scenarios.day2]
  /\ map lastUpdated (sources rec) <> map lastUpdated (sources prev).
Proof.
  cbv zeta. repeat match goal with |- _ /\ _ => split end;
    try (vm_compute; reflexivity).
  assert (A : map lastUpdated (sources (Scenarios.recordOf Scenarios.firstRunBoth "osmind"))
              = [Scenarios.day1; Scenarios.day1; Scenarios.day1])
    by (vm_compute; reflexivity).
  assert (B : map lastUpdated (sources (Scenarios.recordOf Scenarios.secondRunBoth "osmind"))
              = [Scenarios.day1; Scenarios.day1; Scenarios.day2])
    by (vm_compute; reflexivity).
  rewrite A, B. discriminate.
Qed.

(** ** Raw items that the extractor drops or keeps (C7) *)

Section Extractor.

Variable mappings : Mappings.
Variable previous : Snapshot.
Variable today : string.

(** An item whose URL yields no G2 slug, whose slug no mapping matches, or
    whose numbers do not pass the guard, pushes nothing. *)
Lemma processG2_drops (item : RawItem) :
  resolve mappings G2 item = None
  \/ accepted (coalesce (item_rating item) (item_overallRating item))
              (coalesce (coalesce (item_reviewCount item) (item_totalReviews item))
                        (JNumber 0)) = None ->
  processG2 mappings previous today item = None.
Proof.
  unfold resolve, processG2.
  destruct (extractG2Slug _) as [g2Slug|]; [|reflexivity].
  destruct (mapToVendorSlug g2Slug G2 mappings) as [v|]; [|reflexivity].
  destruct (strTruthy v); simpl; [|reflexivity].
  intros [H|H]; [discriminate | now rewrite H].
Qed.

Lemma processCapterra_drops (item : RawItem) :
  resolve mappings Capterra item = None
  \/ accepted (coalesce (item_overallRating item) (item_rating item))
              (coalesce (coalesce (item_reviewCount item) (item_totalReviews item))
                        (JNumber 0)) = None ->
  processCapterra mappings previous today item = None.
Proof.
  unfold resolve, processCapterra.
  destruct (extractCapterraSlug _) as [capterraSlug|]; [|reflexivity].
  destruct (mapToVendorSlug capterraSlug Capterra mappings) as [v|]; [|reflexivity].
  destruct (strTruthy v); simpl; [|reflexivity].
  intros [H|H]; [discriminate | now rewrite H].
Qed.

(** No mapping matches a slug when every mapped slug differs from it, case
    apart. *)
Lemma mapToVendorSlug_none (platformSlug : string) (p : Platform) :
  (forall vendorSlug m pm,
      In (vendorSlug, m) mappings -> platformMapping m p = Some pm ->
      toLowerCase (pm_slug pm) <> toLowerCase platformSlug) ->
  mapToVendorSlug platformSlug p mappings = None.
Proof.
  induction mappings as [|[v m] ms IH]; intros H; simpl; [reflexivity|].
  destruct (platformMapping m p) as [pm|] eqn:E.
  - assert (N : (toLowerCase (pm_slug pm) =? toLowerCase platformSlug) = false).
    { apply String.eqb_neq. apply (H v m pm (or_introl eq_refl) E). }
    rewrite N, andb_false_r. apply IH. intros v' m' pm' I. apply (H v' m' pm'). now right.
  - apply IH. intros v' m' pm' I. apply (H v' m' pm'). now right.
Qed.

(** The guard refuses a score that is not a number, [NaN] or an infinite
    score, a count that is not a number, and a count that is zero, negative
    or [NaN]. *)
Lemma accepted_refuses (score count : JsValue) :
  (forall sc, score = JNumber sc -> Number_isFinite sc = false)
  \/ (forall ct, count = JNumber ct -> (0 <? ct)%float = false) ->
  accepted score count = None.
Proof.
  unfold accepted. destruct score as [| | |sc| |]; try reflexivity.
  destruct count as [| | |ct| |]; try reflexivity.
  intros [H|H]; rewrite (H _ eq_refl); [reflexivity | now rewrite andb_false_r].
Qed.

Lemma guard_examples :
  map (fun x => Number_isFinite x) [nan; infinity; neg_infinity; (-1)%float; 4.5%float]
  = [false; false; false; true; true]
  /\ map (fun x => (0 <? x)%float) [0%float; (-0)%float; (-3)%float; nan; infinity; 2.5%float]
     = [false; false; false; false; true; true].
Proof. split; vm_compute; reflexivity. Qed.

End Extractor.

(** C7 fails on a negative score: the guard only asks the score to be a
    finite number, so the G2 item with rating -1 and ten reviews is not
    dropped; its source is pushed and the vendor's [aggregateScore] is -1. *)
Lemma C7_negative_score_kept :
  resolve Scenarios.osmindMappings G2 Scenarios.negativeItem = Some "osmind"
  /\ aggregate Scenarios.osmindMappings [] Scenarios.day1 (Some [Scenarios.negativeItem]) None
     = [("osmind",
         {| aggregateScore := Some (-1)%float;
            totalCount := 10%float;
            sources :=
              [ {| source := "g2"; score := (-1)%float; count := 10%float;
                   url := Scenarios.g2Url; lastUpdated := Scenarios.day1 |} ];
            lastAggregated := Scenarios.day1 |})].
Proof. split; vm_compute; reflexivity. Qed.

(** ** Several items for one vendor and source (C8, C2) *)

(** C8 fails: two G2 items that resolve to the same vendor are both pushed,
    the output has two [g2] sources and [totalCount] adds both counts. *)
Lemma C8_duplicates_kept :
  Scenarios.firstRun
  = [("osmind",
      {| aggregateScore := Some 4.5%float;
         totalCount := 22%float;
         sources :=
           [ {| source := "g2"; score := 4.5%float; count := 10%float;
                url := Scenarios.g2Url; lastUpdated := Scenarios.day1 |};
             {| source := "g2"; score := 4.5%float; count := 12%float;
                url := Scenarios.g2Url; lastUpdated := Scenarios.day1 |} ];
         lastAggregated := Scenarios.day1 |})].
Proof. vm_compute. reflexivity. Qed.

(** C2 fails on the same dump: run again on a later day, with the first
    output as the previous snapshot, the second [g2] source is compared
    with the first [g2] entry of the snapshot and gets the new date. *)
Lemma C2_second_run_differs :
  map lastUpdated (sources (Scenarios.recordOf Scenarios.firstRun "osmind"))
  = [Scenarios.day1; Scenarios.day1]
  /\ map lastUpdated (sources (Scenarios.recordOf Scenarios.secondRun "osmind"))
     = [Scenarios.day1; Scenarios.day2]
  /\ Scenarios.secondRun <> Scenarios.firstRun.
Proof.
  assert (A : map lastUpdated (sources (Scenarios.recordOf Scenarios.firstRun "osmind"))
              = [Scenarios.day1; Scenarios.day1]) by (vm_compute; reflexivity).
  assert (B : map lastUpdated (sources (Scenarios.recordOf Scenarios.secondRun "osmind"))
              = [Scenarios.day1; Scenarios.day2]) by (vm_compute; reflexivity).
  split; [exact A|]. split; [exact B|].
  intros E. rewrite E, A in B. discriminate B.
Qed.

(** ** Idempotence when every vendor has one source per name *)

Lemma emitted_ext (f g : RawItem -> option (string * ReviewSource))
    (raw : option (list RawItem)) :
  (forall item, (exists items, raw = Some items /\ In item items) -> f item = g item) ->
  emitted f raw = emitted g raw.
Proof.
  destruct raw as [items|]; [|reflexivity]. intros H. simpl.
  apply flat_map_ext_In. intros item I. rewrite H; [reflexivity|].
  now exists items.
Qed.

Section Idempotence.

Variable mappings : Mappings.
Variable previous : Snapshot.
Variables day later : string.
Variables g2Raw capterraRaw : option (list RawItem).

#[local] Abbreviation firstOutput := (aggregate mappings previous day g2Raw capterraRaw).
#[local] Abbreviation firstSources := (collected mappings previous day g2Raw capterraRaw).

(** The run date is a date, no vendor gets two sources of the same name,
    and every rounded score is a number. *)
Hypothesis day_not_empty : day <> "".
Hypothesis one_source_per_name : forall slug, NoDup (map source (firstSources slug)).
Hypothesis scores_are_numbers :
  forall slug src, In src (firstSources slug) -> strictEq (score src) (score src) = true.

Lemma positive_self_eq (c : float) : (0 <? c)%float = true -> strictEq c c = true.
Proof.
  intros P. pose proof (orZero_positive c P) as E.
  unfold orZero, truthy, isNaN in E. unfold strictEq.
  destruct (c =? c)%float; [reflexivity|]. simpl in E.
  rewrite <- E in P. discriminate P.
Qed.

Lemma find_unique (l : list ReviewSource) (s : ReviewSource) :
  NoDup (map source l) -> In s l ->
  find (fun x => source x =? source s) l = Some s.
Proof.
  induction l as [|x t IH]; intros N I; [contradiction|].
  simpl in N. inversion N as [|? ? Nx Nt]. subst. simpl.
  destruct I as [->|I].
  - now rewrite String.eqb_refl.
  - destruct (source x =? source s) eqn:E; [|now apply IH].
    apply String.eqb_eq in E. elim Nx. rewrite E. now apply in_map.
Qed.

Lemma mapToVendorSlug_lookup (platformSlug : string) (p : Platform) (ms : Mappings)
    (v : string) :
  mapToVendorSlug platformSlug p ms = Some v -> exists m, lookup ms v = Some m.
Proof.
  induction ms as [|[k m] rest IH]; [discriminate|]. simpl.
  destruct (k =? v) eqn:K; [intros _; now exists m|].
  destruct (platformMapping m p) as [pm|]; [|exact IH].
  destruct (_ && _); [|exact IH].
  intros H. inversion H. subst. now rewrite String.eqb_refl in K.
Qed.

Lemma resolve_lookup (p : Platform) (item : RawItem) (v : string) :
  resolve mappings p item = Some v -> exists m, lookup mappings v = Some m.
Proof.
  unfold resolve.
  destruct (match p with G2 => _ | Capterra => _ end) as [platformSlug|]; [|discriminate].
  destruct (mapToVendorSlug platformSlug p mappings) as [v'|] eqn:M; [|discriminate].
  destruct (strTruthy v'); [|discriminate].
  intros H. inversion H. subst. eapply mapToVendorSlug_lookup, M.
Qed.

(** In the second run [makeSource] rebuilds the source of the first run. *)
Lemma makeSource_rerun (slug name : string) (sc ct : float) (u : string) :
  (exists m, lookup mappings slug = Some m) ->
  In (makeSource previous day slug name sc ct u) (firstSources slug) ->
  (0 <? ct)%float = true ->
  makeSource firstOutput later slug name sc ct u = makeSource previous day slug name sc ct u.
Proof.
  intros [m L] I P.
  set (src := makeSource previous day slug name sc ct u) in *.
  assert (F : getPreviousSource firstOutput slug name = Some src).
  { unfold getPreviousSource. rewrite aggregate_lookup, L.
    rewrite vendorRecord_sources.
    change name with (source src). apply find_unique.
    - eapply Permutation_NoDup; [|apply one_source_per_name].
      apply Permutation_map, Permutation_sym, sortSources_perm.
    - eapply Permutation_in; [apply Permutation_sym, sortSources_perm | exact I]. }
  pose proof (scores_are_numbers slug src I) as S.
  unfold makeSource at 1. rewrite F.
  change (score src) with (Math_round (sc * 10) / 10)%float in S |- *.
  change (count src) with ct. change (url src) with u.
  now rewrite S, (positive_self_eq ct P), String.eqb_refl.
Qed.

Lemma emitted_sourcesFor process (raw : option (list RawItem)) (item : RawItem)
    (v : string) (src : ReviewSource) :
  (exists items, raw = Some items /\ In item items) ->
  process item = Some (v, src) ->
  In src (sourcesFor v (emitted process raw)).
Proof.
  intros (items & -> & I) E. apply sourcesFor_In. simpl.
  apply in_flat_map. exists item. split; trivial. rewrite E. now left.
Qed.

Lemma processG2_rerun (item : RawItem) :
  (exists items, g2Raw = Some items /\ In item items) ->
  processG2 mappings firstOutput later item = processG2 mappings previous day item.
Proof.
  intros R.
  destruct (processG2 mappings previous day item) as [[v src]|] eqn:E.
  - pose proof (emitted_sourcesFor _ g2Raw item v src R E) as M.
    pose proof (processG2_inv _ _ _ _ _ _ E) as (_ & _ & Q).
    apply resolve_lookup in Q.
    revert E M. unfold processG2.
    destruct (extractG2Slug _) as [g2Slug|]; [|discriminate].
    destruct (mapToVendorSlug g2Slug G2 mappings) as [v'|]; [|discriminate].
    destruct (strTruthy v'); simpl; [|discriminate].
    destruct (accepted _ _) as [[sc ct]|] eqn:A; [|discriminate].
    intros E M. inversion E. subst v' src. apply accepted_inv in A.
    destruct A as (_ & _ & _ & P).
    rewrite makeSource_rerun; trivial.
    unfold collected. apply in_app_iff. now left.
  - revert E. unfold processG2.
    destruct (extractG2Slug _) as [g2Slug|]; [|reflexivity].
    destruct (mapToVendorSlug g2Slug G2 mappings) as [v'|]; [|reflexivity].
    destruct (strTruthy v'); simpl; [|reflexivity].
    destruct (accepted _ _) as [[sc ct]|]; [discriminate | reflexivity].
Qed.

Lemma processCapterra_rerun (item : RawItem) :
  (exists items, capterraRaw = Some items /\ In item items) ->
  processCapterra mappings firstOutput later item
  = processCapterra mappings previous day item.
Proof.
  intros R.
  destruct (processCapterra mappings previous day item) as [[v src]|] eqn:E.
  - pose proof (emitted_sourcesFor _ capterraRaw item v src R E) as M.
    pose proof (processCapterra_inv _ _ _ _ _ _ E) as (_ & _ & Q).
    apply resolve_lookup in Q.
    revert E M. unfold processCapterra.
    destruct (extractCapterraSlug _) as [capterraSlug|]; [|discriminate].
    destruct (mapToVendorSlug capterraSlug Capterra mappings) as [v'|]; [|discriminate].
    destruct (strTruthy v'); simpl; [|discriminate].
    destruct (accepted _ _) as [[sc ct]|] eqn:A; [|discriminate].
    intros E M. inversion E. subst v' src. apply accepted_inv in A.
    destruct A as (_ & _ & _ & P).
    rewrite makeSource_rerun; trivial.
    unfold collected. apply in_app_iff. now right.
  - revert E. unfold processCapterra.
    destruct (extractCapterraSlug _) as [capterraSlug|]; [|reflexivity].
    destruct (mapToVendorSlug capterraSlug Capterra mappings) as [v'|]; [|reflexivity].
    destruct (strTruthy v'); simpl; [|reflexivity].
    destruct (accepted _ _) as [[sc ct]|]; [discriminate | reflexivity].
Qed.

Lemma collected_rerun (slug : string) :
  collected mappings firstOutput later g2Raw capterraRaw slug = firstSources slug.
Proof.
  unfold collected. f_equal; f_equal.
  - apply emitted_ext, processG2_rerun.
  - apply emitted_ext, processCapterra_rerun.
Qed.

(** A list of sources whose scores and counts are numbers has not changed
    with respect to itself. *)
Lemma changed_same (l : list ReviewSource) :
  (forall s, In s l ->
     strictEq (score s) (score s) = true /\ strictEq (count s) (count s) = true) ->
  changed l l = false.
Proof.
  intros H. unfold changed.
  destruct (existsb _ _) eqn:E; [|reflexivity].
  apply existsb_exists in E. destruct E as (name & _ & C).
  unfold sourceChanged in C.
  destruct (bySource l name) as [p|] eqn:B; [|discriminate].
  unfold bySource in B. apply find_some in B. destruct B as [I _].
  apply in_rev in I. destruct (H p I) as [S1 S2]. rewrite S1, S2 in C. discriminate C.
Qed.

Lemma orStr_not_empty (a b : string) : b <> "" -> orStr a b <> "".
Proof.
  intros N. unfold orStr. destruct (strTruthy a) eqn:T; [|exact N].
  unfold strTruthy in T. apply negb_true_iff, String.eqb_neq in T. exact T.
Qed.

Lemma orStr_left (a b : string) : a <> "" -> orStr a b = a.
Proof.
  intros N. unfold orStr, strTruthy. apply String.eqb_neq in N. now rewrite N.
Qed.

Lemma vendorRecord_rerun (slug : string) (m : VendorMapping) :
  lookup mappings slug = Some m ->
  vendorRecord mappings firstOutput later g2Raw capterraRaw slug
  = vendorRecord mappings previous day g2Raw capterraRaw slug.
Proof.
  intros L.
  set (first := vendorRecord mappings previous day g2Raw capterraRaw slug).
  assert (P : lookup firstOutput slug = Some first)
    by (now rewrite aggregate_lookup, L).
  assert (S : sources first = sortSources (firstSources slug)) by reflexivity.
  assert (C : changed (sources first) (sources first) = false).
  { apply changed_same. intros s I. unfold first in I.
    pose proof (vendorRecord_made _ _ _ _ _ _ _ I) as (name & sc & ct & u & E & Q).
    split.
    - apply (scores_are_numbers slug).
      rewrite vendorRecord_sources in I.
      eapply Permutation_in; [apply sortSources_perm | exact I].
    - rewrite E. now apply positive_self_eq. }
  assert (D : lastAggregated first <> "").
  { unfold first. rewrite vendorRecord_lastAggregated.
    destruct (changed (previousSources previous slug) _); [exact day_not_empty|].
    unfold carriedDate. destruct (lookup previous slug);
      [now apply orStr_not_empty | exact day_not_empty]. }
  rewrite vendorRecord_fields. cbv zeta. rewrite collected_rerun.
  unfold previousSources, carriedDate. rewrite P, <- S, C, (orStr_left _ _ D).
  reflexivity.
Qed.

(** When the run date is not empty, no vendor gets two sources of the same
    name and every rounded score is a number: run again on the same dumps
    with the result of the first run as the previous snapshot, on any
    date, the aggregator computes the same result. *)
Lemma aggregate_idempotent :
  aggregate mappings firstOutput later g2Raw capterraRaw = firstOutput.
Proof.
  etransitivity; [apply aggregate_spec|].
  etransitivity; [|symmetry; apply aggregate_spec].
  apply map_ext_in. intros [slug m] I. f_equal.
  assert (L : exists m', lookup mappings slug = Some m').
  { clear -I. induction mappings as [|[k x] rest IH]; [contradiction|]. simpl.
    destruct (k =? slug) eqn:K; [now exists x|].
    destruct I as [E|I]; [|now apply IH].
    inversion E. subst. now rewrite String.eqb_refl in K. }
  destruct L as [m' L]. now apply (vendorRecord_rerun slug m').
Qed.

End Idempotence.

(** The end-to-end scenario run again a week later gives the same
    output. *)
Lemma endToEnd_idempotent :
  aggregate Scenarios.osmindMappings Scenarios.endToEnd Scenarios.day2
            (Some [Scenarios.g2Item 4.0 10]) (Some [Scenarios.capterraItem 4.5 20])
  = Scenarios.endToEnd.
Proof.
  assert (C : forall slug,
             collected Scenarios.osmindMappings [] Scenarios.day1
               (Some [Scenarios.g2Item 4.0 10]) (Some [Scenarios.capterraItem 4.5 20]) slug
             = if slug =? "osmind"
               then rev (sources (Scenarios.recordOf Scenarios.endToEnd "osmind"))
               else []).
  { intros slug. unfold collected, sourcesFor.
    replace (emitted _ (Some [Scenarios.g2Item 4.0 10]))
      with [("osmind", nth 1 (sources (Scenarios.recordOf Scenarios.endToEnd "osmind"))
                           (mkSource "" 0 0 "" ""))]
      by (vm_compute; reflexivity).
    replace (emitted _ (Some [Scenarios.capterraItem 4.5 20]))
      with [("osmind", nth 0 (sources (Scenarios.recordOf Scenarios.endToEnd "osmind"))
                           (mkSource "" 0 0 "" ""))]
      by (vm_compute; reflexivity).
    simpl filter. destruct (slug =? "osmind"); vm_compute; reflexivity. }
  apply aggregate_idempotent.
  - discriminate.
  - intros slug. rewrite C. destruct (slug =? "osmind").
    + vm_compute. repeat constructor; simpl; intuition discriminate.
    + constructor.
  - intros slug src. rewrite C. destruct (slug =? "osmind").
    + vm_compute. intros [<-|[<-|[]]]; vm_compute; reflexivity.
    + intros [].
Qed.

End ReviewClaims.

(** ** The classifier (C5) *)

Section ClassifierClaims.
Import Js Verify Classify ClassifySpec.

Lemma countOrZero_count (e : option Evidence) :
  countOrZero e = match e with Some ev => count ev | None => 0%Z end.
Proof.
  destruct e as [ev|]; simpl; [|reflexivity].
  destruct (count ev =? 0)%Z eqn:E; [|reflexivity].
  apply Z.eqb_eq in E. now rewrite E.
Qed.

Lemma isKetamineKeyword_strong (m : KeywordMatch) :
  isKetamineKeyword m = existsb (String.eqb (keyword m)) strongSignals.
Proof.
  unfold isKetamineKeyword, strongSignals. simpl.
  now rewrite orb_false_r, orb_assoc.
Qed.

Lemma someMatch_strong (r : VerificationReport) :
  someMatch isKetamineKeyword (ketamine_evidence r) = hasStrongSignal r.
Proof.
  unfold someMatch, hasStrongSignal, matchesOrEmpty.
  destruct (ketamine_evidence r) as [ev|]; [|reflexivity].
  induction (matches ev) as [|m ms IH]; simpl; [reflexivity|].
  now rewrite IH, isKetamineKeyword_strong.
Qed.

(** C5.  For every verification report, the category and the confidence
    that [classifyVendor] returns are those of the first rule that applies
    in the ordered list: site not live, unknown and low; at least five
    ketamine mentions with a strong-signal keyword among the matches,
    ketamine_specific and high; at least one ketamine mention or at least
    three psychiatry mentions, ketamine_compatible, medium when there is a
    ketamine mention and low otherwise; anything else, general_ehr and
    high. *)
Theorem C5_first_matching_rule (r : VerificationReport) :
  firstMatch r = Some (classification (classifyVendor r), confidence (classifyVendor r)).
Proof.
  unfold firstMatch, decisionRules, classifyVendor. simpl.
  destruct (website_live r); simpl; [|reflexivity].
  rewrite !countOrZero_count, someMatch_strong.
  fold (ketamineCount r) (psychiatryCount r).
  unfold THRESHOLDS_specific_ketamine_mentions, THRESHOLDS_compatible_ketamine_mentions,
    THRESHOLDS_compatible_psychiatry_mentions.
  destruct ((5 <=? ketamineCount r)%Z && hasStrongSignal r); simpl; [reflexivity|].
  destruct ((1 <=? ketamineCount r)%Z || (3 <=? psychiatryCount r)%Z); simpl; reflexivity.
Qed.

(** The literal cases of the specification. *)
Lemma classifier_literal_cases :
  let result r := (classification (classifyVendor r), confidence (classifyVendor r)) in
  result (reportWith true 5 0 [ {| keyword := "ketamine"; match_count := 5 |} ])
  = (ketamine_specific, high)
  /\ result (reportWith true 0 3 []) = (ketamine_compatible, low)
  /\ result (reportWith true 0 0 []) = (general_ehr, high)
  /\ result (reportWith false 9 9 [ {| keyword := "ketamine"; match_count := 9 |} ])
     = (unknown, low)
  /\ result (reportWith true 5 0 [ {| keyword := "infusion clinic"; match_count := 5 |} ])
     = (ketamine_compatible, medium).
Proof. repeat split. Qed.

End ClassifierClaims.

(** ** The evidence collector's status (C10) and the generated entries (C9) *)

Section CollectorClaims.
Import Js Verify Classify ClassifySpec Acquire AcquireSpec.

Lemma response_ok_iff (code : Z) :
  response_ok code = true <-> (200 <= code <= 299)%Z.
Proof. unfold response_ok. rewrite andb_true_iff, !Z.leb_le. tauto. Qed.

(** C10, as the code has it.  The report's status is unverified exactly
    when the existence probe fails or answers with a status outside
    200-299; for a site that answers, the evidence collector itself sets
    the status: verified when it counted at least five ketamine keywords
    or at least three psychiatry keywords, needs_review otherwise. *)
Theorem C10_collector_status (probe : string -> FetchOutcome)
    (fetchPageContent : string -> string -> option string) (today : string) (v : Vendor) :
  let r := verifyVendor probe fetchPageContent today v in
  (status r = unverified <->
   match probe (v_website v) with
   | FetchError _ => True
   | Response code => ~ (200 <= code <= 299)%Z
   end)
  /\ (website_live r = false <-> status r = unverified)
  /\ (website_live r = true ->
      status r = if (5 <=? ketamineCount r)%Z || (3 <=? psychiatryCount r)%Z
                 then verified else needs_review).
Proof.
  unfold verifyVendor. destruct (probe (v_website v)) as [message|code]; simpl.
  - repeat split; trivial; discriminate.
  - destruct (response_ok code) eqn:E; simpl.
    + destruct (fetchPages fetchPageContent (v_website v)) as [allContent pagesChecked].
      unfold ketamineCount, psychiatryCount. simpl.
      apply response_ok_iff in E.
      destruct (5 <=? count (searchKeywords allContent KETAMINE_KEYWORDS))%Z;
        [|destruct (3 <=? count (searchKeywords allContent PSYCHIATRY_KEYWORDS))%Z];
        simpl; repeat split; trivial; try discriminate; intros H; now elim H.
    + repeat split; trivial; try discriminate.
      intros _ H. apply response_ok_iff in H. congruence.
Qed.

(** C10 as stated fails: for a site that answers, the status is already in
    the evidence collector's report, needs_review for a site without text
    and verified for one that mentions Spravato five times. *)
Lemma C10_counterexample :
  let v := candidate "Third" "https://third.io" in
  let quiet := verifyVendor liveProbe emptyPages "2026-01-24" v in
  let loud :=
    verifyVendor liveProbe
      (fun _ _ => Some "spravato spravato spravato spravato spravato") "2026-01-24" v in
  website_live quiet = true /\ status quiet = needs_review
  /\ website_live loud = true /\ status loud = verified.
Proof. vm_compute. repeat split. Qed.

(** [classifyVendor] never sets [inferred_features]. *)
Lemma classifyVendor_no_features (r : VerificationReport) :
  inferred_features (classifyVendor r) = None.
Proof.
  unfold classifyVendor. destruct (website_live r); simpl; [|reflexivity].
  destruct (_ && _); [reflexivity|]. destruct (_ || _); reflexivity.
Qed.

(** So every entry of the acquisition run has all its feature flags off,
    whatever the report holds. *)
Lemma processVendor_no_features (probe : string -> FetchOutcome)
    (fetchPageContent : string -> string -> option string) (today : string) (v : Vendor) :
  ketamine_features (processVendor probe fetchPageContent today v) = noFeatures.
Proof.
  unfold processVendor, generateSoftwareEntry. simpl.
  now rewrite classifyVendor_no_features.
Qed.

(** C9 fails: for a live site whose home page mentions Spravato and REMS
    the inference gives [spravato_workflows], and the generated entry has
    the flag off; the list that [classifyAllVendors] builds has it on. *)
Lemma C9_features_not_inferred :
  let v := candidate "Third" "https://third.io" in
  let r := verifyVendor liveProbe spravatoPages "2026-01-24" v in
  website_live r = true
  /\ spravato_workflows (inferKetamineFeatures r) = true
  /\ spravato_workflows
       (ketamine_features (processVendor liveProbe spravatoPages "2026-01-24" v)) = false
  /\ option_map spravato_workflows (inferred_features (classifyReport r)) = Some true.
Proof. vm_compute. repeat split. Qed.

End CollectorClaims.

(** ** The deduplicator (C6) *)

Section DeduplicatorClaims.
Import Js Verify Acquire AcquireSpec.

Variable hostname : string -> option string.

Lemma nameCheck_iff (c e : Vendor) : nameCheck c e = true <-> nameMatches c e.
Proof. apply String.eqb_eq. Qed.

Lemma strTruthy_iff (s : string) : strTruthy s = true <-> s <> "".
Proof. unfold strTruthy. rewrite negb_true_iff. apply String.eqb_neq. Qed.

Lemma domainCheck_iff (c e : Vendor) :
  domainCheck hostname c e = true <-> domainMatches hostname c e.
Proof.
  unfold domainCheck, domainMatches.
  destruct (extractDomain hostname (v_website c)) as [d|];
    destruct (extractDomain hostname (v_website e)) as [d'|].
  - rewrite !andb_true_iff, !strTruthy_iff, String.eqb_eq. split.
    + intros [[H _] E]. subst d'. now exists d.
    + intros (x & Hc & He & N). inversion Hc. inversion He. subst. tauto.
  - split; [discriminate | intros (x & _ & H & _); discriminate].
  - split; [discriminate | intros (x & H & _); discriminate].
  - split; [discriminate | intros (x & H & _); discriminate].
Qed.

Lemma not_duplicates_iff (c e : Vendor) :
  ~ duplicates hostname c e <-> nameCheck c e = false /\ domainCheck hostname c e = false.
Proof.
  unfold duplicates. rewrite <- nameCheck_iff, <- domainCheck_iff.
  destruct (nameCheck c e), (domainCheck hostname c e); intuition congruence.
Qed.

Lemma vendorExists_cons (c e : Vendor) (rest : list Vendor) :
  vendorExists hostname c (e :: rest)
  = if nameCheck c e then Some (name_match, v_slug e)
    else if domainCheck hostname c e then Some (domain_match, v_slug e)
    else vendorExists hostname c rest.
Proof.
  unfold vendorExists, nameCheck, domainCheck. simpl.
  destruct (normalizeName (v_name e) =? normalizeName (v_name c)); [reflexivity|].
  destruct (extractDomain hostname (v_website c)) as [d|]; [|reflexivity].
  destruct (extractDomain hostname (v_website e)) as [d'|]; reflexivity.
Qed.

(** [vendorExists] reports the first vendor of the list that the candidate
    duplicates, with its slug, and the reason: the name before the
    domain. *)
Lemma vendorExists_Some_iff (c : Vendor) (l : list Vendor) (reason : MatchReason)
    (slug : option string) :
  vendorExists hostname c l = Some (reason, slug) <-> firstDuplicate hostname c l reason slug.
Proof.
  split.
  - induction l as [|e rest IH]; [discriminate|].
    rewrite vendorExists_cons.
    destruct (nameCheck c e) eqn:N; [|destruct (domainCheck hostname c e) eqn:D].
    + intros H. inversion H. subst. exists [], e, rest.
      repeat split; try (intros x []). left. split; trivial. now apply nameCheck_iff.
    + intros H. inversion H. subst. exists [], e, rest.
      repeat split; try (intros x []). right. repeat split.
      * intros Q. apply nameCheck_iff in Q. congruence.
      * now apply domainCheck_iff.
    + intros H. destruct (IH H) as (l1 & e' & l2 & -> & F & S & R).
      exists (e :: l1), e', l2. repeat split; trivial.
      intros x [<-|I]; [now apply not_duplicates_iff | now apply F].
  - intros (l1 & e & l2 & -> & F & -> & R).
    induction l1 as [|a l1 IH]; simpl; rewrite vendorExists_cons.
    + destruct R as [[-> N]|(-> & N & D)].
      * apply nameCheck_iff in N. now rewrite N.
      * apply domainCheck_iff in D. rewrite D.
        destruct (nameCheck c e) eqn:Q; [|reflexivity].
        elim N. now apply nameCheck_iff.
    + destruct (proj1 (not_duplicates_iff c a) (F a (or_introl eq_refl))) as [-> ->].
      apply IH. intros x I. apply F. now right.
Qed.

Lemma vendorExists_None_iff (c : Vendor) (l : list Vendor) :
  vendorExists hostname c l = None <-> forall e, In e l -> ~ duplicates hostname c e.
Proof.
  induction l as [|e rest IH]; [split; [intros _ x [] | reflexivity]|].
  rewrite vendorExists_cons. split.
  - destruct (nameCheck c e) eqn:N; [discriminate|].
    destruct (domainCheck hostname c e) eqn:D; [discriminate|].
    intros H x [<-|I]; [now apply not_duplicates_iff | now apply IH].
  - intros F.
    destruct (proj1 (not_duplicates_iff c e) (F e (or_introl eq_refl))) as [-> ->].
    apply IH. intros x I. apply F. now right.
Qed.

Lemma vendorExists_Some_duplicate (c : Vendor) (l : list Vendor) (found : MatchReason * option string) :
  vendorExists hostname c l = Some found -> exists e, In e l /\ duplicates hostname c e.
Proof.
  destruct found as [reason slug]. intros H. apply vendorExists_Some_iff in H.
  destruct H as (l1 & e & l2 & -> & _ & _ & R). exists e. split.
  - apply in_app_iff. right. now left.
  - destruct R as [[_ N]|(_ & _ & D)]; [now left | now right].
Qed.

Lemma filterDiscovered_snoc (existing before : list Vendor) (c : Vendor) :
  filterDiscovered hostname existing (before ++ [c])
  = filterStep hostname existing (filterDiscovered hostname existing before) c.
Proof. unfold filterDiscovered. now rewrite fold_left_app. Qed.


End DeduplicatorClaims.

Section DeduplicatorStatement.
Import Js Verify Acquire AcquireSpec.


(** The examples of the specification: a name match, a domain match, and
    two unrelated candidates that are both kept. *)
Lemma deduplicator_examples :
  filterDiscovered simpleHostname [acme]
    [ candidate "Acme Health!" "https://other.example";
      candidate "Different" "https://www.acme.io/pricing";
      candidate "Third" "https://third.io";
      candidate "Fourth" "https://fourth.io" ]
  = ([ candidate "Third" "https://third.io"; candidate "Fourth" "https://fourth.io" ],
     [ SkippingExisting "Acme Health!" name_match (Some "acme-health");
       SkippingExisting "Different" domain_match (Some "acme-health") ]).
Proof. vm_compute. reflexivity. Qed.



End DeduplicatorStatement.

(** ** Name normalization *)

Section Normalization.
Import Js Acquire.

Lemma alnum_not_space (c : ascii) : isAlnumLower c = true -> isSpace c = false.
Proof.
  destruct c as [[] [] [] [] [] [] [] []]; vm_compute; intros H;
    first [reflexivity | discriminate H].
Qed.

Lemma trimEnd_filtered (s : string) :
  trimEnd (filterChars isAlnumLower s) = filterChars isAlnumLower s.
Proof.
  induction s as [|c t IH]; simpl; [reflexivity|].
  destruct (isAlnumLower c) eqn:A; [|exact IH].
  simpl. now rewrite IH, (alnum_not_space c A).
Qed.

Lemma dropWhile_filtered (s : string) :
  dropWhile isSpace (filterChars isAlnumLower s) = filterChars isAlnumLower s.
Proof.
  induction s as [|c t IH]; simpl; [reflexivity|].
  destruct (isAlnumLower c) eqn:A; [|exact IH].
  simpl. now rewrite (alnum_not_space c A).
Qed.

(** The normalized name is the name lower-cased, with every character
    other than a letter or a digit removed; the final [trim] has nothing
    left to remove. *)
Lemma normalizeName_filtered (name : string) :
  normalizeName name = filterChars isAlnumLower (toLowerCase name).
Proof. unfold normalizeName, trim. now rewrite dropWhile_filtered, trimEnd_filtered. Qed.

End Normalization.

(** * Further properties of the aggregator *)

Section AggregatorOutput.
Import Js Reviews ReviewsSpec ReviewsMore.

Variable mappings : Mappings.
Variable previous : Snapshot.
Variable today : string.

Lemma emitted_G2_named (raw : option (list RawItem)) (slug : string) :
  Forall (fun s => source s = "g2")
         (sourcesFor slug (emitted (processG2 mappings previous today) raw)).
Proof.
  apply Forall_forall. intros s H. apply sourcesFor_In, emitted_In in H.
  destruct H as (items & item & _ & _ & H). now apply processG2_inv in H.
Qed.

Lemma emitted_Capterra_named (raw : option (list RawItem)) (slug : string) :
  Forall (fun s => source s = "capterra")
         (sourcesFor slug (emitted (processCapterra mappings previous today) raw)).
Proof.
  apply Forall_forall. intros s H. apply sourcesFor_In, emitted_In in H.
  destruct H as (items & item & _ & _ & H). now apply processCapterra_inv in H.
Qed.

Lemma sortSources_capterra (l : list ReviewSource) :
  Forall (fun s => source s = "capterra") l -> sortSources l = l.
Proof.
  induction 1 as [|x t Hx Ht IH]; simpl; [reflexivity|].
  rewrite IH. destruct Ht as [|y t' Hy _]; simpl; [reflexivity|].
  unfold sourceBefore. now rewrite Hx, Hy.
Qed.

Lemma insertSource_g2 (x : ReviewSource) (cs gs : list ReviewSource) :
  source x = "g2" ->
  Forall (fun s => source s = "capterra") cs ->
  Forall (fun s => source s = "g2") gs ->
  insertSource x (cs ++ gs) = cs ++ x :: gs.
Proof.
  intros Hx Hc Hg. induction Hc as [|c t Hc _ IH]; simpl.
  - destruct Hg as [|g t' Hg _]; simpl; [reflexivity|].
    unfold sourceBefore. now rewrite Hx, Hg.
  - unfold sourceBefore at 1. rewrite Hx, Hc. simpl. now rewrite IH.
Qed.

Lemma sortSources_g2_capterra (gs cs : list ReviewSource) :
  Forall (fun s => source s = "g2") gs ->
  Forall (fun s => source s = "capterra") cs ->
  sortSources (gs ++ cs) = cs ++ gs.
Proof.
  intros Hg Hc. induction Hg as [|g t Hg Ht IH]; simpl.
  - rewrite app_nil_r. now apply sortSources_capterra.
  - rewrite IH. now apply insertSource_g2.
Qed.

End AggregatorOutput.

Section AggregatorRecords.
Import Js Reviews ReviewsSpec ReviewsMore.

(** The stored order of a record's sources: the Capterra sources in the
    order of the Capterra dump, then the G2 sources in the order of the G2
    dump, although the G2 dump is processed first. *)
Theorem sources_stored_order (mappings : Mappings) (previous : Snapshot) (today : string)
    (g2Raw capterraRaw : option (list RawItem)) (slug : string) (rec : AggregatedReview) :
  In (slug, rec) (aggregate mappings previous today g2Raw capterraRaw) ->
  sources rec
  = sourcesFor slug (emitted (processCapterra mappings previous today) capterraRaw)
    ++ sourcesFor slug (emitted (processG2 mappings previous today) g2Raw)
  /\ Sorted (fun a b => (source a <=? source b) = true) (sources rec).
Proof.
  intros H. apply aggregate_In in H. subst rec. rewrite vendorRecord_sources.
  unfold collected.
  pose proof (emitted_G2_named mappings previous today g2Raw slug) as G.
  pose proof (emitted_Capterra_named mappings previous today capterraRaw slug) as C.
  rewrite (sortSources_g2_capterra _ _ G C). split; [reflexivity|].
  induction C as [|c t Hc Ht IH]; simpl.
  - induction G as [|g t Hg Ht IH]; constructor; trivial.
    destruct Ht as [|g' t' Hg' _]; constructor. now rewrite Hg, Hg'.
  - constructor; trivial.
    destruct Ht as [|c' t' Hc' _]; simpl.
    + destruct G as [|g t' Hg _]; constructor. now rewrite Hc, Hg.
    + constructor. now rewrite Hc, Hc'.
Qed.

Lemma sources_stored_order_witness :
  map source (sources (Scenarios.recordOf Scenarios.threeSources "osmind"))
  = ["capterra"; "g2"; "g2"]
  /\ map count (sources (Scenarios.recordOf Scenarios.threeSources "osmind"))
     = [2; 3; 3]%float.
Proof.
  pose proof (sources_stored_order Scenarios.osmindMappings [] Scenarios.day1
                (Some [Scenarios.g2Item 3.4 3; Scenarios.g2Item 4.6 3])
                (Some [Scenarios.capterraItem 3.0 2]) "osmind"
                (Scenarios.recordOf Scenarios.threeSources "osmind")) as W.
  destruct W as [E _]; [left; vm_compute; reflexivity|].
  rewrite E. split; vm_compute; reflexivity.
Defined.

Lemma extractCapterraSlug_nonempty (url slug : string) :
  extractCapterraSlug url = Some slug -> url <> "".
Proof. intros H E. subst url. discriminate H. Qed.

(** What an item that is pushed went through. *)
Lemma processG2_full (mappings : Mappings) (previous : Snapshot) (today : string)
    (item : RawItem) (v : string) (src : ReviewSource) :
  processG2 mappings previous today item = Some (v, src) ->
  exists sc ct u,
    itemNumbers G2 item = Some (sc, ct)
    /\ u <> ""
    /\ src = makeSource previous today v "g2" sc ct u.
Proof.
  unfold processG2, itemNumbers.
  destruct (extractG2Slug _) as [g2Slug|]; [|discriminate].
  destruct (mapToVendorSlug g2Slug G2 mappings) as [v'|]; [|discriminate].
  destruct (strTruthy v'); simpl; [|discriminate].
  destruct (accepted _ _) as [[sc ct]|]; [|discriminate].
  intros H. inversion H. subst. eexists sc, ct, _. repeat split.
  apply orStr_not_empty. discriminate.
Qed.

Lemma processCapterra_full (mappings : Mappings) (previous : Snapshot) (today : string)
    (item : RawItem) (v : string) (src : ReviewSource) :
  processCapterra mappings previous today item = Some (v, src) ->
  exists sc ct u,
    itemNumbers Capterra item = Some (sc, ct)
    /\ u <> ""
    /\ src = makeSource previous today v "capterra" sc ct u.
Proof.
  unfold processCapterra, itemNumbers.
  destruct (extractCapterraSlug _) as [capterraSlug|] eqn:X; [|discriminate].
  destruct (mapToVendorSlug capterraSlug Capterra mappings) as [v'|]; [|discriminate].
  destruct (strTruthy v'); simpl; [|discriminate].
  destruct (accepted _ _) as [[sc ct]|]; [|discriminate].
  intros H. inversion H. subst. eexists sc, ct, _. repeat split.
  apply orStr_not_empty. eapply extractCapterraSlug_nonempty, X.
Qed.

Lemma itemNumbers_inv (p : Platform) (item : RawItem) (sc ct : float) :
  itemNumbers p item = Some (sc, ct) ->
  Number_isFinite sc = true /\ (0 <? ct)%float = true.
Proof.
  unfold itemNumbers. destruct p; intros H; apply accepted_inv in H; tauto.
Qed.





Lemma processG2_kept (mappings : Mappings) (previous : Snapshot) (today : string)
    (item : RawItem) (v : string) :
  resolve mappings G2 item = Some v ->
  (exists src, processG2 mappings previous today item = Some (v, src))
  <-> itemNumbers G2 item <> None.
Proof.
  unfold resolve, processG2, itemNumbers.
  destruct (extractG2Slug _) as [g2Slug|]; [|discriminate].
  destruct (mapToVendorSlug g2Slug G2 mappings) as [v'|]; [|discriminate].
  destruct (strTruthy v'); simpl; [|discriminate].
  intros E. inversion E. subst v'.
  destruct (accepted _ _) as [[sc ct]|]; split; try discriminate.
  - intros _. now eexists.
  - intros [src H]. discriminate H.
  - intros H. now elim H.
Qed.

Lemma processCapterra_kept (mappings : Mappings) (previous : Snapshot) (today : string)
    (item : RawItem) (v : string) :
  resolve mappings Capterra item = Some v ->
  (exists src, processCapterra mappings previous today item = Some (v, src))
  <-> itemNumbers Capterra item <> None.
Proof.
  unfold resolve, processCapterra, itemNumbers.
  destruct (extractCapterraSlug _) as [capterraSlug|]; [|discriminate].
  destruct (mapToVendorSlug capterraSlug Capterra mappings) as [v'|]; [|discriminate].
  destruct (strTruthy v'); simpl; [|discriminate].
  intros E. inversion E. subst v'.
  destruct (accepted _ _) as [[sc ct]|]; split; try discriminate.
  - intros _. now eexists.
  - intros [src H]. discriminate H.
  - intros H. now elim H.
Qed.

Lemma pushed_length (p : Platform) (process : RawItem -> option (string * ReviewSource))
    (l : list RawItem) :
  (forall item, In item l ->
     (exists e, process item = Some e) <-> itemNumbers p item <> None) ->
  List.length (flat_map (fun item => match process item with
                                     | Some (_, s) => [s]
                                     | None => []
                                     end) l)
  = List.length (filter (fun item => match itemNumbers p item with
                                     | Some _ => true
                                     | None => false
                                     end) l).
Proof.
  induction l as [|item t IH]; intros H; simpl; [reflexivity|].
  rewrite length_app, IH by (intros x I; apply H; now right).
  pose proof (H item (or_introl eq_refl)) as [A B].
  destruct (process item) as [[v s]|], (itemNumbers p item) as [n|]; simpl; trivial.
  - elim A; trivial. now eexists.
  - destruct B as [e B]; [discriminate | discriminate B].
Qed.

(** A record has one source for every raw item that resolves to the vendor
    and passes the guard: nothing is merged and nothing else is added. *)
Theorem one_source_per_kept_item (mappings : Mappings) (previous : Snapshot)
    (today : string) (g2Raw capterraRaw : option (list RawItem)) (slug : string)
    (rec : AggregatedReview) :
  In (slug, rec) (aggregate mappings previous today g2Raw capterraRaw) ->
  List.length (sources rec)
  = (List.length (keptItems mappings G2 slug g2Raw)
     + List.length (keptItems mappings Capterra slug capterraRaw))%nat.
Proof.
  intros H. apply aggregate_In in H. subst rec. rewrite vendorRecord_sources.
  rewrite (Permutation_length (sortSources_perm _)). unfold collected, keptItems.
  rewrite length_app.
  rewrite (sourcesFor_itemsOf mappings G2 (processG2 mappings previous today))
    by (intros item v s Q; now apply processG2_inv in Q).
  rewrite (sourcesFor_itemsOf mappings Capterra (processCapterra mappings previous today))
    by (intros item v s Q; now apply processCapterra_inv in Q).
  f_equal; apply pushed_length; intros item I; apply itemsOf_resolve in I.
  - rewrite <- (processG2_kept mappings previous today item slug I). split.
    + intros [[v s] E]. pose proof (processG2_inv _ _ _ _ _ _ E) as (_ & _ & R).
      rewrite I in R. inversion R. subst. exists s. exact E.
    + intros [s E]. exists (slug, s). exact E.
  - rewrite <- (processCapterra_kept mappings previous today item slug I). split.
    + intros [[v s] E]. pose proof (processCapterra_inv _ _ _ _ _ _ E) as (_ & _ & R).
      rewrite I in R. inversion R. subst. exists s. exact E.
    + intros [s E]. exists (slug, s). exact E.
Qed.

Lemma one_source_per_kept_item_witness :
  List.length (sources (Scenarios.recordOf Scenarios.threeSources "osmind")) = 3%nat.
Proof.
  rewrite (one_source_per_kept_item Scenarios.osmindMappings [] Scenarios.day1
             (Some [Scenarios.g2Item 3.4 3; Scenarios.g2Item 4.6 3])
             (Some [Scenarios.capterraItem 3.0 2]) "osmind").
  - vm_compute. reflexivity.
  - left. vm_compute. reflexivity.
Defined.

End AggregatorRecords.

Section StoredSources.
Import Js Reviews ReviewsSpec ReviewsMore.

(** What a loop pushes for an item, in terms of what it reads of the
    item. *)
Lemma processG2_item (mappings : Mappings) (previous : Snapshot) (today : string)
    (item : RawItem) (v : string) (src : ReviewSource) :
  processG2 mappings previous today item = Some (v, src) ->
  exists sc ct found,
    resolve mappings G2 item = Some v
    /\ ratingOf G2 item = JNumber sc /\ Number_isFinite sc = true
    /\ countOf item = JNumber ct /\ (0 <? ct)%float = true
    /\ fallbackUrl G2 item found
    /\ src = makeSource previous today v "g2" sc ct
               (orStr (getMappedUrl mappings v G2) found)
    /\ orStr (getMappedUrl mappings v G2) found <> "".
Proof.
  intros H. pose proof (processG2_inv _ _ _ _ _ _ H) as (_ & _ & R).
  revert H. unfold processG2, fallbackUrl, ratingOf, countOf, itemUrl.
  destruct (extractG2Slug _) as [g2Slug|]; [|discriminate].
  destruct (mapToVendorSlug g2Slug G2 mappings) as [v'|]; [|discriminate].
  destruct (strTruthy v'); simpl; [|discriminate].
  destruct (accepted _ _) as [[sc ct]|] eqn:A; [|discriminate].
  intros H. inversion H. subst. apply accepted_inv in A.
  destruct A as (A1 & A2 & A3 & A4).
  exists sc, ct, ("https://www.g2.com/products/" ++ g2Slug ++ "/reviews")%string.
  repeat split; trivial; [now exists g2Slug|].
  apply orStr_not_empty. discriminate.
Qed.

Lemma processCapterra_item (mappings : Mappings) (previous : Snapshot) (today : string)
    (item : RawItem) (v : string) (src : ReviewSource) :
  processCapterra mappings previous today item = Some (v, src) ->
  exists sc ct found,
    resolve mappings Capterra item = Some v
    /\ ratingOf Capterra item = JNumber sc /\ Number_isFinite sc = true
    /\ countOf item = JNumber ct /\ (0 <? ct)%float = true
    /\ fallbackUrl Capterra item found
    /\ src = makeSource previous today v "capterra" sc ct
               (orStr (getMappedUrl mappings v Capterra) found)
    /\ orStr (getMappedUrl mappings v Capterra) found <> "".
Proof.
  intros H. pose proof (processCapterra_inv _ _ _ _ _ _ H) as (_ & _ & R).
  revert H. unfold processCapterra, fallbackUrl, ratingOf, countOf, itemUrl.
  destruct (extractCapterraSlug _) as [capterraSlug|] eqn:X; [|discriminate].
  destruct (mapToVendorSlug capterraSlug Capterra mappings) as [v'|]; [|discriminate].
  destruct (strTruthy v'); simpl; [|discriminate].
  destruct (accepted _ _) as [[sc ct]|] eqn:A; [|discriminate].
  intros H. inversion H. subst. apply accepted_inv in A.
  destruct A as (A1 & A2 & A3 & A4).
  eexists sc, ct, _. repeat split; trivial.
  apply orStr_not_empty. eapply extractCapterraSlug_nonempty, X.
Qed.

(** Every source the aggregator stores comes from an item of the dump of
    its platform that resolves to the vendor: it has the name of the
    platform, as score the rating of the item, a finite number, rounded to
    one decimal place, as count the count of the item, which is greater
    than zero, and as URL the URL the mappings give for the vendor and the
    platform or, when they give none, the G2 review page of the product,
    respectively the URL of the Capterra item; the URL is never empty. *)
Theorem stored_source_fields (mappings : Mappings) (previous : Snapshot) (today : string)
    (g2Raw capterraRaw : option (list RawItem)) (slug : string) (rec : AggregatedReview)
    (src : ReviewSource) :
  In (slug, rec) (aggregate mappings previous today g2Raw capterraRaw) ->
  In src (sources rec) ->
  exists p items item sc ct found,
    dumpOf p g2Raw capterraRaw = Some items /\ In item items
    /\ resolve mappings p item = Some slug
    /\ ratingOf p item = JNumber sc /\ Number_isFinite sc = true
    /\ countOf item = JNumber ct /\ (0 <? ct)%float = true
    /\ fallbackUrl p item found
    /\ source src = platformName p
    /\ score src = (Math_round (sc * 10) / 10)%float
    /\ count src = ct
    /\ url src = orStr (getMappedUrl mappings slug p) found
    /\ url src <> "".
Proof.
  intros H I. apply aggregate_In in H. subst rec. rewrite vendorRecord_sources in I.
  apply (Permutation_in _ (sortSources_perm _)) in I.
  unfold collected in I. apply in_app_iff in I.
  destruct I as [I|I]; apply sourcesFor_In, emitted_In in I;
    destruct I as (items & item & D & J & I).
  - apply processG2_item in I.
    destruct I as (sc & ct & found & R & A1 & A2 & A3 & A4 & U & -> & N).
    exists G2, items, item, sc, ct, found. now repeat split.
  - apply processCapterra_item in I.
    destruct I as (sc & ct & found & R & A1 & A2 & A3 & A4 & U & -> & N).
    exists Capterra, items, item, sc, ct, found. now repeat split.
Qed.

Lemma stored_source_fields_witness :
  Forall (fun src =>
            exists p items item sc ct found,
              dumpOf p (Some [Scenarios.g2Item 4.0 10])
                     (Some [Scenarios.capterraItem 4.5 20]) = Some items
              /\ In item items
              /\ resolve Scenarios.osmindMappings p item = Some "osmind"
              /\ ratingOf p item = JNumber sc /\ Number_isFinite sc = true
              /\ countOf item = JNumber ct /\ (0 <? ct)%float = true
              /\ fallbackUrl p item found
              /\ source src = platformName p
              /\ score src = (Math_round (sc * 10) / 10)%float
              /\ count src = ct
              /\ url src = orStr (getMappedUrl Scenarios.osmindMappings "osmind" p) found
              /\ url src <> "")
         (sources (Scenarios.recordOf Scenarios.endToEnd "osmind")).
Proof.
  apply Forall_forall. intros src I.
  apply (stored_source_fields Scenarios.osmindMappings [] Scenarios.day1
           (Some [Scenarios.g2Item 4.0 10]) (Some [Scenarios.capterraItem 4.5 20])
           "osmind" (Scenarios.recordOf Scenarios.endToEnd "osmind")).
  - left. vm_compute. reflexivity.
  - exact I.
Defined.

End StoredSources.

(** ** Sums of counts are numbers *)

Section NonNegativeSums.
Import Js Reviews ReviewsSpec ReviewsMore.

Lemma shr_1_nonneg (mrs : shr_record) : (0 <= shr_m mrs)%Z -> (0 <= shr_m (shr_1 mrs))%Z.
Proof.
  destruct mrs as [m r s]. simpl. intros H.
  destruct m as [|p|p]; [simpl; lia | | lia]. destruct p; simpl; lia.
Qed.

Lemma iter_shr_1_nonneg (p : positive) (mrs : shr_record) :
  (0 <= shr_m mrs)%Z -> (0 <= shr_m (iter_pos shr_1 p mrs))%Z.
Proof.
  revert mrs. induction p as [p IH|p IH|]; intros mrs H; simpl.
  - apply IH, IH. now apply shr_1_nonneg.
  - apply IH, IH, H.
  - now apply shr_1_nonneg.
Qed.

Lemma shr_fexp_nonneg (m e : Z) (l : location) :
  (0 <= m)%Z -> (0 <= shr_m (fst (shr_fexp prec emax m e l)))%Z.
Proof.
  intros H. unfold shr_fexp, shr.
  assert (R : (0 <= shr_m (shr_record_of_loc m l))%Z)
    by (destruct l as [|[]]; exact H).
  destruct (_ - e)%Z; simpl; trivial. now apply iter_shr_1_nonneg.
Qed.

Lemma round_nearest_even_nonneg (m : Z) (l : location) :
  (0 <= m)%Z -> (0 <= round_nearest_even m l)%Z.
Proof.
  intros H. unfold round_nearest_even.
  destruct l as [|[]]; try destruct (Z.even m); lia.
Qed.

(** Rounding a non-negative mantissa gives a zero, a finite value or an
    infinity of the requested sign, never [NaN]. *)
Lemma binary_round_aux_positive (mx ex : Z) (lx : location) :
  (0 <= mx)%Z -> nonNegativeSF (binary_round_aux prec emax false mx ex lx) = true.
Proof.
  intros H. unfold binary_round_aux.
  pose proof (shr_fexp_nonneg mx ex lx H) as A.
  destruct (shr_fexp prec emax mx ex lx) as [mrs' e']. simpl in A.
  pose proof (shr_fexp_nonneg _ e' loc_Exact
                (round_nearest_even_nonneg _ (loc_of_shr_record mrs') A)) as B.
  destruct (shr_fexp prec emax _ e' loc_Exact) as [mrs'' e'']. simpl in B.
  destruct (shr_m mrs'') as [|p|p]; [reflexivity | | lia].
  now destruct (e'' <=? emax - prec)%Z.
Qed.

Lemma SFadd_nonneg (x y : spec_float) :
  nonNegativeSF x = true -> nonNegativeSF y = true ->
  nonNegativeSF (SF64add x y) = true.
Proof.
  destruct x as [sx|sx| |sx mx ex], y as [sy|sy| |sy my ey]; simpl;
    try discriminate; try (destruct sx, sy; simpl; trivial; discriminate);
    try (destruct sx; simpl; trivial; discriminate);
    try (destruct sy; simpl; trivial; discriminate).
  destruct sx, sy; simpl; try discriminate. intros _ _.
  unfold SF64add, SFadd, binary_normalize, binary_round. simpl.
  destruct (shl_align _ _ _) as [mz ez]. now apply binary_round_aux_positive.
Qed.

Lemma positive_nonneg (c : float) :
  (0 <? c)%float = true -> nonNegativeSF (Prim2SF c) = true.
Proof.
  rewrite FloatAxioms.ltb_spec. change (Prim2SF 0) with (S754_zero false).
  destruct (Prim2SF c) as [s|s| |s m e]; try destruct s; trivial; discriminate.
Qed.

Lemma nonneg_leb (x : float) :
  nonNegativeSF (Prim2SF x) = true -> nonNegative x = true /\ strictEq x x = true.
Proof.
  unfold nonNegative, strictEq. rewrite FloatAxioms.leb_spec, FloatAxioms.eqb_spec.
  change (Prim2SF 0) with (S754_zero false).
  destruct (Prim2SF x) as [s|s| |s m e]; try destruct s; try discriminate;
    intros _; split; trivial.
  unfold SFeqb, SFcompare. now rewrite Z.compare_refl, Pos.compare_cont_refl.
Qed.

Lemma sum_nonneg (l : list ReviewSource) (a : float) :
  Forall (fun s => (0 <? count s)%float = true) l ->
  nonNegativeSF (Prim2SF a) = true ->
  nonNegativeSF (Prim2SF (fold_left (fun sum s => (sum + count s)%float) l a)) = true.
Proof.
  intros H. revert a. induction H as [|x t P _ IH]; intros a A; simpl; trivial.
  apply IH. rewrite FloatAxioms.add_spec. apply SFadd_nonneg; trivial.
  now apply positive_nonneg.
Qed.

End NonNegativeSums.

Section PositiveSums.
Import Js Reviews ReviewsSpec ReviewsMore.

Lemma shr_1_half (mrs : shr_record) :
  (0 <= shr_m mrs)%Z -> shr_m (shr_1 mrs) = (shr_m mrs / 2)%Z.
Proof.
  destruct mrs as [m r s]. simpl. intros H. rewrite <- Z.div2_div.
  destruct m as [|p|p]; [reflexivity | | lia]. destruct p; reflexivity.
Qed.

Lemma iter_shr_1_div (p : positive) (mrs : shr_record) :
  (0 <= shr_m mrs)%Z ->
  shr_m (iter_pos shr_1 p mrs) = (shr_m mrs / 2 ^ Z.pos p)%Z.
Proof.
  revert mrs. induction p as [p IH|p IH|]; intros mrs H; cbn [iter_pos].
  - rewrite IH by (apply iter_shr_1_nonneg; now apply shr_1_nonneg).
    rewrite IH by (now apply shr_1_nonneg). rewrite shr_1_half by exact H.
    rewrite !Z.div_div by lia. f_equal.
    replace (Z.pos p~1) with (1 + Z.pos p + Z.pos p)%Z by lia.
    rewrite !Z.pow_add_r by lia. lia.
  - rewrite IH by (now apply iter_shr_1_nonneg). rewrite IH by exact H.
    rewrite Z.div_div by lia. f_equal.
    replace (Z.pos p~0) with (Z.pos p + Z.pos p)%Z by lia.
    rewrite Z.pow_add_r by lia. reflexivity.
  - rewrite shr_1_half by exact H. reflexivity.
Qed.

Lemma digits2_pos_le (m : positive) : (2 ^ (Z.pos (digits2_pos m) - 1) <= Z.pos m)%Z.
Proof.
  induction m as [m IH|m IH|]; cbn [digits2_pos]; [| |simpl; lia].
  - rewrite Pos2Z.inj_succ. replace (Z.succ (Z.pos (digits2_pos m)) - 1)%Z
      with (1 + (Z.pos (digits2_pos m) - 1))%Z by lia.
    rewrite Z.pow_add_r by lia. lia.
  - rewrite Pos2Z.inj_succ. replace (Z.succ (Z.pos (digits2_pos m)) - 1)%Z
      with (1 + (Z.pos (digits2_pos m) - 1))%Z by lia.
    rewrite Z.pow_add_r by lia. lia.
Qed.

Lemma shifted_positive (m p : positive) :
  (Z.pos p < Z.pos (digits2_pos m))%Z -> (0 < Z.pos m / 2 ^ Z.pos p)%Z.
Proof.
  intros H. apply Z.div_str_pos. split; [apply Z.pow_pos_nonneg; lia|].
  eapply Z.le_trans; [|apply digits2_pos_le].
  apply Z.pow_le_mono_r; lia.
Qed.

Lemma shr_fexp_positive (m : positive) (e : Z) (l : location) :
  (emin <= e)%Z ->
  (0 < shr_m (fst (shr_fexp prec emax (Z.pos m) e l)))%Z
  /\ (emin <= snd (shr_fexp prec emax (Z.pos m) e l))%Z.
Proof.
  intros E. unfold shr_fexp, shr.
  assert (R : shr_m (shr_record_of_loc (Z.pos m) l) = Z.pos m)
    by (destruct l as [|[]]; reflexivity).
  destruct (fexp prec emax (Zdigits2 (Z.pos m) + e) - e)%Z as [|p|p] eqn:N;
    cbn [fst snd]; try (rewrite R; split; [lia | exact E]).
  rewrite iter_shr_1_div by (rewrite R; lia). rewrite R.
  unfold fexp, SpecFloat.emin, prec, emax in *. cbn [Zdigits2] in N.
  split; [apply shifted_positive|]; lia.
Qed.

(** Rounding a positive mantissa at an exponent that is not below the
    smallest one never gives zero. *)
Lemma binary_round_aux_strict (m : positive) (e : Z) (l : location) :
  (emin <= e)%Z ->
  positiveSF (binary_round_aux prec emax false (Z.pos m) e l) = true.
Proof.
  intros E. unfold binary_round_aux.
  destruct (shr_fexp_positive m e l E) as [A E'].
  destruct (shr_fexp prec emax (Z.pos m) e l) as [mrs' e']. cbn [fst snd] in A, E'.
  pose proof (round_nearest_even_nonneg (shr_m mrs') (loc_of_shr_record mrs')) as B.
  assert (C : (0 < round_nearest_even (shr_m mrs') (loc_of_shr_record mrs'))%Z).
  { unfold round_nearest_even. destruct (loc_of_shr_record mrs') as [|[]];
      try destruct (Z.even _); lia. }
  destruct (round_nearest_even (shr_m mrs') (loc_of_shr_record mrs')) as [|m2|m2];
    try lia.
  destruct (shr_fexp_positive m2 e' loc_Exact E') as [D _].
  destruct (shr_fexp prec emax (Z.pos m2) e' loc_Exact) as [mrs'' e'']. cbn [fst] in D.
  destruct (shr_m mrs'') as [|q|q]; try lia.
  now destruct (e'' <=? emax - prec)%Z.
Qed.

Lemma valid_exponent (s : bool) (m : positive) (e : Z) :
  valid_binary (S754_finite s m e) = true -> (emin <= e)%Z.
Proof.
  unfold valid_binary, bounded, canonical_mantissa. intros H.
  apply andb_true_iff in H. destruct H as [H _]. apply Z.eqb_eq in H.
  unfold fexp in H. lia.
Qed.

Lemma SFadd_positive (x y : spec_float) :
  valid_binary x = true -> valid_binary y = true ->
  nonNegativeSF x = true -> positiveSF y = true ->
  positiveSF (SF64add x y) = true.
Proof.
  intros Vx Vy.
  destruct x as [sx|sx| |sx mx ex], y as [sy|sy| |sy my ey]; simpl;
    try discriminate; try (destruct sx, sy; simpl; trivial; discriminate);
    try (destruct sx; simpl; trivial; discriminate);
    try (destruct sy; simpl; trivial; discriminate).
  destruct sx, sy; simpl; try discriminate. intros _ _.
  apply valid_exponent in Vx, Vy.
  change (IntDef.Z.min ex ey) with (Z.min ex ey).
  set (ez := Z.min ex ey). set (mz := (_ + _)%positive).
  assert (Ez : (emin <= ez)%Z) by (unfold ez; lia).
  unfold binary_round, shl_align.
  destruct (fexp prec emax (Z.pos (digits2_pos mz) + ez) - ez)%Z eqn:N;
    apply binary_round_aux_strict; trivial.
  unfold fexp. lia.
Qed.

Lemma positive_strict (c : float) :
  (0 <? c)%float = true <-> positiveSF (Prim2SF c) = true.
Proof.
  rewrite FloatAxioms.ltb_spec. change (Prim2SF 0) with (S754_zero false).
  destruct (Prim2SF c) as [s|s| |s m e]; try destruct s; simpl;
    split; trivial; discriminate.
Qed.

Lemma positive_is_nonneg (x : spec_float) : positiveSF x = true -> nonNegativeSF x = true.
Proof. destruct x as [s|s| |s m e]; try destruct s; trivial; discriminate. Qed.

Lemma sum_positive (l : list ReviewSource) (a : float) :
  Forall (fun s => (0 <? count s)%float = true) l ->
  nonNegativeSF (Prim2SF a) = true ->
  l <> [] \/ positiveSF (Prim2SF a) = true ->
  positiveSF (Prim2SF (fold_left (fun sum s => (sum + count s)%float) l a)) = true.
Proof.
  intros H. revert a. induction H as [|x t P _ IH]; intros a A N; simpl.
  - destruct N as [N|N]; [congruence | exact N].
  - assert (S : positiveSF (Prim2SF (a + count x)) = true).
    { rewrite FloatAxioms.add_spec.
      apply SFadd_positive; trivial; try apply FloatAxioms.Prim2SF_valid.
      now apply positive_strict. }
    apply IH; [now apply positive_is_nonneg | now right].
Qed.

(** A record has a [null] aggregate score exactly when it has no source,
    and then its total is zero; the total count of a record that has a
    source is a positive number. *)
Theorem score_present_iff_sources (mappings : Mappings) (previous : Snapshot)
    (today : string) (g2Raw capterraRaw : option (list RawItem)) (slug : string)
    (rec : AggregatedReview) :
  In (slug, rec) (aggregate mappings previous today g2Raw capterraRaw) ->
  (aggregateScore rec = None <-> sources rec = [])
  /\ (sources rec = [] -> totalCount rec = 0%float)
  /\ (sources rec <> [] -> (0 <? totalCount rec)%float = true).
Proof.
  intros H. apply aggregate_In in H. subst rec.
  pose proof (vendorRecord_counts_positive mappings previous today g2Raw capterraRaw slug)
    as P.
  rewrite vendorRecord_fields in *. cbv zeta in *. cbn [aggregateScore totalCount sources] in *.
  set (l := sortSources _) in *.
  assert (S : l <> [] ->
              (0 <? fold_left (fun sum s => (sum + count s)%float) l 0)%float = true).
  { intros N. apply positive_strict. apply sum_positive; trivial. now left. }
  split; [|split; [intros ->; reflexivity | exact S]].
  rewrite (calculateAggregate_spec l P). unfold jsSum.
  rewrite <- fold_left_map_add.
  destruct l as [|x t] eqn:L; [now split|].
  assert (N : x :: t <> []) by discriminate.
  apply S, positive_strict in N. unfold strictEq.
  rewrite FloatAxioms.eqb_spec. change (Prim2SF 0) with (S754_zero false).
  destruct (Prim2SF _) as [s|s| |s m e]; try destruct s; try discriminate N;
    simpl; split; discriminate.
Qed.

Lemma score_present_iff_sources_witness :
  sources (Scenarios.recordOf Scenarios.threeSources "osmind") <> []
  /\ aggregateScore (Scenarios.recordOf Scenarios.threeSources "osmind") <> None
  /\ (0 <? totalCount (Scenarios.recordOf Scenarios.threeSources "osmind"))%float = true.
Proof.
  destruct (score_present_iff_sources Scenarios.osmindMappings [] Scenarios.day1
              (Some [Scenarios.g2Item 3.4 3; Scenarios.g2Item 4.6 3])
              (Some [Scenarios.capterraItem 3.0 2]) "osmind"
              (Scenarios.recordOf Scenarios.threeSources "osmind")) as (A & _ & C).
  - left. vm_compute. reflexivity.
  - assert (N : sources (Scenarios.recordOf Scenarios.threeSources "osmind") <> [])
      by (vm_compute; discriminate).
    split; [exact N|]. split; [|exact (C N)].
    intros E. apply N. now apply A.
Defined.

End PositiveSums.

(** * Slug extraction and vendor lookup *)

Section SlugExtraction.
Import Js Reviews Text.
#[local] Open Scope string_scope.

Lemma dropPrefix_Some (p s rest : string) :
  dropPrefix p s = Some rest <-> s = p ++ rest.
Proof.
  revert s. induction p as [|a p IH]; intros s; simpl.
  - split; [intros H; now inversion H | intros ->; reflexivity].
  - destruct s as [|b s]; [split; discriminate|].
    destruct (a =? b)%char eqn:E.
    + apply Ascii.eqb_eq in E. subst b. rewrite IH.
      split; [intros ->; reflexivity | intros H; now inversion H].
    + apply Ascii.eqb_neq in E. split; [discriminate|].
      intros H. inversion H. congruence.
Qed.

Lemma takeWhile_dropWhile (f : ascii -> bool) (s : string) :
  s = takeWhile f s ++ dropWhile f s.
Proof.
  induction s as [|c t IH]; simpl; [reflexivity|].
  destruct (f c); simpl; [now rewrite <- IH | reflexivity].
Qed.

Lemma takeWhile_all (f : ascii -> bool) (s : string) : allChars f (takeWhile f s) = true.
Proof.
  induction s as [|c t IH]; simpl; [reflexivity|].
  destruct (f c) eqn:E; simpl; [now rewrite E | reflexivity].
Qed.

Lemma dropWhile_head (f : ascii -> bool) (s : string) :
  dropWhile f s = "" \/ exists c t, dropWhile f s = String c t /\ f c = false.
Proof.
  induction s as [|c t IH]; simpl; [now left|].
  destruct (f c) eqn:E; [exact IH | right; now exists c, t].
Qed.

Lemma extractG2Slug_step (url : string) :
  extractG2Slug url
  = match dropPrefix "g2.com/products/" url with
    | Some rest =>
        if strTruthy (takeWhile notSlash rest) then Some (takeWhile notSlash rest)
        else match url with
             | EmptyString => None
             | String _ t => extractG2Slug t
             end
    | None => match url with
              | EmptyString => None
              | String _ t => extractG2Slug t
              end
    end.
Proof.
  destruct url as [|a t]; [reflexivity|]. cbn [extractG2Slug].
  destruct (dropPrefix _ (String a t)) as [rest|]; [|reflexivity].
  now destruct (strTruthy (takeWhile notSlash rest)).
Qed.

Lemma notSlash_false (c : ascii) : notSlash c = false <-> c = "/"%char.
Proof. unfold notSlash. rewrite negb_false_iff. apply Ascii.eqb_eq. Qed.

(** What [extractG2Slug] returns: the characters that follow an occurrence
    of [g2.com/products/] in the URL up to the next slash or the end, never
    an empty slug; and it returns nothing exactly when no occurrence of the
    literal is followed by a character other than a slash. *)
Theorem extractG2Slug_spec (url : string) :
  (forall slug,
      extractG2Slug url = Some slug ->
      slug <> "" /\ allChars notSlash slug = true
      /\ exists pre post,
           url = pre ++ "g2.com/products/" ++ slug ++ post
           /\ (post = "" \/ exists rest, post = String "/" rest))
  /\ (extractG2Slug url = None <->
      ~ exists pre c rest,
          url = pre ++ "g2.com/products/" ++ String c rest /\ c <> "/"%char).
Proof.
  split.
  - induction url as [|a t IH]; intros slug; rewrite extractG2Slug_step.
    + discriminate.
    + destruct (dropPrefix _ (String a t)) as [rest|] eqn:D.
      * destruct (strTruthy (takeWhile notSlash rest)) eqn:T.
        -- intros H. inversion H. subst slug. apply dropPrefix_Some in D.
           split; [now apply strTruthy_iff|]. split; [apply takeWhile_all|].
           exists "", (dropWhile notSlash rest). split.
           ++ simpl. rewrite D. simpl. do 16 f_equal. apply takeWhile_dropWhile.
           ++ destruct (dropWhile_head notSlash rest) as [E|(c & r & E & F)];
                [now left|]. right. exists r. apply notSlash_false in F. now subst.
        -- intros H. destruct (IH slug H) as (N & A & pre & post & E & P).
           repeat split; trivial. exists (String a pre), post. now rewrite E.
      * intros H. destruct (IH slug H) as (N & A & pre & post & E & P).
        repeat split; trivial. exists (String a pre), post. now rewrite E.
  - split.
    + intros N (pre & c & rest & E & C). subst url. revert N.
      induction pre as [|a pre IH]; rewrite extractG2Slug_step.
      * simpl. unfold notSlash at 1. apply Ascii.eqb_neq in C.
        rewrite C. simpl. discriminate.
      * destruct (dropPrefix _ _) as [r|]; [|exact IH].
        destruct (strTruthy _); [discriminate | exact IH].
    + intros N. destruct (extractG2Slug url) as [slug|] eqn:X; [|reflexivity].
      elim N. induction url as [|a t IH]; rewrite extractG2Slug_step in X.
      * discriminate X.
      * assert (R : extractG2Slug t = Some slug ->
                    exists pre c rest,
                      String a t = pre ++ "g2.com/products/" ++ String c rest
                      /\ c <> "/"%char).
        { intros Y. destruct IH as (pre & c & rest & E & C); trivial.
          - intros (pre & c & rest & E & C). apply N.
            exists (String a pre), c, rest. now rewrite E.
          - exists (String a pre), c, rest. now rewrite E. }
        destruct (dropPrefix _ (String a t)) as [rest|] eqn:D; [|now apply R].
        destruct (strTruthy (takeWhile notSlash rest)) eqn:T; [|now apply R].
        apply dropPrefix_Some in D. apply strTruthy_iff in T.
        destruct rest as [|c r]; [now elim T|]. simpl in T.
        destruct (notSlash c) eqn:F; [|now elim T].
        exists "", c, r. split; [exact D|]. intros ->. discriminate F.
Qed.

End SlugExtraction.

Section LowerCase.
Import Js Text.

Lemma lowerChar_notUpper (c : ascii) : isUpper (lowerChar c) = false.
Proof. destruct c as [[] [] [] [] [] [] [] []]; reflexivity. Qed.

Lemma lowerChar_idem (c : ascii) : lowerChar (lowerChar c) = lowerChar c.
Proof. destruct c as [[] [] [] [] [] [] [] []]; reflexivity. Qed.

Lemma lowerChar_slash (c : ascii) : (lowerChar c =? "/")%char = (c =? "/")%char.
Proof. destruct c as [[] [] [] [] [] [] [] []]; reflexivity. Qed.

Lemma toLowerCase_idem (s : string) : toLowerCase (toLowerCase s) = toLowerCase s.
Proof.
  induction s as [|c t IH]; simpl; [reflexivity|]. now rewrite lowerChar_idem, IH.
Qed.

Lemma toLowerCase_lower (s : string) : allChars notUpper (toLowerCase s) = true.
Proof.
  induction s as [|c t IH]; simpl; [reflexivity|].
  unfold notUpper at 1. now rewrite lowerChar_notUpper, IH.
Qed.

Lemma toLowerCase_empty (s : string) : toLowerCase s = "" <-> s = "".
Proof. destruct s; simpl; split; trivial; discriminate. Qed.

End LowerCase.

Section CapterraExtraction.
Import Js Reviews Text.
#[local] Open Scope string_scope.

Lemma toLowerCase_notSlash (s : string) :
  allChars notSlash (toLowerCase s) = allChars notSlash s.
Proof.
  induction s as [|c t IH]; simpl; [reflexivity|].
  unfold notSlash at 1 3. now rewrite lowerChar_slash, IH.
Qed.

(** What [extractCapterraSlug] returns: after an occurrence of
    [capterra.com/p/], one or more digits and a slash, the characters up to
    the next slash or the end, lower-cased; the slug is never empty and has
    no upper-case letter. *)
Theorem extractCapterraSlug_spec (url slug : string) :
  extractCapterraSlug url = Some slug ->
  slug <> "" /\ allChars notSlash slug = true /\ allChars notUpper slug = true
  /\ exists pre digits raw post,
       url = pre ++ "capterra.com/p/" ++ digits ++ "/" ++ raw ++ post
       /\ digits <> "" /\ allChars isDigit digits = true
       /\ slug = toLowerCase raw
       /\ (post = "" \/ exists rest, post = String "/" rest).
Proof.
  induction url as [|a t IH]; [discriminate|].
  assert (R : extractCapterraSlug t = Some slug ->
              slug <> "" /\ allChars notSlash slug = true
              /\ allChars notUpper slug = true
              /\ exists pre digits raw post,
                   String a t = pre ++ "capterra.com/p/" ++ digits ++ "/" ++ raw ++ post
                   /\ digits <> "" /\ allChars isDigit digits = true
                   /\ slug = toLowerCase raw
                   /\ (post = "" \/ exists rest, post = String "/" rest)).
  { intros Y. destruct (IH Y) as (N & A & U & pre & digits & raw & post & E & Q).
    repeat split; trivial. exists (String a pre), digits, raw, post.
    split; [now rewrite E | exact Q]. }
  cbn [extractCapterraSlug].
  destruct (dropPrefix "capterra.com/p/" (String a t)) as [rest|] eqn:D; [|exact R].
  destruct (strTruthy (takeWhile isDigit rest)) eqn:T; [|exact R].
  destruct (dropPrefix "/" (dropWhile isDigit rest)) as [rest'|] eqn:D'; [|exact R].
  destruct (strTruthy (takeWhile notSlash rest')) eqn:T'; [|exact R].
  intros H. inversion H. clear H R IH.
  apply dropPrefix_Some in D, D'. apply strTruthy_iff in T, T'.
  split; [now rewrite toLowerCase_empty|].
  split; [rewrite toLowerCase_notSlash; apply takeWhile_all|].
  split; [apply toLowerCase_lower|].
  exists "", (takeWhile isDigit rest), (takeWhile notSlash rest'),
    (dropWhile notSlash rest').
  split; [|split; [exact T|split; [apply takeWhile_all|split; [reflexivity|]]]].
  - rewrite D. change ("" ++ ?x) with x. f_equal.
    rewrite (takeWhile_dropWhile isDigit rest) at 1. rewrite D'.
    now rewrite <- (takeWhile_dropWhile notSlash rest').
  - destruct (dropWhile_head notSlash rest') as [E|(c & r & E & F)]; [now left|].
    right. exists r. apply notSlash_false in F. now subst.
Qed.

Lemma extractCapterraSlug_spec_witness :
  extractCapterraSlug Scenarios.capterraUrl = Some "osmind"
  /\ allChars notUpper "osmind" = true.
Proof.
  split; [reflexivity|].
  exact (proj1 (proj2 (proj2 (extractCapterraSlug_spec Scenarios.capterraUrl "osmind"
                                eq_refl)))).
Defined.

End CapterraExtraction.

Section VendorLookup.
Import Js Reviews ReviewsSpec.
#[local] Open Scope string_scope.

(** [mapToVendorSlug] returns the first vendor, in the order of the
    mappings, whose mapping for the platform has a non-empty slug equal to
    the platform slug up to letter case; and the case of the platform slug
    does not matter. *)
Theorem mapToVendorSlug_spec (platformSlug : string) (p : Platform) (ms : Mappings)
    (v : string) :
  (mapToVendorSlug platformSlug p ms = Some v <->
   exists before m pm after,
     ms = (before ++ (v, m) :: after)%list
     /\ platformMapping m p = Some pm
     /\ pm_slug pm <> ""
     /\ toLowerCase (pm_slug pm) = toLowerCase platformSlug
     /\ forall v' m' pm',
          In (v', m') before -> platformMapping m' p = Some pm' ->
          pm_slug pm' = "" \/ toLowerCase (pm_slug pm') <> toLowerCase platformSlug)
  /\ mapToVendorSlug (toLowerCase platformSlug) p ms = mapToVendorSlug platformSlug p ms.
Proof.
  split.
  - split.
    + induction ms as [|[k m] rest IH]; [discriminate|]. simpl.
      destruct (platformMapping m p) as [pm|] eqn:M.
      * destruct (strTruthy (pm_slug pm)) eqn:T; simpl.
        -- destruct (toLowerCase (pm_slug pm) =? toLowerCase platformSlug) eqn:E.
           ++ intros H. inversion H. subst k. exists [], m, pm, rest.
              apply strTruthy_iff in T. apply String.eqb_eq in E.
              repeat split; trivial. intros v' m' pm' [].
           ++ intros H. destruct (IH H) as (b & m0 & pm0 & a & -> & Q1 & Q2 & Q3 & Q4).
              exists ((k, m) :: b), m0, pm0, a. repeat split; trivial.
              intros v' m' pm' [X|X] Y; [|now apply (Q4 v' m' pm')].
              inversion X. subst. rewrite M in Y. inversion Y. subst.
              right. now apply String.eqb_neq.
        -- intros H. destruct (IH H) as (b & m0 & pm0 & a & -> & Q1 & Q2 & Q3 & Q4).
           exists ((k, m) :: b), m0, pm0, a. repeat split; trivial.
           intros v' m' pm' [X|X] Y; [|now apply (Q4 v' m' pm')].
           inversion X. subst. rewrite M in Y. inversion Y. subst.
           left. destruct (pm_slug pm'); [reflexivity | discriminate T].
      * intros H. destruct (IH H) as (b & m0 & pm0 & a & -> & Q1 & Q2 & Q3 & Q4).
        exists ((k, m) :: b), m0, pm0, a. repeat split; trivial.
        intros v' m' pm' [X|X] Y; [|now apply (Q4 v' m' pm')].
        inversion X. subst. rewrite M in Y. discriminate Y.
    + intros (b & m & pm & a & -> & Q1 & Q2 & Q3 & Q4).
      induction b as [|[k m0] b IH]; simpl.
      * rewrite Q1, Q3, String.eqb_refl. apply strTruthy_iff in Q2. now rewrite Q2.
      * destruct (platformMapping m0 p) as [pm0|] eqn:M.
        -- destruct (Q4 k m0 pm0 (or_introl eq_refl) M) as [E|E].
           ++ rewrite E. simpl. apply IH. intros v' m' pm' I. apply (Q4 v' m' pm'). now right.
           ++ apply String.eqb_neq in E. rewrite E, andb_false_r.
              apply IH. intros v' m' pm' I. apply (Q4 v' m' pm'). now right.
        -- apply IH. intros v' m' pm' I. apply (Q4 v' m' pm'). now right.
  - induction ms as [|[k m] rest IH]; [reflexivity|]. simpl.
    now rewrite toLowerCase_idem, IH.
Qed.

End VendorLookup.

(** * The aggregator's output under the validator *)

Section ValidatedOutput.
Import Js Reviews ReviewsSpec ReviewsMore Validate ValidateMore.

Lemma nonneg_not_negative (x : float) :
  nonNegativeSF (Prim2SF x) = true -> (x <? 0)%float = false.
Proof.
  rewrite FloatAxioms.ltb_spec. change (Prim2SF 0) with (S754_zero false).
  destruct (Prim2SF x) as [s|s| |s m e]; simpl; try discriminate; trivial;
    intros H; destruct s; try discriminate; reflexivity.
Qed.

Lemma positive_not_zero (x : float) :
  positiveSF (Prim2SF x) = true -> (x =? 0)%float = false.
Proof.
  rewrite FloatAxioms.eqb_spec. change (Prim2SF 0) with (S754_zero false).
  destruct (Prim2SF x) as [s|s| |s m e]; simpl; try discriminate;
    intros H; destruct s; try discriminate; reflexivity.
Qed.

Lemma Number_isFinite_SF (x : float) : Number_isFinite x = finiteSF (Prim2SF x).
Proof.
  unfold Number_isFinite. rewrite FloatAxioms.ltb_spec, FloatAxioms.abs_spec.
  change (Prim2SF infinity) with (S754_infinity false).
  destruct (Prim2SF x) as [s|s| |s m e]; try destruct s; reflexivity.
Qed.

Lemma SFadd_finite_inv (x y : spec_float) :
  nonNegativeSF x = true -> nonNegativeSF y = true ->
  finiteSF (SF64add x y) = true -> finiteSF x = true /\ finiteSF y = true.
Proof.
  destruct x as [sx|sx| |sx mx ex], y as [sy|sy| |sy my ey];
    try destruct sx; try destruct sy; simpl; try discriminate; intros _ _ H;
    try discriminate H; now split.
Qed.

Lemma sum_not_finite (l : list ReviewSource) (a : float) :
  Forall (fun s => (0 <? count s)%float = true) l ->
  nonNegativeSF (Prim2SF a) = true ->
  finiteSF (Prim2SF a) = false ->
  finiteSF (Prim2SF (fold_left (fun sum s => (sum + count s)%float) l a)) = false.
Proof.
  intros H. revert a. induction H as [|x t P _ IH]; intros a A F; [exact F|].
  cbn [fold_left]. pose proof (positive_nonneg _ P) as X. apply IH.
  - rewrite FloatAxioms.add_spec. now apply SFadd_nonneg.
  - rewrite FloatAxioms.add_spec.
    destruct (finiteSF (SF64add (Prim2SF a) (Prim2SF (count x)))) eqn:S; [|reflexivity].
    apply SFadd_finite_inv in S; trivial. destruct S as [S _]. congruence.
Qed.

(** A finite sum of positive counts has finite terms. *)
Lemma sum_finite_inv (l : list ReviewSource) (a : float) :
  Forall (fun s => (0 <? count s)%float = true) l ->
  nonNegativeSF (Prim2SF a) = true ->
  Number_isFinite (fold_left (fun sum s => (sum + count s)%float) l a) = true ->
  Forall (fun s => Number_isFinite (count s) = true) l.
Proof.
  intros H. revert a. induction H as [|x t P H IH]; intros a A F; [constructor|].
  cbn [fold_left] in F. pose proof (positive_nonneg _ P) as X.
  assert (A' : nonNegativeSF (Prim2SF (a + count x)) = true)
    by (rewrite FloatAxioms.add_spec; now apply SFadd_nonneg).
  constructor; [|now apply (IH (a + count x)%float)].
  rewrite Number_isFinite_SF in *.
  destruct (finiteSF (Prim2SF (a + count x))) eqn:S.
  - rewrite FloatAxioms.add_spec in S. now apply SFadd_finite_inv in S.
  - rewrite (sum_not_finite t _ H A' S) in F. discriminate F.
Qed.

Lemma jsonNumber_positive (c : float) :
  (0 <? c)%float = true -> Number_isFinite c = true -> jsonNumber c = Some c.
Proof.
  intros P F. unfold jsonNumber. rewrite F.
  now rewrite (positive_not_zero c (proj1 (positive_strict c) P)).
Qed.

Lemma checkSources_wellFormed (P : Problem -> Prop) (l : list ReviewSource) :
  Forall wellFormed l ->
  (forall i, P (SourceScoreInvalid i)) ->
  (forall i s, In s l -> isIsoDate (lastUpdated s) = false -> P (SourceDateInvalid i)) ->
  forall i errors total,
    Forall P errors ->
    Forall P (fst (checkSources i (map storeSource l) errors total))
    /\ snd (checkSources i (map storeSource l) errors total)
       = fold_left (fun sum s => (sum + count s)%float) l total.
Proof.
  intros W Sc. induction W as [|s t (N & C & F & U) _ IH]; intros Dt i errors total E.
  - now split.
  - cbn [map checkSources fold_left storeSource st_source st_score st_count st_url
         st_lastUpdated].
    rewrite N, (jsonNumber_positive _ C F). cbn [negb].
    rewrite (nonneg_not_negative (count s) (positive_nonneg _ C)).
    apply strTruthy_iff in U. rewrite U. cbn [negb].
    apply IH.
    + intros j x I. apply Dt. now right.
    + assert (E1 : Forall P (if outOfRange (jsonNumber (score s))
                             then errors ++ [SourceScoreInvalid i] else errors)).
      { destruct (outOfRange _); [|exact E]. apply Forall_app. split; [exact E|].
        constructor; [apply Sc | constructor]. }
      destruct (isIsoDate (lastUpdated s)) eqn:D; cbn [negb]; [exact E1|].
      apply Forall_app. split; [exact E1|].
      constructor; [|constructor]. apply (Dt i s); [now left | exact D].
Qed.

Lemma validateRecord_wellFormed (P : Problem -> Prop) (data : AggregatedReview) :
  Forall (fun s => validSource (source s) = true
                   /\ (0 <? count s)%float = true /\ url s <> "") (sources data) ->
  totalCount data = fold_left (fun sum s => (sum + count s)%float) (sources data) 0%float ->
  Number_isFinite (totalCount data) = true ->
  P AggregateNotNumber -> P AggregateOutOfRange ->
  (forall i, P (SourceScoreInvalid i)) ->
  (forall i s, In s (sources data) -> isIsoDate (lastUpdated s) = false ->
               P (SourceDateInvalid i)) ->
  (isIsoDate (lastAggregated data) = false -> P LastAggregatedInvalid) ->
  Forall P (validateRecord (store data)).
Proof.
  intros W0 T Fin A1 A2 Sc Dt La. unfold validateRecord, store.
  cbn [st_aggregateScore st_totalCount st_sources st_lastAggregated].
  assert (Pos : Forall (fun s => (0 <? count s)%float = true) (sources data)).
  { eapply Forall_impl; [|exact W0]. now intros s (_ & C & _). }
  pose proof (sum_nonneg (sources data) 0%float Pos eq_refl) as NN. rewrite <- T in NN.
  assert (W : Forall wellFormed (sources data)).
  { pose proof Fin as Fin'. rewrite T in Fin'.
    pose proof (sum_finite_inv (sources data) 0%float Pos eq_refl Fin') as FF.
    apply Forall_forall. intros s I.
    pose proof (proj1 (Forall_forall _ _) W0 s I) as (N & C & U).
    pose proof (proj1 (Forall_forall _ _) FF s I) as F.
    now repeat split. }
  assert (J : exists t, jsonNumber (totalCount data) = Some t
                        /\ strictEq t (totalCount data) = true
                        /\ (t <? 0)%float = false).
  { unfold jsonNumber. rewrite Fin.
    destruct (sources data) as [|x l] eqn:L.
    - rewrite T. exists 0%float. now repeat split.
    - assert (Q : positiveSF (Prim2SF (totalCount data)) = true).
      { rewrite T. apply sum_positive; trivial. left. discriminate. }
      rewrite (positive_not_zero _ Q). exists (totalCount data).
      split; [reflexivity|].
      split; [apply (nonneg_leb _ NN) | now apply nonneg_not_negative]. }
  destruct J as (t & -> & Q & Neg). cbn [notCount]. rewrite Neg.
  set (errors := match match aggregateScore data with
                       | Some x => jsonNumber x
                       | None => None
                       end with
                 | None => []
                 | Some x => _
                 end).
  assert (E : Forall P errors).
  { unfold errors. destruct (match aggregateScore data with
                             | Some x => jsonNumber x
                             | None => None
                             end) as [x|]; [|constructor].
    destruct (negb _); [now repeat constructor|].
    destruct (_ || _); now repeat constructor. }
  destruct (checkSources_wellFormed P (sources data) W Sc Dt 0%nat errors 0%float E)
    as [F S].
  destruct (checkSources 0 (map storeSource (sources data)) errors 0%float)
    as [errors' sourceTotal].
  cbn [fst snd] in F, S. subst sourceTotal. rewrite <- T, Q. cbn [negb].
  destruct (isIsoDate (lastAggregated data)) eqn:D; cbn [negb]; [exact F|].
  apply Forall_app. split; [exact F|]. constructor; [now apply La | constructor].
Qed.

(** The record of a vendor, written to [aggregated-reviews.json] and read
    back by the validator, when its total count is finite: the validator
    never reports a source name, a count, a URL, the total count or a
    mismatch between the total and the sum of the counts; the only errors
    it can report are about ratings and dates.  When the run date and the
    dates of the previous record are in the [YYYY-MM-DD] format, only the
    ratings are left. *)
Theorem validator_on_aggregator_output (mappings : Mappings) (previous : Snapshot)
    (today : string) (g2Raw capterraRaw : option (list RawItem)) (slug : string)
    (rec : AggregatedReview) :
  In (slug, rec) (aggregate mappings previous today g2Raw capterraRaw) ->
  Number_isFinite (totalCount rec) = true ->
  Forall (fun p => aboutRatingOrDate p = true) (validateRecord (store rec))
  /\ (isIsoDate today = true ->
      (forall p, lookup previous slug = Some p -> isoDated p) ->
      Forall (fun p => aboutRating p = true) (validateRecord (store rec))).
Proof.
  intros H Fin. pose proof H as H'. apply aggregate_In in H'.
  assert (W : Forall (fun s => validSource (source s) = true
                               /\ (0 <? count s)%float = true /\ url s <> "")
                     (sources rec)).
  { apply Forall_forall. intros src I.
    pose proof I as I'. rewrite H', vendorRecord_sources in I'.
    apply (Permutation_in _ (sortSources_perm _)) in I'.
    unfold collected in I'. apply in_app_iff in I'.
    destruct I' as [J|J]; apply sourcesFor_In, emitted_In in J;
      destruct J as (items & item & _ & _ & J).
    - apply processG2_full in J. destruct J as (sc & ct & u & N & U & ->).
      apply itemNumbers_inv in N. now repeat split.
    - apply processCapterra_full in J. destruct J as (sc & ct & u & N & U & ->).
      apply itemNumbers_inv in N. now repeat split. }
  assert (T : totalCount rec
              = fold_left (fun sum s => (sum + count s)%float) (sources rec) 0%float).
  { rewrite H', vendorRecord_fields. reflexivity. }
  split.
  - apply validateRecord_wellFormed; trivial.
  - intros D Prev. apply validateRecord_wellFormed; trivial.
    + intros i s I X. exfalso.
      assert (Y : isIsoDate (lastUpdated s) = true); [|congruence].
      rewrite H' in I. apply vendorRecord_made in I.
      destruct I as (name & sc & ct & u & -> & _). unfold makeSource. simpl.
      destruct (getPreviousSource previous slug name) as [p|] eqn:G; [|exact D].
      destruct (_ && _); [|exact D].
      unfold getPreviousSource in G.
      destruct (lookup previous slug) as [r|] eqn:L; [|discriminate].
      apply find_some in G. destruct G as [I _].
      destruct (Prev r eq_refl) as [_ F].
      now apply (proj1 (Forall_forall _ _) F).
    + intros X. exfalso.
      assert (Y : isIsoDate (lastAggregated rec) = true); [|congruence].
      rewrite H', vendorRecord_lastAggregated.
      destruct (changed _ _); [exact D|]. unfold carriedDate.
      destruct (lookup previous slug) as [p|] eqn:L; [|exact D].
      unfold orStr. destruct (strTruthy (lastAggregated p)); [|exact D].
      now destruct (Prev p eq_refl).
Qed.

Lemma validator_on_aggregator_output_witness :
  validateRecord (store (Scenarios.recordOf Scenarios.changedRun "osmind")) = []
  /\ Forall (fun p => aboutRating p = true)
            (validateRecord (store (Scenarios.recordOf Scenarios.changedRun "osmind"))).
Proof.
  split; [vm_compute; reflexivity|].
  apply (validator_on_aggregator_output Scenarios.osmindMappings Scenarios.endToEnd
           Scenarios.day2 (Some [Scenarios.g2Item 4.0 10])
           (Some [Scenarios.capterraItem 4.5 25]) "osmind").
  - left. vm_compute. reflexivity.
  - vm_compute. reflexivity.
  - reflexivity.
  - intros p L. vm_compute in L. injection L as <-. split.
    + reflexivity.
    + repeat constructor.
Defined.

End ValidatedOutput.

(** * A second run on the file of the first *)

Section RereadOutput.
Import Js Reviews ReviewsSpec Validate Stored.

Lemma strictEq_canon_l (x y : float) : strictEq (canon x) y = strictEq x y.
Proof.
  unfold canon, strictEq. destruct (x =? 0)%float eqn:Z; [|reflexivity].
  rewrite FloatAxioms.eqb_spec in Z. rewrite !FloatAxioms.eqb_spec.
  change (Prim2SF 0) with (S754_zero false) in *.
  destruct (Prim2SF x) as [s|s| |s m e]; try destruct s; try discriminate Z;
    destruct (Prim2SF y) as [t|t| |t n f]; try destruct t; reflexivity.
Qed.

Lemma finite_self_eq (x : float) : Number_isFinite x = true -> strictEq x x = true.
Proof.
  rewrite Number_isFinite_SF. unfold strictEq. rewrite FloatAxioms.eqb_spec.
  destruct (Prim2SF x) as [s|s| |s m e]; try discriminate; intros _.
  - reflexivity.
  - unfold SFeqb, SFcompare.
    destruct s; rewrite Z.compare_refl, Pos.compare_cont_refl; reflexivity.
Qed.

Lemma jsonNumber_Some (x y : float) :
  jsonNumber x = Some y -> Number_isFinite x = true /\ y = canon x.
Proof.
  unfold jsonNumber, canon. destruct (Number_isFinite x); [|discriminate].
  intros H. injection H as <-. now split.
Qed.

Lemma lookup_canon (P : Snapshot) (k : string) :
  lookup (canonSnapshot P) k = option_map canonReview (lookup P k).
Proof.
  induction P as [|[s r] rest IH]; [reflexivity|]. simpl.
  destruct (s =? k); [reflexivity | exact IH].
Qed.

Lemma find_canon (name : string) (l : list ReviewSource) :
  find (fun s => source s =? name) (map canonSource l)
  = option_map canonSource (find (fun s => source s =? name) l).
Proof.
  induction l as [|s rest IH]; [reflexivity|]. simpl.
  destruct (source s =? name); [reflexivity | exact IH].
Qed.

Lemma getPreviousSource_canon (P : Snapshot) (v name : string) :
  getPreviousSource (canonSnapshot P) v name
  = option_map canonSource (getPreviousSource P v name).
Proof.
  unfold getPreviousSource. rewrite lookup_canon.
  destruct (lookup P v) as [r|]; [|reflexivity]. simpl. apply find_canon.
Qed.

Lemma makeSource_canon (P : Snapshot) (today v name : string) (sc ct : float)
    (u : string) :
  makeSource (canonSnapshot P) today v name sc ct u = makeSource P today v name sc ct u.
Proof.
  unfold makeSource. rewrite getPreviousSource_canon.
  destruct (getPreviousSource P v name) as [p|]; [|reflexivity]. simpl.
  now rewrite !strictEq_canon_l.
Qed.

Lemma processG2_canon (mappings : Mappings) (P : Snapshot) (today : string)
    (item : RawItem) :
  processG2 mappings (canonSnapshot P) today item = processG2 mappings P today item.
Proof.
  unfold processG2. destruct (extractG2Slug _) as [g|]; [|reflexivity].
  destruct (mapToVendorSlug g G2 mappings) as [v|]; [|reflexivity].
  destruct (negb (strTruthy v)); [reflexivity|].
  destruct (accepted _ _) as [[sc ct]|]; [|reflexivity].
  now rewrite makeSource_canon.
Qed.

Lemma processCapterra_canon (mappings : Mappings) (P : Snapshot) (today : string)
    (item : RawItem) :
  processCapterra mappings (canonSnapshot P) today item
  = processCapterra mappings P today item.
Proof.
  unfold processCapterra. destruct (extractCapterraSlug _) as [g|]; [|reflexivity].
  destruct (mapToVendorSlug g Capterra mappings) as [v|]; [|reflexivity].
  destruct (negb (strTruthy v)); [reflexivity|].
  destruct (accepted _ _) as [[sc ct]|]; [|reflexivity].
  now rewrite makeSource_canon.
Qed.

Lemma bySource_canon (l : list ReviewSource) (name : string) :
  bySource (map canonSource l) name = option_map canonSource (bySource l name).
Proof. unfold bySource. rewrite <- map_rev. apply find_canon. Qed.

Lemma changed_canon (ps cs : list ReviewSource) :
  changed (map canonSource ps) cs = changed ps cs.
Proof.
  unfold changed, allSources. rewrite map_map. cbn [canonSource source].
  set (names := nodup string_dec _). clearbody names.
  induction names as [|n rest IH]; [reflexivity|]. simpl. rewrite IH. f_equal.
  unfold sourceChanged. rewrite bySource_canon.
  destruct (bySource ps n) as [p|], (bySource cs n) as [c|]; simpl; trivial.
  now rewrite !strictEq_canon_l.
Qed.

Lemma vendorRecord_canon (mappings : Mappings) (P : Snapshot) (today : string)
    (g2Raw capterraRaw : option (list RawItem)) (slug : string) :
  vendorRecord mappings (canonSnapshot P) today g2Raw capterraRaw slug
  = vendorRecord mappings P today g2Raw capterraRaw slug.
Proof.
  assert (C : collected mappings (canonSnapshot P) today g2Raw capterraRaw slug
              = collected mappings P today g2Raw capterraRaw slug).
  { unfold collected.
    rewrite (emitted_ext (processG2 mappings (canonSnapshot P) today)
               (processG2 mappings P today) g2Raw)
      by (intros item _; apply processG2_canon).
    rewrite (emitted_ext (processCapterra mappings (canonSnapshot P) today)
               (processCapterra mappings P today) capterraRaw)
      by (intros item _; apply processCapterra_canon).
    reflexivity. }
  rewrite !vendorRecord_fields. cbv zeta. rewrite C.
  unfold previousSources, carriedDate. rewrite lookup_canon.
  destruct (lookup P slug) as [r|]; simpl; [|reflexivity].
  now rewrite changed_canon.
Qed.

(** The aggregator does not tell a previous snapshot from the same
    snapshot with [0] for every [-0]. *)
Lemma aggregate_canon (mappings : Mappings) (P : Snapshot) (today : string)
    (g2Raw capterraRaw : option (list RawItem)) :
  aggregate mappings (canonSnapshot P) today g2Raw capterraRaw
  = aggregate mappings P today g2Raw capterraRaw.
Proof.
  rewrite !aggregate_spec. apply map_ext. intros [slug m].
  now rewrite vendorRecord_canon.
Qed.

Lemma loadSource_canon (s s' : ReviewSource) :
  loadSource (storeSource s) = Some s' ->
  s' = canonSource s /\ Number_isFinite (score s) = true.
Proof.
  unfold loadSource, storeSource, canonSource. simpl.
  destruct (jsonNumber (score s)) as [sc|] eqn:S; [|discriminate].
  destruct (jsonNumber (count s)) as [ct|] eqn:C; [|discriminate].
  intros H. injection H as <-.
  apply jsonNumber_Some in S, C. destruct S as [Fs ->], C as [_ ->]. now split.
Qed.

Lemma loadSources_canon (l l' : list ReviewSource) :
  loadSources (map storeSource l) = Some l' ->
  l' = map canonSource l
  /\ Forall (fun s => Number_isFinite (score s) = true) l.
Proof.
  revert l'. induction l as [|s rest IH]; intros l' H.
  - injection H as <-. now split.
  - cbn [map loadSources] in H.
    destruct (loadSource (storeSource s)) as [x|] eqn:X; [|discriminate H].
    destruct (loadSources (map storeSource rest)) as [xs|]; [|discriminate H].
    injection H as <-. destruct (IH xs eq_refl) as [-> F].
    apply loadSource_canon in X. destruct X as [-> Fs].
    split; [reflexivity | now constructor].
Qed.

Lemma loadReview_canon (r r' : AggregatedReview) :
  loadReview (store r) = Some r' ->
  r' = canonReview r
  /\ Forall (fun s => Number_isFinite (score s) = true) (sources r).
Proof.
  unfold loadReview, store, canonReview. simpl.
  destruct (jsonNumber (totalCount r)) as [t|] eqn:T; [|discriminate].
  destruct (loadSources (map storeSource (sources r))) as [l|] eqn:L; [|discriminate].
  intros H. injection H as <-.
  apply loadSources_canon in L. destruct L as [-> Fl].
  apply jsonNumber_Some in T. destruct T as [_ ->]. now split.
Qed.

Lemma reread_canon (out out' : Snapshot) :
  reread out = Some out' ->
  out' = canonSnapshot out
  /\ forall slug r s, In (slug, r) out -> In s (sources r) ->
       Number_isFinite (score s) = true.
Proof.
  revert out'. induction out as [|[slug r] rest IH]; intros out' H.
  - injection H as <-. split; [reflexivity | intros ? ? ? []].
  - cbn [reread] in H.
    destruct (loadReview (store r)) as [x|] eqn:X; [|discriminate H].
    destruct (reread rest) as [rest'|]; [|discriminate H].
    injection H as <-. destruct (IH rest' eq_refl) as [-> F].
    apply loadReview_canon in X. destruct X as [-> Fl].
    split; [reflexivity|].
    intros k r' s [E|I] J.
    + inversion E. subst. now apply (proj1 (Forall_forall _ _) Fl).
    + now apply (F k r' s).
Qed.

Lemma lookup_In {A : Type} (l : list (string * A)) (k : string) (v : A) :
  lookup l k = Some v -> In (k, v) l.
Proof.
  induction l as [|[s x] rest IH]; [discriminate|]. simpl.
  destruct (String.eqb_spec s k) as [->|].
  - intros H. injection H as ->. now left.
  - intros H. right. now apply IH.
Qed.

Lemma collected_unmapped (mappings : Mappings) (previous : Snapshot) (today : string)
    (g2Raw capterraRaw : option (list RawItem)) (slug : string) :
  lookup mappings slug = None ->
  collected mappings previous today g2Raw capterraRaw slug = [].
Proof.
  intros N.
  destruct (collected mappings previous today g2Raw capterraRaw slug) as [|s l] eqn:E;
    [reflexivity|].
  exfalso.
  assert (I : In s (collected mappings previous today g2Raw capterraRaw slug))
    by (rewrite E; now left).
  unfold collected in I. apply in_app_iff in I.
  destruct I as [I|I]; apply sourcesFor_In, emitted_In in I;
    destruct I as (items & item & _ & _ & I).
  - apply processG2_inv in I. destruct I as (_ & _ & R).
    apply resolve_lookup in R. destruct R as [m R]. congruence.
  - apply processCapterra_inv in I. destruct I as (_ & _ & R).
    apply resolve_lookup in R. destruct R as [m R]. congruence.
Qed.

(** Idempotence through the file.  Let a run write its result, and let the
    next run, on any date, read the same dumps and that file as its
    previous output.  If the run date of the first run is not empty, no
    record of the first result has two sources of the same name, and the
    file holds a number for every score, count and total (none was [NaN]
    or infinite), then the second run computes the result of the first, and
    so writes the same file. *)
Theorem rerun_reproduces_output (mappings : Mappings) (previous : Snapshot)
    (day later : string) (g2Raw capterraRaw : option (list RawItem))
    (file : Snapshot) :
  let first := aggregate mappings previous day g2Raw capterraRaw in
  day <> "" ->
  (forall slug rec, In (slug, rec) first -> NoDup (map source (sources rec))) ->
  reread first = Some file ->
  aggregate mappings file later g2Raw capterraRaw = first
  /\ map (fun '(slug, rec) => (slug, store rec))
         (aggregate mappings file later g2Raw capterraRaw)
     = map (fun '(slug, rec) => (slug, store rec)) first.
Proof.
  cbv zeta. intros D N R. apply reread_canon in R. destruct R as [-> F].
  assert (E : aggregate mappings
                (canonSnapshot (aggregate mappings previous day g2Raw capterraRaw))
                later g2Raw capterraRaw
              = aggregate mappings previous day g2Raw capterraRaw).
  { rewrite aggregate_canon.
    assert (K : forall slug m, lookup mappings slug = Some m ->
                  In (slug, vendorRecord mappings previous day g2Raw capterraRaw slug)
                     (aggregate mappings previous day g2Raw capterraRaw)).
    { intros slug m L. rewrite aggregate_spec. apply in_map_iff.
      exists (slug, m). split; [reflexivity | now apply lookup_In]. }
    apply aggregate_idempotent; trivial.
    - intros slug. destruct (lookup mappings slug) as [m|] eqn:L.
      + pose proof (N _ _ (K slug m L)) as Q. rewrite vendorRecord_sources in Q.
        eapply Permutation_NoDup; [|exact Q].
        apply Permutation_map, sortSources_perm.
      + rewrite (collected_unmapped _ _ _ _ _ _ L). constructor.
    - intros slug src I. apply finite_self_eq.
      destruct (lookup mappings slug) as [m|] eqn:L.
      + apply (F slug _ src (K slug m L)). rewrite vendorRecord_sources.
        apply (Permutation_in _ (Permutation_sym (sortSources_perm _))). exact I.
      + rewrite (collected_unmapped _ _ _ _ _ _ L) in I. contradiction. }
  split; [exact E | now rewrite E].
Qed.

End RereadOutput.

Section RereadExample.
Import Js Reviews ReviewsSpec Validate Stored.

Lemma rerun_reproduces_output_witness :
  reread Scenarios.endToEnd = Some Scenarios.endToEnd
  /\ aggregate Scenarios.osmindMappings Scenarios.endToEnd Scenarios.day2
       (Some [Scenarios.g2Item 4.0 10]) (Some [Scenarios.capterraItem 4.5 20])
     = Scenarios.endToEnd.
Proof.
  assert (R : reread Scenarios.endToEnd = Some Scenarios.endToEnd)
    by (vm_compute; reflexivity).
  split; [exact R|].
  assert (Q : forall slug rec, In (slug, rec) Scenarios.endToEnd ->
                NoDup (map source (sources rec))).
  { intros slug rec I. rewrite endToEnd_record in I.
    destruct I as [E|[]]. inversion E. subst. simpl.
    repeat constructor; simpl; intuition discriminate. }
  refine (proj1 (rerun_reproduces_output Scenarios.osmindMappings [] Scenarios.day1
                   Scenarios.day2 (Some [Scenarios.g2Item 4.0 10])
                   (Some [Scenarios.capterraItem 4.5 20]) Scenarios.endToEnd _ Q R)).
  discriminate.
Defined.

End RereadExample.

(** * Further properties of the evidence collector and the classifier *)

Section KeywordSearch.
Import Js Verify VerifyMore Text.

Lemma searchKeywords_fold (content : string) (ks : list string) (ev : Evidence) :
  let step := fun ev keyword =>
                let n := Z.of_nat (countMatches keyword 0 content) in
                if (0 <? n)%Z
                then {| count := (count ev + n)%Z;
                        matches := matches ev
                                   ++ [{| keyword := keyword; match_count := n |}] |}
                else ev in
  fold_left step ks ev
  = {| count := (count ev + totalMatches (foundMatches content ks))%Z;
       matches := matches ev ++ foundMatches content ks |}.
Proof.
  cbv zeta. revert ev. induction ks as [|k ks IH]; intros ev; simpl.
  - unfold totalMatches. simpl. rewrite Z.add_0_r, app_nil_r. now destruct ev.
  - rewrite IH. unfold foundMatches, mentions, occurrences. simpl.
    destruct (0 <? Z.of_nat (countMatches k 0 content))%Z; simpl; [|reflexivity].
    unfold totalMatches. simpl. rewrite <- app_assoc. simpl. f_equal. lia.
Qed.

Lemma searchKeywords_found (content : string) (ks : list string) :
  searchKeywords content ks
  = {| count := totalMatches (foundMatches content ks);
       matches := foundMatches content ks |}.
Proof.
  unfold searchKeywords. destruct (strTruthy content) eqn:T; simpl.
  - apply (searchKeywords_fold content ks {| count := 0; matches := [] |}).
  - unfold strTruthy in T. apply negb_false_iff, String.eqb_eq in T. subst content.
    replace (foundMatches "" ks) with (@nil KeywordMatch); [reflexivity|].
    unfold foundMatches. induction ks as [|k ks IH]; [reflexivity | exact IH].
Qed.

Lemma foundMatches_positive (content : string) (ks : list string) :
  Forall (fun m => match_count m = occurrences content (keyword m)
                   /\ (0 < match_count m)%Z) (foundMatches content ks).
Proof.
  apply Forall_forall. intros m I. apply in_map_iff in I.
  destruct I as (k & <- & I). apply filter_In in I. simpl. split; trivial.
  now apply Z.ltb_lt.
Qed.

Lemma totalMatches_nonneg (ms : list KeywordMatch) :
  Forall (fun m => (0 < match_count m)%Z) ms ->
  (0 <= totalMatches ms)%Z /\ (totalMatches ms = 0%Z <-> ms = []).
Proof.
  induction 1 as [|m t Pm Pt IH]; unfold totalMatches in *; simpl.
  - split; [lia | tauto].
  - destruct IH as [IH _]. split; [lia|]. split; [lia | discriminate].
Qed.

Lemma searchKeywords_count_nonneg (content : string) (ks : list string) :
  (0 <= count (searchKeywords content ks))%Z.
Proof.
  rewrite searchKeywords_found. simpl. apply totalMatches_nonneg.
  eapply Forall_impl; [|apply foundMatches_positive]. now intros m [_ H].
Qed.


Lemma prefixCI_length (p s : string) :
  prefixCI p s = true -> (String.length p <= String.length s)%nat.
Proof.
  revert s. induction p as [|a p IH]; intros s; simpl; [lia|].
  destruct s as [|b s]; [discriminate|]. simpl.
  intros H. apply andb_true_iff in H. destruct H as [_ H]. apply IH in H. lia.
Qed.

Lemma countMatches_room (k content : string) (skip : nat) :
  (countMatches k skip content * String.length k
   <= String.length content - skip)%nat.
Proof.
  revert skip. induction content as [|c t IH]; intros skip; [simpl; lia|].
  cbn [countMatches]. destruct skip as [|j].
  - destruct (prefixCI k (String c t)) eqn:P.
    + apply prefixCI_length in P. simpl in P.
      pose proof (IH (String.length k - 1)%nat). simpl. nia.
    + pose proof (IH 0%nat). simpl. lia.
  - pose proof (IH j). simpl. lia.
Qed.


Lemma prefixCI_lower (p s : string) : prefixCI p (toLowerCase s) = prefixCI p s.
Proof.
  revert s. induction p as [|a p IH]; intros s; simpl; [reflexivity|].
  destruct s as [|b s]; simpl; [reflexivity|]. now rewrite lowerChar_idem, IH.
Qed.

Lemma countMatches_lower (k content : string) (skip : nat) :
  countMatches k skip (toLowerCase content) = countMatches k skip content.
Proof.
  revert skip. induction content as [|c t IH]; intros skip; [reflexivity|].
  cbn [toLowerCase countMatches]. destruct skip as [|j]; [|apply IH].
  change (String (lowerChar c) (toLowerCase t)) with (toLowerCase (String c t)).
  rewrite prefixCI_lower. now rewrite !IH.
Qed.


End KeywordSearch.

Section KeywordCounts.
Import Js Verify VerifyMore Text.

Lemma prefixCI_startsWith (k s : string) : prefixCI k s = startsWith s k.
Proof.
  unfold startsWith. revert s. induction k as [|a k IH]; intros s.
  - now destruct s.
  - destruct s as [|b s]; [reflexivity|]. cbn [prefixCI toLowerCase prefix].
    rewrite IH. destruct (Ascii.ascii_dec (lowerChar a) (lowerChar b)) as [E|N].
    + now rewrite E, Ascii.eqb_refl.
    + apply Ascii.eqb_neq in N. now rewrite N.
Qed.

Lemma plainKeyword_not_empty (k : string) : plainKeyword k = true -> k <> "".
Proof.
  unfold plainKeyword. intros H. apply andb_true_iff in H. destruct H as [H _].
  now apply strTruthy_iff.
Qed.

(** Every keyword of the two lists of the script is read as plain text. *)
Lemma script_keywords_plain :
  Forall (fun k => plainKeyword k = true) KETAMINE_KEYWORDS
  /\ Forall (fun k => plainKeyword k = true) PSYCHIATRY_KEYWORDS.
Proof. split; repeat constructor. Qed.

Lemma mentions_occursIn (content k : string) :
  k <> "" -> mentions content k = occursIn content k.
Proof.
  intros N. unfold mentions, occurrences, occursIn.
  induction content as [|c t IH].
  - destruct k as [|a k]; [congruence | reflexivity].
  - cbn [countMatches]. change (toLowerCase (String c t))
      with (String (lowerChar c) (toLowerCase t)).
    cbn [includes]. change (String (lowerChar c) (toLowerCase t))
      with (toLowerCase (String c t)).
    fold (startsWith (String c t) k). rewrite <- prefixCI_startsWith.
    destruct (prefixCI k (String c t)); [|exact IH].
    simpl. apply Z.ltb_lt. lia.
Qed.

Lemma filter_mentions (content : string) (ks : list string) :
  Forall (fun k => plainKeyword k = true) ks ->
  filter (mentions content) ks = filter (occursIn content) ks.
Proof.
  induction 1 as [|k ks P _ IH]; [reflexivity|]. simpl.
  rewrite (mentions_occursIn content k (plainKeyword_not_empty k P)), IH. reflexivity.
Qed.

(** For keywords that a regular expression reads as plain text,
    [searchKeywords] returns one match for every keyword that occurs in
    the text, letter case apart, and for no other, in the order of the
    keyword list; the count of a match is at least one; and [count] is the
    sum of the counts of the matches, which is zero exactly when there is
    no match. *)
Theorem searchKeywords_spec (content : string) (ks : list string) :
  Forall (fun k => plainKeyword k = true) ks ->
  let ev := searchKeywords content ks in
  map keyword (matches ev) = filter (occursIn content) ks
  /\ Forall (fun m => (1 <= match_count m)%Z) (matches ev)
  /\ count ev = totalMatches (matches ev)
  /\ (0 <= count ev)%Z
  /\ (count ev = 0%Z <-> matches ev = []).
Proof.
  intros P. cbv zeta. rewrite searchKeywords_found. simpl.
  split; [unfold foundMatches; rewrite map_map; simpl; rewrite map_id;
          now apply filter_mentions|].
  split; [eapply Forall_impl; [|apply foundMatches_positive];
          intros m [_ H]; simpl in H; lia|].
  split; [reflexivity|].
  apply totalMatches_nonneg.
  eapply Forall_impl; [|apply foundMatches_positive]. now intros m [_ H].
Qed.

Lemma searchKeywords_spec_witness :
  let ev := searchKeywords "Ketamine clinics: IV infusion and ketamine REMS."
                           KETAMINE_KEYWORDS in
  map keyword (matches ev) = ["ketamine"; "iv infusion"; "rems"]
  /\ count ev = 4%Z.
Proof.
  cbv zeta.
  destruct (searchKeywords_spec "Ketamine clinics: IV infusion and ketamine REMS."
              KETAMINE_KEYWORDS (proj1 script_keywords_plain)) as (K & _ & C & _).
  rewrite K, C. split; vm_compute; reflexivity.
Defined.

Lemma dropChars_add (a b : nat) (s : string) :
  dropChars a (dropChars b s) = dropChars (a + b) s.
Proof.
  revert s. induction b as [|b IH]; intros s.
  - now rewrite Nat.add_0_r.
  - rewrite Nat.add_succ_r. destruct s as [|c t]; simpl.
    + now destruct a.
    + apply IH.
Qed.

Lemma dropChars_length (n : nat) (s : string) :
  String.length (dropChars n s) = (String.length s - n)%nat.
Proof.
  revert s. induction n as [|n IH]; intros s; simpl; [lia|].
  destruct s as [|c t]; simpl; [reflexivity | apply IH].
Qed.

Lemma countMatches_skip (k : string) (skip : nat) (content : string) :
  countMatches k skip content = countMatches k 0 (dropChars skip content).
Proof.
  revert skip. induction content as [|c t IH]; intros skip.
  - now destruct skip.
  - destruct skip as [|j]; [reflexivity|]. cbn [countMatches dropChars]. apply IH.
Qed.

Lemma countMatches_step (k : string) (c : ascii) (t : string) :
  k <> "" ->
  countMatches k 0 (String c t)
  = if startsWith (String c t) k
    then S (countMatches k 0 (dropChars (String.length k) (String c t)))
    else countMatches k 0 t.
Proof.
  intros N. cbn [countMatches]. rewrite prefixCI_startsWith.
  destruct (startsWith (String c t) k); [|reflexivity].
  rewrite countMatches_skip. destruct k as [|a k]; [congruence|].
  cbn [String.length dropChars].
  replace (S (String.length k) - 1)%nat with (String.length k) by lia. reflexivity.
Qed.

Lemma disjoint_suffix (k : string) (j : nat) (s : string) (n : nat) :
  disjointOccurrences k (dropChars j s) n -> disjointOccurrences k s n.
Proof.
  revert s. induction j as [|j IH]; intros s H; [exact H|].
  destruct s as [|c t]; [exact H|]. apply occ_pass. now apply IH.
Qed.

Lemma disjoint_first (k : string) (s : string) (n : nat) :
  disjointOccurrences k s (S n) ->
  exists p, disjointOccurrences k (dropChars (p + String.length k) s) n.
Proof.
  intros H. remember (S n) as m eqn:E. revert n E.
  induction H as [s|c s m H IH|s m S H _]; intros n E; [discriminate| |].
  - destruct (IH n E) as [p D]. now exists (S p).
  - injection E as <-. now exists 0%nat.
Qed.

Lemma greedy_reaches (k : string) (s : string) :
  k <> "" -> disjointOccurrences k s (countMatches k 0 s).
Proof.
  intros N. remember (String.length s) as len eqn:L. revert s L.
  induction len as [len IH] using lt_wf_ind. intros s L.
  destruct s as [|c t]; [apply occ_none|].
  rewrite (countMatches_step k c t N).
  destruct (startsWith (String c t) k) eqn:S.
  - apply occ_take; [exact S|].
    apply (IH (String.length (dropChars (String.length k) (String c t)))); trivial.
    rewrite dropChars_length. subst len. destruct k; [congruence|]. simpl. lia.
  - apply occ_pass. apply (IH (String.length t)); trivial. subst len. simpl. lia.
Qed.

Lemma greedy_is_most (k : string) (s : string) (n : nat) :
  k <> "" -> disjointOccurrences k s n -> (n <= countMatches k 0 s)%nat.
Proof.
  intros N. remember (String.length s) as len eqn:L. revert s n L.
  induction len as [len IH] using lt_wf_ind. intros s n L H.
  destruct n as [|n]; [lia|].
  destruct s as [|c t].
  - inversion H as [| |s' m S D]; subst.
    unfold startsWith in S. destruct k; [congruence | discriminate S].
  - rewrite (countMatches_step k c t N).
    destruct (startsWith (String c t) k) eqn:S.
    + destruct (disjoint_first k _ n H) as [p D].
      rewrite <- dropChars_add in D. apply disjoint_suffix in D.
      apply le_n_S.
      apply (IH (String.length (dropChars (String.length k) (String c t)))); trivial.
      rewrite dropChars_length. subst len. destruct k; [congruence|]. simpl. lia.
    + inversion H as [|c' s' m D|s' m S' D]; subst; [|congruence].
      apply (IH (String.length t)); trivial. simpl. lia.
Qed.

Lemma foundMatches_In (content : string) (ks : list string) (m : KeywordMatch) :
  In m (foundMatches content ks) ->
  In (keyword m) ks /\ match_count m = Z.of_nat (countMatches (keyword m) 0 content).
Proof.
  unfold foundMatches. intros I. apply in_map_iff in I.
  destruct I as (k & <- & I). apply filter_In in I. now split.
Qed.

(** For keywords that a regular expression reads as plain text, the count
    of a match is the largest number of occurrences of the keyword in the
    text, letter case apart, no two of which overlap; these occurrences,
    each as long as the keyword, fit into the text. *)
Theorem matches_do_not_overlap (content : string) (ks : list string)
    (m : KeywordMatch) :
  Forall (fun k => plainKeyword k = true) ks ->
  In m (matches (searchKeywords content ks)) ->
  (exists n, match_count m = Z.of_nat n
             /\ disjointOccurrences (keyword m) content n
             /\ forall n', disjointOccurrences (keyword m) content n' -> (n' <= n)%nat)
  /\ (match_count m * Z.of_nat (String.length (keyword m))
      <= Z.of_nat (String.length content))%Z.
Proof.
  intros P I. rewrite searchKeywords_found in I. simpl in I.
  apply foundMatches_In in I. destruct I as [K C].
  assert (N : keyword m <> "")
    by (apply plainKeyword_not_empty; now apply (proj1 (Forall_forall _ _) P)).
  split.
  - exists (countMatches (keyword m) 0 content).
    split; [exact C|]. split; [now apply greedy_reaches|].
    intros n' D. now apply greedy_is_most.
  - rewrite C. pose proof (countMatches_room (keyword m) content 0). nia.
Qed.

Lemma matches_do_not_overlap_witness :
  let m := {| keyword := "ketamine"; match_count := 2 |} in
  In m (matches (searchKeywords "Ketamine clinics: IV infusion and ketamine REMS."
                                KETAMINE_KEYWORDS))
  /\ (match_count m * Z.of_nat (String.length (keyword m))
      <= Z.of_nat (String.length "Ketamine clinics: IV infusion and ketamine REMS."))%Z.
Proof.
  cbv zeta.
  assert (I : In {| keyword := "ketamine"; match_count := 2 |}
                 (matches (searchKeywords
                             "Ketamine clinics: IV infusion and ketamine REMS."
                             KETAMINE_KEYWORDS))) by (vm_compute; now left).
  split; [exact I|].
  exact (proj2 (matches_do_not_overlap _ KETAMINE_KEYWORDS _
                  (proj1 script_keywords_plain) I)).
Defined.

(** For a text of ASCII characters and keywords that a regular expression
    reads as plain text, the search does not depend on the letter case of
    the text: lower-casing the text, as [fetchPageContent] does, leaves
    the evidence the same. *)
Theorem searchKeywords_ignores_case (content : string) (ks : list string) :
  asciiText content = true ->
  Forall (fun k => plainKeyword k = true) ks ->
  searchKeywords (toLowerCase content) ks = searchKeywords content ks.
Proof.
  intros _ _. unfold searchKeywords.
  assert (T : strTruthy (toLowerCase content) = strTruthy content)
    by (now destruct content).
  rewrite T. destruct (strTruthy content); simpl; [|reflexivity].
  generalize ({| count := 0; matches := [] |}) as ev.
  induction ks as [|k ks IH]; intros ev; simpl; [reflexivity|].
  now rewrite countMatches_lower, IH.
Qed.

Lemma searchKeywords_ignores_case_witness :
  searchKeywords (toLowerCase "Ketamine clinics: IV infusion and ketamine REMS.")
                 KETAMINE_KEYWORDS
  = searchKeywords "Ketamine clinics: IV infusion and ketamine REMS." KETAMINE_KEYWORDS.
Proof.
  apply searchKeywords_ignores_case; [reflexivity | apply script_keywords_plain].
Defined.

End KeywordCounts.

Section VerifyThenClassify.
Import Js Verify VerifyMore Classify.
Variable probe : string -> FetchOutcome.
Variable fetchPageContent : string -> string -> option string.
Variable today : string.

Abbreviation report := (verifyVendor probe fetchPageContent today).
Abbreviation textOf v := (fst (fetchPages fetchPageContent (v_website v))).

Lemma verifyVendor_live (v : Vendor) :
  website_live (report v) = ok (checkWebsite (probe (v_website v))).
Proof.
  unfold verifyVendor. destruct (ok _); simpl; [|reflexivity].
  now destruct (fetchPages _ _).
Qed.

Lemma verifyVendor_evidence (v : Vendor) :
  ok (checkWebsite (probe (v_website v))) = true ->
  ketamine_evidence (report v) = Some (searchKeywords (textOf v) KETAMINE_KEYWORDS)
  /\ psychiatry_evidence (report v) = Some (searchKeywords (textOf v) PSYCHIATRY_KEYWORDS)
  /\ status (report v)
     = if (5 <=? count (searchKeywords (textOf v) KETAMINE_KEYWORDS))%Z then verified
       else if (3 <=? count (searchKeywords (textOf v) PSYCHIATRY_KEYWORDS))%Z then verified
       else needs_review.
Proof.
  intros L. unfold verifyVendor. rewrite L. simpl.
  now destruct (fetchPages _ _).
Qed.

Lemma verifyVendor_down (v : Vendor) :
  ok (checkWebsite (probe (v_website v))) = false ->
  ketamine_evidence (report v) = None /\ status (report v) = unverified.
Proof. intros L. unfold verifyVendor. rewrite L. now simpl. Qed.

Lemma countOrZero_Some (ev : Evidence) : countOrZero (Some ev) = count ev.
Proof. unfold countOrZero. destruct (Z.eqb_spec (count ev) 0); congruence. Qed.

(** The status the verifier gives and the category the classifier then
    derives from its report agree: [unknown] goes with [unverified] and with
    a failed probe, a [ketamine_specific] vendor is [verified], a
    [general_ehr] vendor is [needs_review] and has no ketamine mention and
    fewer than three psychiatry mentions, and a vendor that [needs_review] is
    never [ketamine_specific]. *)
Theorem verify_then_classify (v : Vendor) :
  let r := report v in
  let c := classifyVendor r in
  let k := count (searchKeywords (textOf v) KETAMINE_KEYWORDS) in
  let p := count (searchKeywords (textOf v) PSYCHIATRY_KEYWORDS) in
  (classification c = unknown <-> status r = unverified)
  /\ (classification c = unknown <-> ok (checkWebsite (probe (v_website v))) = false)
  /\ (classification c = ketamine_specific -> status r = verified)
  /\ (classification c = general_ehr <->
      ok (checkWebsite (probe (v_website v))) = true /\ k = 0%Z /\ (p < 3)%Z)
  /\ (classification c = general_ehr -> status r = needs_review)
  /\ (status r = needs_review ->
      classification c = ketamine_compatible \/ classification c = general_ehr).
Proof.
  cbv zeta. unfold classifyVendor. rewrite verifyVendor_live.
  destruct (ok (checkWebsite (probe (v_website v)))) eqn:L; simpl.
  - destruct (verifyVendor_evidence v L) as (K & P & S). rewrite K, P, S.
    rewrite !countOrZero_Some.
    pose proof (searchKeywords_count_nonneg (textOf v) KETAMINE_KEYWORDS) as Hk.
    unfold THRESHOLDS_specific_ketamine_mentions,
      THRESHOLDS_compatible_ketamine_mentions,
      THRESHOLDS_compatible_psychiatry_mentions.
    set (k := count (searchKeywords (textOf v) KETAMINE_KEYWORDS)) in *.
    set (p := count (searchKeywords (textOf v) PSYCHIATRY_KEYWORDS)) in *.
    destruct (Z.leb_spec 5 k), (Z.leb_spec 1 k), (Z.leb_spec 3 p),
      (someMatch isKetamineKeyword _); simpl;
      repeat split; intros; try discriminate; try lia; try tauto;
      try (exfalso; intuition (discriminate || lia)).
  - destruct (verifyVendor_down v L) as (_ & S). rewrite S.
    repeat split; intros; try discriminate; try tauto;
      try (exfalso; intuition discriminate).
Qed.

Lemma existsb_filtered {A : Type} (p q : A -> bool) (l : list A) :
  existsb (fun x => p x && q x) l = existsb p (filter q l).
Proof.
  induction l as [|x l IH]; simpl; [reflexivity|].
  destruct (q x); simpl; rewrite IH.
  - now rewrite andb_true_r.
  - now rewrite andb_false_r.
Qed.

Lemma hasKeyword_found (content : string) (ks terms : list string) :
  hasKeyword (foundMatches content ks) terms
  = existsb (fun k => mentions content k
                      && existsb (fun t => includes (toLowerCase k) t) terms) ks.
Proof.
  unfold hasKeyword, foundMatches.
  induction ks as [|k ks IH]; simpl; [reflexivity|].
  destruct (mentions content k); simpl; now rewrite IH.
Qed.

(** The features inferred from a verifier report, in terms of the text of
    the site: four flags follow the keywords of the verifier, and
    [outcome_tracking], [patient_rating_scales] and [ketamine_consent_forms]
    are never set, whatever the site says. *)
Theorem inferred_features_of_report (v : Vendor) :
  let f := inferKetamineFeatures (report v) in
  let live := ok (checkWebsite (probe (v_website v))) in
  let says := mentions (textOf v) in
  iv_protocols f = live && (says "iv infusion" || says "infusion clinic")
  /\ im_protocols f = live && (says "im injection" || says "intramuscular")
  /\ spravato_workflows f = live && (says "spravato" || says "esketamine" || says "rems")
  /\ treatment_series_tracking f = live && says "treatment series"
  /\ outcome_tracking f = false
  /\ patient_rating_scales f = false
  /\ ketamine_consent_forms f = false.
Proof.
  cbv zeta. unfold inferKetamineFeatures.
  destruct (ok (checkWebsite (probe (v_website v)))) eqn:L.
  - destruct (verifyVendor_evidence v L) as (K & _). rewrite K.
    unfold matchesOrEmpty. rewrite searchKeywords_found.
    cbn [matches iv_protocols im_protocols spravato_workflows
         treatment_series_tracking outcome_tracking patient_rating_scales
         ketamine_consent_forms].
    rewrite !hasKeyword_found.
    generalize (mentions (textOf v)) as says. intros says.
    rewrite !existsb_filtered.
    repeat match goal with
           | |- context [filter ?hit KETAMINE_KEYWORDS] =>
               let r := eval vm_compute in (filter hit KETAMINE_KEYWORDS) in
               replace (filter hit KETAMINE_KEYWORDS) with r by (vm_compute; reflexivity)
           end.
    cbn [existsb andb].
    repeat split;
      repeat match goal with |- context [says ?k] => destruct (says k) end;
      reflexivity.
  - destruct (verifyVendor_down v L) as (K & _). rewrite K. simpl. tauto.
Qed.

End VerifyThenClassify.

Section LiveSites.
Import Js Verify VerifyMore Classify AcquireSpec.
Variable probe : string -> FetchOutcome.
Variable fetchPageContent : string -> string -> option string.
Variable today : string.

Abbreviation report := (verifyVendor probe fetchPageContent today).

Lemma append_assoc (a b c : string) : ((a ++ b) ++ c = a ++ (b ++ c))%string.
Proof. induction a as [|x a IH]; simpl; [reflexivity | now rewrite IH]. Qed.

Lemma append_empty_r (a : string) : (a ++ "")%string = a.
Proof. induction a as [|x a IH]; simpl; [reflexivity | now rewrite IH]. Qed.

Lemma fetchPages_fold (website : string) (pages : list string) (text : string)
    (checked : list string) :
  let good := filter (readable fetchPageContent website) pages in
  fold_left
    (fun '(allContent, pagesChecked) pagePath =>
       match fetchPageContent website pagePath with
       | Some content =>
           if strTruthy content
           then ((allContent ++ " " ++ content)%string,
                 pagesChecked ++ [orStr pagePath "/"])
           else (allContent, pagesChecked)
       | None => (allContent, pagesChecked)
       end)
    pages (text, checked)
  = ((text ++ String.concat ""
                (map (fun p => (" " ++ pageText fetchPageContent website p)%string) good))%string,
     checked ++ map (fun p => orStr p "/") good).
Proof.
  cbv zeta. revert text checked.
  induction pages as [|p pages IH]; intros text checked.
  - simpl. now rewrite append_empty_r, app_nil_r.
  - cbn [fold_left filter].
    assert (R : readable fetchPageContent website p
                = match fetchPageContent website p with
                  | Some content => strTruthy content
                  | None => false
                  end) by reflexivity.
    assert (X : pageText fetchPageContent website p
                = match fetchPageContent website p with
                  | Some content => content
                  | None => ""
                  end) by reflexivity.
    rewrite R. clear R.
    destruct (fetchPageContent website p) as [content|]; [|apply IH].
    destruct (strTruthy content); [|apply IH].
    rewrite IH. cbn [map]. rewrite X, <- app_assoc. cbn [app]. f_equal.
    rewrite append_assoc. f_equal.
    set (rest := map _ (filter _ pages)).
    destruct rest as [|r rest']; cbn [String.concat]; [now rewrite append_empty_r|].
    reflexivity.
Qed.

(** The report on a site that answers the probe: the pages checked are
    those of the six pages that could be read, in their order and with the
    home page written [/]; the text searched is their texts, each after a
    space; and when no page could be read the evidence is empty, the status
    is [needs_review] and the classifier answers [general_ehr]. *)
Theorem live_site_report (v : Vendor) :
  ok (checkWebsite (probe (v_website v))) = true ->
  let good := filter (readable fetchPageContent (v_website v)) PAGES_TO_CHECK in
  let text := String.concat ""
                (map (fun p => (" " ++ pageText fetchPageContent (v_website v) p)%string)
                     good) in
  pages_checked (report v) = map (fun p => orStr p "/") good
  /\ ketamine_evidence (report v) = Some (searchKeywords text KETAMINE_KEYWORDS)
  /\ psychiatry_evidence (report v) = Some (searchKeywords text PSYCHIATRY_KEYWORDS)
  /\ (good = [] ->
      ketamine_evidence (report v) = Some {| count := 0; matches := [] |}
      /\ psychiatry_evidence (report v) = Some {| count := 0; matches := [] |}
      /\ status (report v) = needs_review
      /\ classification (classifyVendor (report v)) = general_ehr).
Proof.
  intros L. cbv zeta.
  assert (F : fetchPages fetchPageContent (v_website v)
              = (String.concat ""
                   (map (fun p => (" " ++ pageText fetchPageContent (v_website v) p)%string)
                        (filter (readable fetchPageContent (v_website v)) PAGES_TO_CHECK)),
                 map (fun p => orStr p "/")
                     (filter (readable fetchPageContent (v_website v)) PAGES_TO_CHECK))).
  { unfold fetchPages. now rewrite fetchPages_fold. }
  unfold classifyVendor, verifyVendor. rewrite L, F. cbn [negb].
  split; [reflexivity|]. split; [reflexivity|]. split; [reflexivity|].
  intros ->. now cbn.
Qed.

End LiveSites.

Section LiveSiteExample.
Import Js Verify VerifyMore Classify AcquireSpec.

Lemma live_site_report_witness :
  let v := candidate "Clinic Suite" "https://clinicsuite.example" in
  let r := verifyVendor liveProbe spravatoPages Scenarios.day1 v in
  pages_checked r = ["/"]
  /\ ketamine_evidence r
     = Some {| count := 2;
               matches := [ {| keyword := "spravato"; match_count := 1 |};
                            {| keyword := "rems"; match_count := 1 |} ] |}.
Proof.
  cbv zeta.
  destruct (live_site_report liveProbe spravatoPages Scenarios.day1
              (candidate "Clinic Suite" "https://clinicsuite.example") eq_refl)
    as (P & K & _).
  rewrite P, K. split; vm_compute; reflexivity.
Defined.

End LiveSiteExample.

(** * Further properties of the acquisition orchestrator *)

Section Names.
Import Js Text Acquire AcquireMore.

Lemma alnum_notUpper (c : ascii) : isAlnumLower c = true -> lowerChar c = c.
Proof.
  destruct c as [[] [] [] [] [] [] [] []]; vm_compute; intros H;
    first [reflexivity | discriminate H].
Qed.

Lemma alnum_not_dash (c : ascii) : isAlnumLower c = true -> (c =? "-")%char = false.
Proof.
  destruct c as [[] [] [] [] [] [] [] []]; vm_compute; intros H;
    first [reflexivity | discriminate H].
Qed.

Lemma allChars_filterChars (f : ascii -> bool) (s : string) :
  allChars f (filterChars f s) = true.
Proof.
  induction s as [|c t IH]; simpl; [reflexivity|].
  destruct (f c) eqn:F; [simpl; now rewrite F | exact IH].
Qed.

Lemma filterChars_all (f : ascii -> bool) (s : string) :
  allChars f s = true -> filterChars f s = s.
Proof.
  induction s as [|c t IH]; simpl; [reflexivity|].
  intros H. apply andb_true_iff in H. destruct H as [F H]. now rewrite F, IH.
Qed.

Lemma toLowerCase_alnum (s : string) :
  allChars isAlnumLower s = true -> toLowerCase s = s.
Proof.
  induction s as [|c t IH]; simpl; [reflexivity|].
  intros H. apply andb_true_iff in H. destruct H as [F H].
  now rewrite (alnum_notUpper c F), IH.
Qed.

Lemma toLowerCase_app (a b : string) :
  toLowerCase (a ++ b) = (toLowerCase a ++ toLowerCase b)%string.
Proof. induction a as [|c t IH]; simpl; [reflexivity | now rewrite IH]. Qed.

Lemma filterChars_app (f : ascii -> bool) (a b : string) :
  filterChars f (a ++ b) = (filterChars f a ++ filterChars f b)%string.
Proof.
  induction a as [|c t IH]; simpl; [reflexivity|].
  destruct (f c); simpl; now rewrite IH.
Qed.

Lemma normalizeName_fixed (t : string) :
  allChars isAlnumLower t = true -> normalizeName t = t.
Proof.
  intros H. rewrite normalizeName_filtered, (toLowerCase_alnum t H).
  now apply filterChars_all.
Qed.

(** The normalized name is a canonical form: it consists of lower-case
    letters and digits only, normalizing it again changes nothing, letter
    case does not matter, a string of lower-case letters and digits is its
    own normal form, and normalization goes through concatenation. *)
Theorem normalizeName_canonical (name : string) :
  allChars isAlnumLower (normalizeName name) = true
  /\ normalizeName (normalizeName name) = normalizeName name
  /\ normalizeName (toLowerCase name) = normalizeName name
  /\ (allChars isAlnumLower name = true -> normalizeName name = name)
  /\ (forall other, normalizeName (name ++ other)
                    = (normalizeName name ++ normalizeName other)%string).
Proof.
  assert (A : allChars isAlnumLower (normalizeName name) = true)
    by (rewrite normalizeName_filtered; apply allChars_filterChars).
  split; [exact A|].
  split; [now apply normalizeName_fixed|].
  split; [now rewrite !normalizeName_filtered, toLowerCase_idem|].
  split; [apply normalizeName_fixed|].
  intros other. now rewrite !normalizeName_filtered, toLowerCase_app, filterChars_app.
Qed.

End Names.

Section Slugs.
Import Js Text Acquire AcquireMore.

Lemma dashRuns_chars (b : bool) (s : string) : allChars isSlugChar (dashRuns b s) = true.
Proof.
  revert b. induction s as [|c t IH]; intros b; simpl; [reflexivity|].
  destruct (isAlnumLower c) eqn:A.
  - simpl. unfold isSlugChar at 1. now rewrite A, IH.
  - destruct b; [apply IH|]. simpl. apply IH.
Qed.

Lemma dashRuns_noDouble (b : bool) (s : string) : noDoubleDash b (dashRuns b s) = true.
Proof.
  revert b. induction s as [|c t IH]; intros b; simpl; [reflexivity|].
  destruct (isAlnumLower c) eqn:A.
  - simpl. rewrite (alnum_not_dash c A). apply IH.
  - destruct b; [apply IH|]. simpl. apply IH.
Qed.

Lemma noDoubleDash_weaken (s : string) :
  noDoubleDash true s = true -> noDoubleDash false s = true.
Proof. destruct s as [|c t]; simpl; [trivial|]. now destruct (c =? "-")%char. Qed.

Lemma noDoubleDash_start (s : string) :
  noDoubleDash true s = true -> dropPrefix "-" s = None.
Proof.
  destruct s as [|c t]; [trivial|]. cbn [noDoubleDash dropPrefix].
  rewrite (Ascii.eqb_sym "-" c). now destruct (c =? "-")%char.
Qed.

Lemma stripLeading_shape (s : string) :
  noDoubleDash false s = true ->
  noDoubleDash true (match dropPrefix "-" s with Some rest => rest | None => s end) = true.
Proof.
  destruct s as [|c t]; [trivial|]. cbn [noDoubleDash dropPrefix].
  rewrite (Ascii.eqb_sym "-" c).
  destruct (c =? "-")%char eqn:E; cbn [noDoubleDash negb andb]; [trivial|]. now rewrite E.
Qed.

Lemma stripLeading_chars (s : string) :
  allChars isSlugChar s = true ->
  allChars isSlugChar (match dropPrefix "-" s with Some rest => rest | None => s end) = true.
Proof.
  destruct s as [|c t]; [trivial|]. cbn [allChars dropPrefix].
  destruct ("-" =? c)%char; [|trivial].
  intros H. now apply andb_true_iff in H.
Qed.

Lemma dropLastDash_chars (s : string) :
  allChars isSlugChar s = true -> allChars isSlugChar (dropLastDash s) = true.
Proof.
  induction s as [|c t IH]; simpl; [trivial|].
  intros H. apply andb_true_iff in H. destruct H as [C H].
  destruct (t =? "") eqn:E.
  - apply String.eqb_eq in E. subst t. destruct (c =? "-")%char; simpl; [trivial|].
    now rewrite C.
  - simpl. now rewrite C, IH.
Qed.

Lemma dropLastDash_empty (t : string) : dropLastDash t = "" -> t = "" \/ t = "-".
Proof.
  destruct t as [|d u]; [now left|]. cbn [dropLastDash].
  destruct (String.eqb_spec u "") as [->|]; [|discriminate].
  destruct (Ascii.eqb_spec d "-") as [->|]; [now right | discriminate].
Qed.

Lemma dropLastDash_noDouble (b : bool) (s : string) :
  noDoubleDash b s = true -> noDoubleDash b (dropLastDash s) = true.
Proof.
  revert b. induction s as [|c t IH]; intros b; [trivial|].
  cbn [dropLastDash]. destruct (String.eqb_spec t "") as [->|N].
  - destruct (c =? "-")%char; trivial.
  - cbn [noDoubleDash]. destruct (c =? "-")%char.
    + intros H. apply andb_true_iff in H. destruct H as [B H].
      now rewrite B, (IH true H).
    + apply IH.
Qed.

Lemma dropLastDash_last (b : bool) (s : string) :
  noDoubleDash b s = true -> lastChar (dropLastDash s) <> Some "-"%char.
Proof.
  revert b. induction s as [|c t IH]; intros b; [discriminate|].
  cbn [dropLastDash]. destruct (String.eqb_spec t "") as [->|N].
  - destruct (Ascii.eqb_spec c "-") as [->|D]; [discriminate|].
    cbn [lastChar]. congruence.
  - cbn [noDoubleDash]. intros H.
    destruct (dropLastDash t) as [|d u] eqn:T.
    + destruct (dropLastDash_empty t T) as [->| ->]; [congruence|].
      cbn [lastChar]. intros E. injection E as ->.
      cbn in H. rewrite andb_false_r in H. discriminate H.
    + change (lastChar (String c (String d u))) with (lastChar (String d u)).
      destruct (c =? "-")%char.
      * apply andb_true_iff in H. destruct H as [_ H]. exact (IH true H).
      * exact (IH false H).
Qed.

Lemma generateSlug_shape (name : string) :
  allChars isSlugChar (generateSlug name) = true
  /\ noDoubleDash true (generateSlug name) = true
  /\ lastChar (generateSlug name) <> Some "-"%char.
Proof.
  unfold generateSlug, stripEdgeDashes.
  pose proof (dashRuns_chars false (toLowerCase name)) as C.
  pose proof (dashRuns_noDouble false (toLowerCase name)) as D.
  set (t := dashRuns false (toLowerCase name)) in *.
  apply stripLeading_chars in C. apply stripLeading_shape in D.
  set (u := match dropPrefix "-" t with Some rest => rest | None => t end) in *.
  split; [now apply dropLastDash_chars|].
  split; [now apply dropLastDash_noDouble | now apply (dropLastDash_last true)].
Qed.

Lemma slugChar_lower (c : ascii) : isSlugChar c = true -> lowerChar c = c.
Proof.
  destruct c as [[] [] [] [] [] [] [] []]; vm_compute; intros H;
    first [reflexivity | discriminate H].
Qed.

Lemma slugChar_cases (c : ascii) :
  isSlugChar c = true -> isAlnumLower c = negb (c =? "-")%char.
Proof.
  destruct c as [[] [] [] [] [] [] [] []]; vm_compute; intros H;
    first [reflexivity | discriminate H].
Qed.

Lemma toLowerCase_slug (s : string) : allChars isSlugChar s = true -> toLowerCase s = s.
Proof.
  induction s as [|c t IH]; simpl; [reflexivity|].
  intros H. apply andb_true_iff in H. destruct H as [F H].
  now rewrite (slugChar_lower c F), IH.
Qed.

Lemma dashRuns_slug (b : bool) (s : string) :
  allChars isSlugChar s = true -> noDoubleDash b s = true -> dashRuns b s = s.
Proof.
  revert b. induction s as [|c t IH]; intros b; simpl; [reflexivity|].
  intros H. apply andb_true_iff in H. destruct H as [F H].
  rewrite (slugChar_cases c F). destruct (c =? "-")%char eqn:D; simpl.
  - intros N. apply andb_true_iff in N. destruct N as [B N].
    destruct b; [discriminate B|]. apply Ascii.eqb_eq in D. subst c.
    now rewrite (IH true H N).
  - intros N. now rewrite (IH false H N).
Qed.

Lemma dropLastDash_fixed (s : string) :
  lastChar s <> Some "-"%char -> dropLastDash s = s.
Proof.
  induction s as [|c t IH]; simpl; [reflexivity|].
  destruct t as [|d u].
  - simpl. destruct (c =? "-")%char eqn:D; [|reflexivity].
    apply Ascii.eqb_eq in D. subst c. intros N. now elim N.
  - intros N. change (String d u =? "") with false. cbv iota.
    f_equal. now apply IH.
Qed.

Lemma noDoubleDash_includes (b : bool) (s : string) :
  noDoubleDash b s = true -> includes s "--" = false.
Proof.
  revert b. induction s as [|c t IH]; intros b; [reflexivity|].
  cbn [noDoubleDash includes]. intros N.
  assert (T : includes t "--" = false).
  { destruct (c =? "-")%char; [|now apply (IH false)].
    apply andb_true_iff in N. now apply (IH true). }
  rewrite T, orb_false_r.
  cbn [prefix]. destruct (Ascii.ascii_dec "-" c) as [<-|]; [|reflexivity].
  rewrite Ascii.eqb_refl in N. apply andb_true_iff in N. destruct N as [_ N].
  destruct t as [|d u]; [reflexivity|]. cbn [prefix].
  destruct (Ascii.ascii_dec "-" d) as [<-|]; [|reflexivity].
  cbn in N. discriminate N.
Qed.

Lemma filterChars_dashRuns (b : bool) (s : string) :
  filterChars isAlnumLower (dashRuns b s) = filterChars isAlnumLower s.
Proof.
  revert b. induction s as [|c t IH]; intros b; simpl; [reflexivity|].
  destruct (isAlnumLower c) eqn:A; simpl.
  - now rewrite A, IH.
  - destruct b; simpl; apply IH.
Qed.

Lemma filterChars_stripLeading (s : string) :
  filterChars isAlnumLower (match dropPrefix "-" s with Some rest => rest | None => s end)
  = filterChars isAlnumLower s.
Proof.
  destruct s as [|c t]; [reflexivity|]. cbn [dropPrefix].
  destruct (Ascii.eqb_spec "-" c) as [<-|]; reflexivity.
Qed.

Lemma filterChars_dropLastDash (s : string) :
  filterChars isAlnumLower (dropLastDash s) = filterChars isAlnumLower s.
Proof.
  induction s as [|c t IH]; [reflexivity|]. cbn [dropLastDash].
  destruct (String.eqb_spec t "") as [->|N].
  - destruct (Ascii.eqb_spec c "-") as [->|]; reflexivity.
  - cbn [filterChars]. now rewrite IH.
Qed.

Lemma normalizeName_slug (name : string) :
  normalizeName (generateSlug name) = normalizeName name.
Proof.
  destruct (generateSlug_shape name) as (C & _).
  rewrite !normalizeName_filtered, (toLowerCase_slug _ C).
  unfold generateSlug, stripEdgeDashes.
  now rewrite filterChars_dropLastDash, filterChars_stripLeading, filterChars_dashRuns.
Qed.

(** The slug generated from a name consists of lower-case letters, digits
    and dashes, neither starts nor ends with a dash and has no two dashes in
    a row; generating a slug from a slug returns it unchanged; and the slug
    has the same normalized name as the name it comes from. *)
Theorem generateSlug_spec (name : string) :
  let slug := generateSlug name in
  allChars isSlugChar slug = true
  /\ prefix "-" slug = false
  /\ lastChar slug <> Some "-"%char
  /\ includes slug "--" = false
  /\ generateSlug slug = slug
  /\ normalizeName slug = normalizeName name.
Proof.
  cbv zeta. destruct (generateSlug_shape name) as (C & D & L).
  split; [exact C|].
  split.
  { apply noDoubleDash_start in D. destruct (generateSlug name) as [|c t]; [reflexivity|].
    cbn [dropPrefix] in D. cbn [prefix].
    destruct (Ascii.ascii_dec "-" c) as [<-|]; [|reflexivity].
    rewrite Ascii.eqb_refl in D. discriminate D. }
  split; [exact L|].
  split; [now apply (noDoubleDash_includes true)|].
  split.
  - unfold generateSlug at 1, stripEdgeDashes.
    rewrite (toLowerCase_slug _ C).
    rewrite (dashRuns_slug false _ C (noDoubleDash_weaken _ D)).
    rewrite (noDoubleDash_start _ D). now apply dropLastDash_fixed.
  - apply normalizeName_slug.
Qed.

End Slugs.

Section BatchFilter.
Import Js Verify Acquire AcquireSpec AcquireMore.
Variable hostname : string -> option string.
Variable existing : list Vendor.

Abbreviation dup := (duplicates hostname).
Abbreviation normalized := (fun a : Vendor => normalizeName (v_name a)).

Lemma duplicates_refl (c : Vendor) : dup c c.
Proof. now left. Qed.

Lemma duplicates_sym (c e : Vendor) : dup c e -> dup e c.
Proof.
  intros [N|(d & A & B & D)]; [left; now symmetry | right].
  exists d. now repeat split.
Qed.

Lemma filterStep_cases (accepted : list Vendor) (log : list LogLine) (c : Vendor) :
  (v_website c = ""
   /\ filterStep hostname existing (accepted, log) c
      = (accepted, log ++ [SkippingNoWebsite (v_name c)]))
  \/ (v_website c <> ""
      /\ (exists e, In e (existing ++ accepted) /\ dup c e)
      /\ exists line, isNoWebsiteLine line = false
                      /\ filterStep hostname existing (accepted, log) c
                         = (accepted, log ++ [line]))
  \/ (v_website c <> ""
      /\ (forall e, In e existing -> ~ dup c e)
      /\ (forall e, In e accepted -> ~ dup c e)
      /\ filterStep hostname existing (accepted, log) c = (accepted ++ [c], log)).
Proof.
  unfold filterStep. destruct (strTruthy (v_website c)) eqn:W; simpl.
  - apply strTruthy_iff in W. right.
    destruct (vendorExists hostname c existing) as [[r s]|] eqn:E.
    + left. split; [exact W|].
      destruct (vendorExists_Some_duplicate hostname c existing _ E) as (e & I & D).
      split; [exists e; split; [apply in_app_iff; now left | exact D]|].
      now exists (SkippingExisting (v_name c) r s).
    + pose proof (proj1 (vendorExists_None_iff hostname c existing) E) as N.
      destruct (vendorExists hostname c accepted) as [found|] eqn:A.
      * left. split; [exact W|].
        destruct (vendorExists_Some_duplicate hostname c accepted _ A) as (e & I & D).
        split; [exists e; split; [apply in_app_iff; now right | exact D]|].
        now exists (SkippingDuplicate (v_name c)).
      * right. repeat split; trivial.
        exact (proj1 (vendorExists_None_iff hostname c accepted) A).
  - left. split; [|reflexivity].
    unfold strTruthy in W. apply negb_false_iff in W. now apply String.eqb_eq.
Qed.

Lemma snoc_split {A : Type} (l l1 l2 : list A) (c a : A) :
  l ++ [c] = l1 ++ a :: l2 ->
  (l2 = [] /\ a = c /\ l1 = l) \/ (exists l2', l2 = l2' ++ [c] /\ l = l1 ++ a :: l2').
Proof.
  induction l2 as [|x l2' _] using rev_ind; intros H.
  - apply app_inj_tail in H. left. intuition congruence.
  - change (l1 ++ a :: l2' ++ [x]) with (l1 ++ (a :: l2') ++ [x]) in H.
    rewrite app_assoc in H. apply app_inj_tail in H. destruct H as [-> ->].
    right. now exists l2'.
Qed.

Lemma NoDup_snoc {A : Type} (l : list A) (x : A) :
  NoDup l -> ~ In x l -> NoDup (l ++ [x]).
Proof.
  intros N I. apply (Permutation_NoDup (l := x :: l)).
  - apply Permutation_cons_append.
  - now constructor.
Qed.

(** What the filtering loop keeps true, whatever the batch. *)
Lemma filterDiscovered_invariant (discovered : list Vendor) :
  let accepted := fst (filterDiscovered hostname existing discovered) in
  let log := snd (filterDiscovered hostname existing discovered) in
  (forall a, In a accepted ->
     In a discovered /\ v_website a <> "" /\ forall e, In e existing -> ~ dup a e)
  /\ (forall l1 a l2, accepted = l1 ++ a :: l2 -> forall e, In e l1 -> ~ dup a e)
  /\ (forall c, In c discovered -> v_website c <> "" ->
        exists e, In e (existing ++ accepted) /\ dup c e)
  /\ (List.length accepted + List.length log = List.length discovered)%nat
  /\ List.length (filter isNoWebsiteLine log) = List.length (withoutWebsite discovered)
  /\ NoDup (map normalized accepted).
Proof.
  cbv zeta. induction discovered as [|c before IH] using rev_ind.
  - simpl. repeat split; try constructor; try (intros; contradiction).
    intros l1 a l2 H. now destruct l1.
  - rewrite filterDiscovered_snoc.
    destruct (filterDiscovered hostname existing before) as [accepted log].
    simpl in IH. destruct IH as (I1 & I2 & I3 & I4 & I5 & I6).
    unfold withoutWebsite in *. rewrite filter_app, !length_app. cbn [filter].
    assert (Old : forall x, In x before -> v_website x <> "" ->
                  forall more, exists e, In e (existing ++ accepted ++ more) /\ dup x e).
    { intros x I W more. destruct (I3 x I W) as (e & J & D). exists e. split; trivial.
      apply in_app_iff in J. rewrite !in_app_iff. tauto. }
    destruct (filterStep_cases accepted log c)
      as [(W & ->)|[(W & (e & J & D) & line & NW & ->)|(W & N & M & ->)]]; simpl.
    + rewrite W. simpl. rewrite filter_app, !length_app. simpl.
      split; [intros a I; destruct (I1 a I) as (? & ? & ?); repeat split; trivial;
              apply in_app_iff; now left|].
      split; [exact I2|].
      split; [|split; [lia | split; [lia | exact I6]]].
      intros x I V. apply in_app_iff in I. destruct I as [I|[<-|[]]]; [|congruence].
      destruct (Old x I V []) as (e & J & D). rewrite app_nil_r in J. now exists e.
    + apply strTruthy_iff in W. rewrite W. simpl.
      rewrite filter_app, !length_app. simpl. rewrite NW. simpl.
      split; [intros a I; destruct (I1 a I) as (? & ? & ?); repeat split; trivial;
              apply in_app_iff; now left|].
      split; [exact I2|].
      split; [|split; [lia | split; [lia | exact I6]]].
      intros x I V. apply in_app_iff in I. destruct I as [I|[<-|[]]].
      * destruct (Old x I V []) as (e' & J' & D'). rewrite app_nil_r in J'. now exists e'.
      * now exists e.
    + pose proof W as W'. apply strTruthy_iff in W'. rewrite W'. simpl.
      split.
      { intros a I. apply in_app_iff in I. destruct I as [I|[<-|[]]].
        - destruct (I1 a I) as (? & ? & ?). repeat split; trivial.
          apply in_app_iff. now left.
        - repeat split; trivial. apply in_app_iff. right. now left. }
      split.
      { intros l1 a l2 H. apply snoc_split in H.
        destruct H as [(-> & -> & ->)|(l2' & -> & ->)]; [exact M|].
        now apply (I2 l1 a l2'). }
      split.
      { intros x I V. apply in_app_iff in I. destruct I as [I|[<-|[]]].
        - apply (Old x I V [c]).
        - exists c. split; [|apply duplicates_refl].
          rewrite !in_app_iff. right. right. now left. }
      split; [rewrite length_app; simpl; lia|].
      split; [lia|].
      rewrite map_app. simpl. apply NoDup_snoc; [exact I6|].
      intros I. apply in_map_iff in I. destruct I as (e & E & I).
      apply (M e I). now left.
Qed.

(** The accepted vendors come from the batch and have a website; none of
    them duplicates a registry vendor, no two of them duplicate each other,
    by name or by domain, and so no vendor is accepted twice. *)
Theorem accepted_vendors_distinct (discovered : list Vendor) :
  let accepted := fst (filterDiscovered hostname existing discovered) in
  (forall a, In a accepted ->
     In a discovered /\ v_website a <> "" /\ forall e, In e existing -> ~ dup a e)
  /\ (forall l1 a l2, accepted = l1 ++ a :: l2 ->
        forall e, In e l1 -> ~ dup a e /\ ~ dup e a)
  /\ NoDup accepted.
Proof.
  cbv zeta. destruct (filterDiscovered_invariant discovered) as (I1 & I2 & _ & _ & _ & I6).
  split; [exact I1|]. split.
  - intros l1 a l2 H e I. split; [now apply (I2 l1 a l2)|].
    intros D. apply (I2 l1 a l2 H e I). now apply duplicates_sym.
  - now apply NoDup_map_inv in I6.
Qed.

(** Nothing of the batch is lost: every discovered vendor that has a
    website is accepted or duplicates a registry vendor or an accepted one,
    every discovered vendor is either accepted or logged, and the vendors
    logged for a missing website are those that have none. *)
Theorem batch_accounted_for (discovered : list Vendor) :
  let accepted := fst (filterDiscovered hostname existing discovered) in
  let log := snd (filterDiscovered hostname existing discovered) in
  (forall c, In c discovered -> v_website c <> "" ->
     exists e, In e (existing ++ accepted) /\ dup c e)
  /\ (List.length accepted + List.length log = List.length discovered)%nat
  /\ List.length (filter isNoWebsiteLine log) = List.length (withoutWebsite discovered).
Proof.
  cbv zeta. destruct (filterDiscovered_invariant discovered) as (_ & _ & I3 & I4 & I5 & _).
  now repeat split.
Qed.

Lemma filterDiscovered_keeps (l : list Vendor) :
  (forall a, In a l -> v_website a <> "" /\ forall e, In e existing -> ~ dup a e) ->
  (forall l1 a l2, l = l1 ++ a :: l2 -> forall e, In e l1 -> ~ dup a e) ->
  filterDiscovered hostname existing l = (l, []).
Proof.
  induction l as [|c l' IH] using rev_ind; intros H1 H2; [reflexivity|].
  assert (Ic : In c (l' ++ [c])) by (apply in_app_iff; right; now left).
  rewrite filterDiscovered_snoc, IH.
  - destruct (H1 c Ic) as (W' & N).
    destruct (filterStep_cases l' [] c)
      as [(W & _)|[(_ & (e & J & D) & _)|(_ & _ & _ & E)]]; [| |exact E].
    + elim (W' W).
    + apply in_app_iff in J. destruct J as [J|J].
      * elim (N e J D).
      * elim (H2 l' c [] eq_refl e J D).
  - intros a I. apply H1. apply in_app_iff. now left.
  - intros l1 a l2 -> e I. apply (H2 l1 a (l2 ++ [c])); trivial.
    now rewrite <- app_assoc.
Qed.

(** Filtering is idempotent: the accepted vendors, given to the filter
    again with the same registry, are all accepted, in the same order, and
    nothing is logged. *)
Theorem filterDiscovered_idempotent (discovered : list Vendor) :
  let accepted := fst (filterDiscovered hostname existing discovered) in
  filterDiscovered hostname existing accepted = (accepted, []).
Proof.
  cbv zeta. destruct (filterDiscovered_invariant discovered) as (I1 & I2 & _).
  apply filterDiscovered_keeps; [|exact I2].
  intros a I. destruct (I1 a I) as (_ & W & N). now split.
Qed.

End BatchFilter.

Section GeneratedEntries.
Import Js Verify Classify Acquire AcquireSpec AcquireMore.
Variable hostname : string -> option string.
Variable probe : string -> FetchOutcome.
Variable fetchPageContent : string -> string -> option string.
Variable today : string.
Variable existing : list Vendor.

Lemma NoDup_map_through {A B C : Type} (f : A -> B) (g : A -> C) (l : list A) :
  (forall x y, g x = g y -> f x = f y) -> NoDup (map f l) -> NoDup (map g l).
Proof.
  intros F. induction l as [|x l IH]; simpl; intros N; [constructor|].
  inversion N as [|? ? I N']. subst. constructor; [|now apply IH].
  intros J. apply I. apply in_map_iff in J. destruct J as (y & E & J).
  apply in_map_iff. exists y. split; [|exact J]. now apply F.
Qed.

Lemma orStr_nonempty (a b : string) : b <> "" -> orStr a b <> "".
Proof.
  intros B. unfold orStr. destruct (strTruthy a) eqn:T; [|exact B].
  now apply strTruthy_iff.
Qed.

Lemma append_nonempty (a b : string) : b <> "" -> (a ++ b)%string <> "".
Proof. destruct a; simpl; [trivial | discriminate]. Qed.

(** The entries written for a batch: one for each accepted vendor, in the
    order of acceptance, with its name and website; their slugs are
    pairwise distinct; every entry has the slug generated from its name, a
    website, a description and a data source that are not empty, the
    status [needs_review], and a name that no registry vendor has, up to
    normalization. *)
Theorem generated_entries (g2Vendors capterraVendors : list Vendor) :
  let entries := runAcquisition hostname probe fetchPageContent today
                   existing g2Vendors capterraVendors in
  let accepted := fst (filterDiscovered hostname existing (g2Vendors ++ capterraVendors)) in
  map e_name entries = map v_name accepted
  /\ map e_website entries = map v_website accepted
  /\ NoDup (map e_slug entries)
  /\ Forall (fun e =>
               e_slug e = generateSlug (e_name e)
               /\ e_website e <> ""
               /\ e_description e <> ""
               /\ data_source e <> ""
               /\ verification_status e = needs_review
               /\ forall x, In x existing ->
                    normalizeName (v_name x) <> normalizeName (e_name e)) entries.
Proof.
  cbv zeta. unfold runAcquisition.
  destruct (filterDiscovered_invariant hostname existing (g2Vendors ++ capterraVendors))
    as (I1 & _ & _ & _ & _ & I6).
  set (accepted := fst (filterDiscovered hostname existing (g2Vendors ++ capterraVendors))) in *.
  rewrite !map_map.
  split; [reflexivity|]. split; [reflexivity|]. split.
  - apply (NoDup_map_through (fun a => normalizeName (v_name a))); [|exact I6].
    intros x y E. change (generateSlug (v_name x) = generateSlug (v_name y)) in E.
    rewrite <- (normalizeName_slug (v_name x)), <- (normalizeName_slug (v_name y)).
    now rewrite E.
  - apply Forall_forall. intros e I. apply in_map_iff in I. destruct I as (a & <- & I).
    destruct (I1 a I) as (_ & W & N).
    split; [reflexivity|]. split; [exact W|].
    split; [apply orStr_nonempty, append_nonempty; discriminate|].
    split; [apply orStr_nonempty; discriminate|].
    split; [reflexivity|].
    intros x J E. apply (N x J). now left.
Qed.

End GeneratedEntries.
